(** * Stegano-Studio: the payload transport layer of [stegano_core.py]

    A shallow embedding of the EOF container codec, the capacity calculator
    and the LSB steganographic codec, with the properties of the
    specification proved over it.

    Conventions.
    - A Python [bytes] object is a [list Z]; its elements are in [0, 256)
      (predicate [is_bytes]).  A numpy [uint8] array is a [list Z] too.
    - A Python [int] is a [Z]; list positions and sizes are [nat].
    - A Python [str] made of the digits 0 and 1 (a bit string) is a
      [list ascii]; a password is a [string], read as its UTF-8 bytes.
    - A raised exception is the [Err] case of [result]; the constructors of
      [error] are the messages of the [ValueError]s of the source.
    - Pillow, numpy, hashlib, [random], [secrets] and [cryptography] are not
      part of the repository: each is an interface (a class of operations),
      with what its documentation promises as a second class.  SHA-256, the
      Mersenne Twister, HMAC and PBKDF2 are written out as well, after their
      standards and CPython's sources, so that the index order of a given
      password can be computed. *)

From Stdlib Require Import ZArith Ascii String DecimalString DecimalNat.
From stdpp Require Import base list strings gmap.
From Stdlib Require Import Lia.

Local Open Scope Z_scope.

(** ** Errors *)

Inductive error : Type :=
| MarkerNotFoundOrTruncated   (* "Marker not found or truncated." *)
| InvalidEmbeddedLength       (* "Invalid embedded length (corrupted container)." *)
| BitstringNotMultipleOf8     (* "Bitstring length not multiple of 8" *)
| PayloadTooLarge             (* "Payload too large for image capacity." *)
| ImageTooSmall               (* "Image too small or corrupted (can't read header)." *)
| MarkerNotFoundLSB           (* "Marker not found in LSB data." *)
| DeclaredLengthExceeds       (* "Declared payload length exceeds image capacity or is corrupted." *)
| NotEncrypted                (* "Payload not encrypted or invalid header." *)
| InvalidTag                  (* cryptography.exceptions.InvalidTag *)
| CannotIdentifyImage         (* PIL.UnidentifiedImageError and friends *)
| OverflowError               (* int.to_bytes: "int too big to convert" *)
| IndexError                  (* list or array index out of range *)
| InvalidLiteral.             (* int(): "invalid literal for int()" *)

Inductive result (A : Type) : Type :=
| Ok (a : A)
| Err (e : error).
Arguments Ok {A} a.
Arguments Err {A} e.

Definition rbind {A B} (m : result A) (k : A -> result B) : result B :=
  match m with
  | Ok a => k a
  | Err e => Err e
  end.

Notation "'do' x <- m ; k" := (rbind m (fun x => k))
  (at level 10, x name, m at level 100, k at level 200).

(** ** Bytes and integers *)

Definition is_byte (b : Z) : Prop := 0 <= b < 256.
Definition is_bytes (bs : list Z) : Prop := Forall is_byte bs.

Definition len {A} (l : list A) : Z := Z.of_nat (length l).

(** [b[lo:hi]] for [0 <= lo] and [0 <= hi], the only case the source uses. *)
Definition slice {A} (b : list A) (lo hi : Z) : list A :=
  take (Z.to_nat hi - Z.to_nat lo)%nat (drop (Z.to_nat lo) b).

(** [int.from_bytes(bs, "big")] *)
Definition int_from_bytes (bs : list Z) : Z :=
  fold_left (fun acc b => acc * 256 + b) bs 0.

(** The [n] low base-256 digits of [v], most significant first. *)
Fixpoint be_digits (n : nat) (v : Z) : list Z :=
  match n with
  | O => []
  | S n' => be_digits n' (v / 256) ++ [v mod 256]
  end.

(** [v.to_bytes(n, "big")], for [v] unsigned. *)
Definition int_to_bytes (v : Z) (n : nat) : result (list Z) :=
  if (v <? 0) || (256 ^ Z.of_nat n <=? v) then Err OverflowError
  else Ok (be_digits n v).

(** [b.startswith(prefix)] *)
Fixpoint startswith (b prefix : list Z) : bool :=
  match prefix, b with
  | [], _ => true
  | _ :: _, [] => false
  | p :: prefix', x :: b' => (x =? p) && startswith b' prefix'
  end.

(** [b.rfind(sub)]: the highest offset at which [sub] occurs in [b], or -1.
    [rfind_from b sub i] tries the offsets [i, i-1, ..., 0] in that order. *)
Fixpoint rfind_from (b sub : list Z) (i : nat) : Z :=
  if startswith (drop i b) sub then Z.of_nat i
  else match i with
       | O => -1
       | S i' => rfind_from b sub i'
       end.

Definition rfind (b sub : list Z) : Z :=
  if (length sub <=? length b)%nat
  then rfind_from b sub (length b - length sub)
  else -1.

(** [sub] occurs in [b] at offset [i]: [b[i:i+len(sub)] == sub]. *)
Definition occurs_at (b sub : list Z) (i : nat) : Prop :=
  take (length sub) (drop i b) = sub.

(** ** Constants *)

(** [MARKER = b"STEG0"] *)
Definition MARKER : list Z := [83; 84; 69; 71; 48].
Definition LENGTH_LEN : nat := 8.
Definition SALT_LEN : nat := 16.
Definition NONCE_LEN : nat := 12.
Definition PBKDF2_ITERS : Z := 200000.

(** ** EOF mode (append) *)

Definition pack_stego (carrier_bytes payload : list Z) : result (list Z) :=
  do ln <- int_to_bytes (len payload) LENGTH_LEN;
  Ok (carrier_bytes ++ MARKER ++ ln ++ payload).

Definition unpack_stego (full : list Z) : result (list Z) :=
  let idx := rfind full MARKER in
  if (idx =? -1) || (len full <? idx + len MARKER + Z.of_nat LENGTH_LEN)
  then Err MarkerNotFoundOrTruncated
  else
    let ln_off := idx + len MARKER in
    let ln := int_from_bytes (slice full ln_off (ln_off + Z.of_nat LENGTH_LEN)) in
    let start := ln_off + Z.of_nat LENGTH_LEN in
    let end_ := start + ln in
    if len full <? end_ then Err InvalidEmbeddedLength
    else Ok (slice full start end_).

(** ** Libraries

    What the source imports and the repository does not contain.  Each class
    lists the operations the source calls; the classes named [..Ok] state
    what their documentation promises. *)

(** A decoded image: [img.size] is [(im_width, im_height)], and [im_data] is
    [np.array(img).flatten()], the channel bytes in row-major order. *)
Record rgb_image : Type := {
  im_width : nat;
  im_height : nat;
  im_data : list Z
}.

(** Pillow and numpy. *)
Class ImageLib : Type := {
  (** [Image.open(io.BytesIO(b)).convert("RGB")]; [None] when it raises. *)
  image_open_rgb : list Z -> option rgb_image;
  (** [Image.fromarray(a.reshape((h, w, 3)), mode="RGB").save(out, format="PNG")],
      with the bytes of [out] as result. *)
  png_save : nat -> nat -> list Z -> list Z
}.

Class ImageLibOk (IL : ImageLib) : Prop := {
  (** The array of an RGB image has shape [(h, w, 3)] ... *)
  image_open_shape c im :
    image_open_rgb c = Some im ->
    length (im_data im) = (im_width im * im_height im * 3)%nat;
  (** ... and type [uint8]. *)
  image_open_uint8 c im :
    image_open_rgb c = Some im -> is_bytes (im_data im);
  (** PNG is lossless: the pixels written are the pixels read back. *)
  png_lossless c im data :
    image_open_rgb c = Some im ->
    length data = length (im_data im) -> is_bytes data ->
    image_open_rgb (png_save (im_width im) (im_height im) data)
    = Some {| im_width := im_width im; im_height := im_height im; im_data := data |}
}.

(** hashlib. *)
Class HashLib : Type := {
  (** [hashlib.sha256(b).digest()] *)
  sha256_digest : list Z -> list Z
}.

Class HashLibOk (HL : HashLib) : Prop := {
  sha256_length b : length (sha256_digest b) = 32%nat;
  sha256_bytes b : is_bytes (sha256_digest b)
}.

(** The generator of the module [random]. *)
Class RandomLib : Type := {
  rng : Type;
  (** [random.Random(seed)] *)
  Random : Z -> rng;
  (** [rng._randbelow(n)]: a number and the next state of the generator. *)
  randbelow : rng -> nat -> nat * rng
}.

(** The module [secrets] and the package [cryptography]. *)
Class CryptoLib : Type := {
  entropy : Type;
  (** [secrets.token_bytes(n)] *)
  token_bytes : nat -> entropy -> list Z * entropy;
  (** [PBKDF2HMAC(SHA256(), length, salt, iterations).derive(password)] *)
  pbkdf2_hmac_sha256 : nat -> list Z -> Z -> list Z -> list Z;
  (** [AESGCM(key).encrypt(nonce, data, None)] *)
  aesgcm_encrypt : list Z -> list Z -> list Z -> list Z;
  (** [AESGCM(key).decrypt(nonce, data, None)] for a nonce of 8 to 128
      bytes; [None] for [InvalidTag].  (For a nonce outside of this range,
      as an envelope cut short before its 24th byte has, the library raises
      [ValueError]; the interface does not tell the two apart.) *)
  aesgcm_decrypt : list Z -> list Z -> list Z -> option (list Z)
}.

Class CryptoLibOk (CL : CryptoLib) : Prop := {
  token_bytes_length n e : length (fst (token_bytes n e)) = n;
  aesgcm_correct key nonce data :
    aesgcm_decrypt key nonce (aesgcm_encrypt key nonce data) = Some data
}.

(** ** Strings *)

(** [password.encode()] *)
Definition str_encode (s : string) : list Z :=
  map (fun c => Z.of_N (N_of_ascii c)) (list_ascii_of_string s).

(** [str(d)] for a digit [d]. *)
Definition digit_char (d : Z) : ascii := ascii_of_N (Z.to_N (48 + d)).

(** [int(c)] for a string [c] of one character. *)
Definition int_of_char (c : ascii) : result Z :=
  let code := Z.of_N (N_of_ascii c) in
  if (48 <=? code) && (code <=? 57) then Ok (code - 48) else Err InvalidLiteral.

(** [int(s, 2)] for a string [s] of binary digits, the strings the codec
    passes to it.  (Python accepts more: a sign, the prefix [0b], underscores
    between digits and blanks around them; the model rejects these.) *)
Fixpoint int_base2_from (acc : Z) (s : list ascii) : result Z :=
  match s with
  | [] => Ok acc
  | c :: s' =>
    do d <- int_of_char c;
    if d <? 2 then int_base2_from (2 * acc + d) s' else Err InvalidLiteral
  end.

Definition int_base2 (s : list ascii) : result Z :=
  match s with
  | [] => Err InvalidLiteral
  | _ => int_base2_from 0 s
  end.

(** [[f(x) for x in xs]], stopping at the first exception. *)
Fixpoint map_result {A B} (f : A -> result B) (xs : list A) : result (list B) :=
  match xs with
  | [] => Ok []
  | x :: xs' => do y <- f x; do ys <- map_result f xs'; Ok (y :: ys)
  end.

(** ** Key derivation, encryption and decryption *)

Section Cipher.
Context {CL : CryptoLib}.

Definition derive_key (password : string) (salt : list Z) : list Z :=
  pbkdf2_hmac_sha256 32 salt PBKDF2_ITERS (str_encode password).

(** [b"ENCR"] *)
Definition ENCR : list Z := [69; 78; 67; 82].

Definition encrypt_payload (payload : list Z) (password : string)
    (e : entropy) : list Z * entropy :=
  let '(salt, e) := token_bytes SALT_LEN e in
  let key := derive_key password salt in
  let '(nonce, e) := token_bytes NONCE_LEN e in
  let ct := aesgcm_encrypt key nonce payload in
  (ENCR ++ salt ++ nonce ++ ct, e).

Definition decrypt_payload (enc_bytes : list Z) (password : string)
    : result (list Z) :=
  if negb (startswith enc_bytes ENCR) then Err NotEncrypted
  else
    let off := 4%nat in
    let salt := take SALT_LEN (drop off enc_bytes) in
    let off := (off + SALT_LEN)%nat in
    let nonce := take NONCE_LEN (drop off enc_bytes) in
    let off := (off + NONCE_LEN)%nat in
    let ct := drop off enc_bytes in
    let key := derive_key password salt in
    match aesgcm_decrypt key nonce ct with
    | Some payload => Ok payload
    | None => Err InvalidTag
    end.
End Cipher.

(** ** LSB mode (pixel LSB) *)

(** [f"{byte:08b}"], for [0 <= byte < 256]. *)
Definition format_08b (byte : Z) : list ascii :=
  map (fun k => digit_char (Z.b2z (Z.testbit byte k))) [7; 6; 5; 4; 3; 2; 1; 0].

Definition _to_bitstring (b : list Z) : list ascii :=
  concat (map format_08b b).

Definition _from_bitstring (bits : list ascii) : result (list Z) :=
  if negb (length bits mod 8 =? 0)%nat then Err BitstringNotMultipleOf8
  else
    map_result (fun i => int_base2 (take 8 (drop i bits)))
      (map (fun k => 8 * k)%nat (seq 0 (length bits / 8))).

Section LSB.
Context {IL : ImageLib} {HL : HashLib} {RL : RandomLib}.

(** [x[i], x[j] = x[j], x[i]], for positions of [x]: [shuffle] calls it
    with [j = randbelow(i + 1)] and [i < len(x)].  (Outside of [x], where
    Python raises [IndexError], the list is returned as it is.) *)
Definition swap {A} (x : list A) (i j : nat) : list A :=
  match x !! j, x !! i with
  | Some xj, Some xi => <[j := xi]> (<[i := xj]> x)
  | _, _ => x
  end.

(** [Random.shuffle], from [Lib/random.py]:
    [for i in reversed(range(1, len(x))): j = randbelow(i + 1); swap].
    [shuffle_from g x i] runs the iterations [i, i-1, ..., 1]. *)
Fixpoint shuffle_from {A} (g : rng) (x : list A) (i : nat) : list A :=
  match i with
  | O => x
  | S i' =>
    let '(j, g') := randbelow g (i + 1) in
    shuffle_from g' (swap x i j) i'
  end.

Definition shuffle {A} (g : rng) (x : list A) : list A :=
  shuffle_from g x (length x - 1).

Definition _seed_from_password (password : string) : option Z :=
  if String.eqb password "" then None
  else
    let h := sha256_digest (str_encode password) in
    Some (int_from_bytes (take 8 h)).

Definition lsb_capacity_bytes (carrier_bytes : list Z) : Z :=
  match image_open_rgb carrier_bytes with
  | None => 0
  | Some img =>
    let '(w, h) := (im_width img, im_height img) in
    let total_bits := Z.of_nat w * Z.of_nat h * 3 in
    total_bits / 8
  end.

(** The index order of [embed_lsb]:
    [indices = list(range(flat.size))], shuffled when there is a seed. *)
Definition embed_lsb_indices (size : nat) (password : string) : list nat :=
  let indices := seq 0 size in
  let seed := _seed_from_password password in
  match seed with
  | Some seed => let rng := Random seed in shuffle rng indices
  | None => indices
  end.

(** The loop of [embed_lsb] over [enumerate(bits)], from position [i] on:
    the array it leaves, and the exception, if one is raised. *)
Fixpoint write_bits (indices : list nat) (i : nat) (bits : list ascii)
    (flat : list Z) : result unit * list Z :=
  match bits with
  | [] => (Ok tt, flat)
  | bit :: bits' =>
    match indices !! i with
    | None => (Err IndexError, flat)
    | Some idx =>
      match flat !! idx with
      | None => (Err IndexError, flat)
      | Some v =>
        match int_of_char bit with
        | Err e => (Err e, flat)
        | Ok b => write_bits indices (S i) bits' (<[idx := Z.lor (Z.land v 254) b]> flat)
        end
      end
    end
  end.

(** [embed_lsb] on the decoded array [flat]: the capacity check, the index
    order and the loop.  The second component is [flat] as the function
    leaves it. *)
Definition embed_lsb_array (flat : list Z) (payload : list Z)
    (password : string) : result unit * list Z :=
  let bits := _to_bitstring payload in
  if (length flat <? length bits)%nat then (Err PayloadTooLarge, flat)
  else
    let indices := embed_lsb_indices (length flat) password in
    write_bits indices 0 bits flat.

Definition embed_lsb (carrier_bytes payload : list Z) (password : string)
    : result (list Z) :=
  match image_open_rgb carrier_bytes with
  | None => Err CannotIdentifyImage
  | Some img =>
    let flat := im_data img in
    match embed_lsb_array flat payload password with
    | (Err e, _) => Err e
    | (Ok _, new_data) => Ok (png_save (im_width img) (im_height img) new_data)
    end
  end.

(** The index order of [extract_lsb]:
    [indices = list(range(data.size))], shuffled when there is a seed. *)
Definition extract_lsb_indices (size : nat) (password : string) : list nat :=
  let indices := seq 0 size in
  let seed := _seed_from_password password in
  match seed with
  | Some seed => let rng := Random seed in shuffle rng indices
  | None => indices
  end.

(** ["".join(str(int(data[indices[i]] & 1)) for i in range(n))] *)
Definition read_bits (data : list Z) (indices : list nat) (n : nat)
    : result (list ascii) :=
  map_result
    (fun i =>
       match indices !! i with
       | None => Err IndexError
       | Some idx =>
         match data !! idx with
         | None => Err IndexError
         | Some v => Ok (digit_char (Z.land v 1))
         end
       end)
    (seq 0 n).

Definition extract_lsb (stego_bytes : list Z) (password : string)
    : result (list Z) :=
  match image_open_rgb stego_bytes with
  | None => Err CannotIdentifyImage
  | Some img =>
    let data := im_data img in
    let indices := extract_lsb_indices (length data) password in
    let header_bytes_len := (length MARKER + LENGTH_LEN)%nat in
    let header_bits_len := (header_bytes_len * 8)%nat in
    if (length indices <? header_bits_len)%nat then Err ImageTooSmall
    else
      do header_bits <- read_bits data indices header_bits_len;
      do header_bytes <- _from_bitstring header_bits;
      if negb (startswith header_bytes MARKER) then Err MarkerNotFoundLSB
      else
        let ln := int_from_bytes
                    (slice header_bytes (len MARKER)
                       (len MARKER + Z.of_nat LENGTH_LEN)) in
        let payload_total_bytes := Z.of_nat header_bytes_len + ln in
        let total_bits_needed := payload_total_bytes * 8 in
        if len indices <? total_bits_needed then Err DeclaredLengthExceeds
        else
          do bits <- read_bits data indices (Z.to_nat total_bits_needed);
          do all_bytes <- _from_bitstring bits;
          Ok all_bytes
  end.
End LSB.

(** ** Notions of the specification *)

(** Bit [i] of a byte string, the most significant bit of each byte first. *)
Definition frame_bit (F : list Z) (i : nat) : bool :=
  Z.testbit (nth (i / 8)%nat F 0) (7 - Z.of_nat (i mod 8)%nat).

(** A frame: the marker, the length of the envelope as 8 bytes, big-endian,
    and the envelope. *)
Definition is_frame (F : list Z) : Prop :=
  exists ln envelope,
    F = MARKER ++ ln ++ envelope /\
    length ln = LENGTH_LEN /\ is_bytes ln /\ is_bytes envelope /\
    int_from_bytes ln = len envelope.

(** The least significant bits of [data] at the first 40 positions of
    [indices] are the 40 bits of the marker. *)
Definition spells_marker (data : list Z) (indices : list nat) : Prop :=
  forall i, (i < 40)%nat ->
    exists idx v,
      indices !! i = Some idx /\ data !! idx = Some v /\
      Z.testbit v 0 = frame_bit MARKER i.

(** The characters of a bit string. *)
Definition is_bit_char (c : ascii) : Prop := c = "0"%char \/ c = "1"%char.

(** The first eight bytes of a digest as an unsigned 64-bit integer, most
    significant byte first, as the specification words the seed. *)
Definition be64 (h : list Z) : Z :=
  nth 0 h 0 * 2 ^ 56 + nth 1 h 0 * 2 ^ 48 + nth 2 h 0 * 2 ^ 40 +
  nth 3 h 0 * 2 ^ 32 + nth 4 h 0 * 2 ^ 24 + nth 5 h 0 * 2 ^ 16 +
  nth 6 h 0 * 2 ^ 8 + nth 7 h 0.

(** The number of channel bytes of a decoded image, [W * H * 3]. *)
Definition channel_bytes (img : rgb_image) : nat :=
  (im_width img * im_height img * 3)%nat.

(** The shuffle as the specification words it (Fisher-Yates): for
    [i = n-1, n-2, ..., 1] the element at position [i] is exchanged with the
    element at a position [j <= i] that is drawn.  [fisher_yates draws x i]
    runs the steps [i, i-1, ..., 1] with the numbers of [draws], in turn. *)
Definition exchange {A} (x : list A) (i j : nat) : list A :=
  match x !! i, x !! j with
  | Some a, Some b => <[i := b]> (<[j := a]> x)
  | _, _ => x
  end.

Fixpoint fisher_yates {A} (draws : list nat) (x : list A) (i : nat) : list A :=
  match i, draws with
  | S i', j :: draws' => fisher_yates draws' (exchange x i j) i'
  | _, _ => x
  end.

(** The numbers a generator hands out for the steps [i, i-1, ..., 1]: the
    results of [randbelow(i + 1)], [randbelow(i)], ..., [randbelow(2)]. *)
Fixpoint draws {RL : RandomLib} (g : rng) (i : nat) : list nat :=
  match i with
  | O => []
  | S i' => let '(j, g') := randbelow g (i + 1) in j :: draws g' i'
  end.

(** A sequence of draws for the steps [i, i-1, ..., 1]: [i] numbers, the
    first at most [i], the second at most [i-1], ..., the last at most 1. *)
Fixpoint draws_below (i : nat) (ds : list nat) : Prop :=
  match i, ds with
  | O, [] => True
  | S i', j :: ds' => (j <= i)%nat /\ draws_below i' ds'
  | _, _ => False
  end.

(** The position of [q] in a list of positions, if it occurs. *)
Fixpoint position_of (q : nat) (l : list nat) : option nat :=
  match l with
  | [] => None
  | x :: l' => if (x =? q)%nat then Some 0%nat else S <$> position_of q l'
  end.

(** The least significant bit at position [q] of the pixel array once
    [embed_lsb] has written the bits of [F] along [indices]: bit [i] of [F]
    when [q] is [indices[i]] for an [i < 8 * len(F)], and the bit of the
    carrier otherwise. *)
Definition lsb_after_embed (data : list Z) (indices : list nat) (F : list Z)
    (q : nat) : bool :=
  match position_of q (take (8 * length F) indices) with
  | Some i => frame_bit F i
  | None => Z.testbit (nth q data 0) 0
  end.

(** ** A small model of the libraries

    One implementation of each interface, small enough to compute with: the
    worked examples below run the codec on it. *)

(** An uncompressed raster format: the width, the height, the channel bytes. *)
Definition raw_open (c : list Z) : option rgb_image :=
  match c with
  | w :: h :: data =>
    if (0 <=? w) && (0 <=? h)
       && (length data =? Z.to_nat w * Z.to_nat h * 3)%nat
       && forallb (fun b => (0 <=? b) && (b <? 256)) data
    then Some {| im_width := Z.to_nat w; im_height := Z.to_nat h;
                 im_data := data |}
    else None
  | _ => None
  end.

Definition raw_save (w h : nat) (data : list Z) : list Z :=
  Z.of_nat w :: Z.of_nat h :: data.

Definition raw_image_lib : ImageLib :=
  {| image_open_rgb := raw_open; png_save := raw_save |}.

(** A 32-byte digest: the message, cut or padded with zeros. *)
Definition pad_digest (b : list Z) : list Z :=
  take 32 (map (fun x => x mod 256) b ++ replicate 32 0).

Definition pad_hash_lib : HashLib := {| sha256_digest := pad_digest |}.

(** A linear congruential generator on 64 bits. *)
Definition lcg_next (g : Z) : Z :=
  (g * 6364136223846793005 + 1442695040888963407) mod 2 ^ 64.

Definition lcg_lib : RandomLib :=
  {| rng := Z;
     Random := fun seed => seed;
     randbelow := fun g n => (Z.to_nat (g mod Z.of_nat n), lcg_next g) |}.

(** A cipher that appends a 16-byte tag of zeros, with the entropy source a
    counter. *)
Definition plain_crypto_lib : CryptoLib :=
  {| entropy := Z;
     token_bytes := fun n e => (replicate n (e mod 256), e + 1);
     pbkdf2_hmac_sha256 := fun n salt iters pw => take n (pw ++ salt ++ replicate n 0);
     aesgcm_encrypt := fun key nonce data => data ++ replicate 16 0;
     aesgcm_decrypt := fun key nonce ct =>
       let n := (length ct - 16)%nat in
       if bool_decide (drop n ct = replicate 16 0) then Some (take n ct) else None |}.

(** ** Worked example: an 8 x 5 image and a frame of 15 bytes *)

Definition demo_image : rgb_image :=
  {| im_width := 8; im_height := 5;
     im_data := map (fun k => (Z.of_nat k * 37 + 11) mod 256) (seq 0 120) |}.

Definition demo_carrier : list Z := raw_save 8 5 (im_data demo_image).

(** [MARKER + (2).to_bytes(8, "big") + b"hi"] *)
Definition demo_frame : list Z :=
  MARKER ++ [0; 0; 0; 0; 0; 0; 0; 2] ++ [104; 105].

Definition demo_stego : list Z :=
  Eval vm_compute in
    match embed_lsb (IL := raw_image_lib) (HL := pad_hash_lib) (RL := lcg_lib)
            demo_carrier demo_frame "pw" with
    | Ok stego => stego
    | Err _ => []
    end.

(** ** A family of passwords

    The number [i] written as 65 binary digits, least significant first. *)
Definition bit_password (i : nat) : string :=
  string_of_list_ascii
    (map (fun k => digit_char (Z.b2z (Z.testbit (Z.of_nat i) (Z.of_nat k))))
       (seq 0 65)).

(** ** Password strength *)

(** [len(s)] for a [str]: its characters are the bytes of the UTF-8 encoding
    that are not continuation bytes. *)
Definition is_continuation (c : ascii) : bool :=
  ((128 <=? N_of_ascii c) && (N_of_ascii c <? 192))%N.

Definition str_len (s : string) : nat :=
  length (List.filter (fun c => negb (is_continuation c)) (list_ascii_of_string s)).

Definition is_upper (c : ascii) : bool :=
  ((65 <=? N_of_ascii c) && (N_of_ascii c <=? 90))%N.
Definition is_lower (c : ascii) : bool :=
  ((97 <=? N_of_ascii c) && (N_of_ascii c <=? 122))%N.
Definition is_digit (c : ascii) : bool :=
  ((48 <=? N_of_ascii c) && (N_of_ascii c <=? 57))%N.

(** [re.search(r"[...]", s)] for a character class: is there a match. *)
Definition re_search_class (cls : ascii -> bool) (s : string) : bool :=
  existsb cls (list_ascii_of_string s).

(** The truth value of [is_strong_password(pwd)] (the source returns [False],
    [None] or the last match object). *)
Definition is_strong_password (pwd : string) : bool :=
  (10 <=? str_len pwd)%nat
  && re_search_class is_upper pwd
  && re_search_class is_lower pwd
  && re_search_class is_digit pwd
  && re_search_class (fun c => negb (is_upper c || is_lower c || is_digit c)) pwd.

(** ** The routes of [app.py]

    Of each route, the statements between reading the request and sending
    the response: they decide what is sent.  [request.form] is a map from
    field names to values. *)

(** [b"PLND"] *)
Definition PLND : list Z := [80; 76; 78; 68].

(** [b"\x89PNG"] *)
Definition PNG_SIGNATURE : list Z := [137; 80; 78; 71].

(** What a route raises. *)
Inductive app_error : Type :=
| CoreError (e : error)       (* raised by stegano_core or by a library *)
| LsbPayloadMissingMarker     (* ValueError("LSB payload missing marker") *)
| UnableToFindPayload (details : app_error).
    (* ValueError("Unable to find embedded payload (neither EOF nor LSB). Details: ...") *)

(** The early answers [return jsonify({"error": ...}), 400]. *)
Inductive reply : Type :=
| PasswordRequired            (* "Password required for encryption" *)
| PasswordTooWeak             (* "Password too weak. Use min 10 chars ..." *)
| CapacityTooSmall (needs capacity : Z)
    (* "Image capacity too small for LSB embedding. Needs .. bytes, capacity .. bytes." *)
| PasswordRequiredForPayload  (* "Password required for encrypted payload" *)
| UnknownPayloadType.         (* "Unknown payload type" *)

(** How the statements of a route end: with a value, with an early answer,
    or with an exception, which the [except Exception] of the route turns
    into an error response. *)
Inductive outcome (A : Type) : Type :=
| Done (a : A)
| Reply400 (r : reply)
| Raised (e : app_error).
Arguments Done {A} a.
Arguments Reply400 {A} r.
Arguments Raised {A} e.

Definition obind {A B} (m : outcome A) (k : A -> outcome B) : outcome B :=
  match m with
  | Done a => k a
  | Reply400 r => Reply400 r
  | Raised e => Raised e
  end.

(** A call of stegano_core inside a route. *)
Definition call {A} (r : result A) : outcome A :=
  match r with
  | Ok a => Done a
  | Err e => Raised (CoreError e)
  end.

(** [request.form.get(key, default)] *)
Definition form_get (form : gmap string string) (key default : string) : string :=
  match form !! key with
  | Some v => v
  | None => default
  end.

Section Routes.
Context {IL : ImageLib} {HL : HashLib} {RL : RandomLib} {CL : CryptoLib}.

(** [embed], lines 79-108: from the archive of the secrets to the stego
    bytes. *)
Definition embed_stego (form : gmap string string)
    (carrier_bytes payload_zip : list Z) (e : entropy) : outcome (list Z) :=
  obind
    (if bool_decide (form !! "encrypt" = Some "on") then
       let pwd := form_get form "password" "" in
       if String.eqb pwd "" then Reply400 PasswordRequired
       else if negb (is_strong_password pwd) then Reply400 PasswordTooWeak
       else Done (fst (encrypt_payload payload_zip pwd e))
     else Done (PLND ++ payload_zip))
    (fun payload =>
       let mode := form_get form "mode" "eof" in
       if String.eqb mode "lsb" then
         let headered := payload in
         obind (call (int_to_bytes (len headered) LENGTH_LEN)) (fun ln =>
         let payload_for_lsb := MARKER ++ ln ++ headered in
         let cap := lsb_capacity_bytes carrier_bytes in
         if cap <? len payload_for_lsb
         then Reply400 (CapacityTooSmall (len payload_for_lsb) cap)
         else
           let pwd := form_get form "password" "" in
           call (embed_lsb carrier_bytes payload_for_lsb pwd))
       else call (pack_stego carrier_bytes payload)).

(** The envelope of a recovered payload, as [download_payload] (lines
    200-208) and [extract_info] (lines 148-156) open it. *)
Definition open_envelope (form : gmap string string) (payload : list Z)
    : outcome (list Z) :=
  if startswith payload ENCR then
    let pwd := form_get form "password" "" in
    if String.eqb pwd "" then Reply400 PasswordRequiredForPayload
    else call (decrypt_payload payload pwd)
  else if startswith payload PLND then Done (drop 4 payload)
  else Reply400 UnknownPayloadType.

(** The LSB attempt of [download_payload] (lines 192-198) and of
    [extract_info] (lines 137-143). *)
Definition lsb_payload (form : gmap string string) (full : list Z)
    : outcome (list Z) :=
  let pwd := form_get form "password" "" in
  obind (call (extract_lsb full pwd)) (fun payload_with_header =>
  if negb (startswith payload_with_header MARKER)
  then Raised LsbPayloadMissingMarker
  else
    let ln := int_from_bytes
                (slice payload_with_header (len MARKER)
                   (len MARKER + Z.of_nat LENGTH_LEN)) in
    Done (slice payload_with_header (len MARKER + Z.of_nat LENGTH_LEN)
            (len MARKER + Z.of_nat LENGTH_LEN + ln))).

(** [download_payload], lines 186-208: the bytes it sends. *)
Definition download_payload_data (form : gmap string string) (full : list Z)
    : outcome (list Z) :=
  obind
    (match unpack_stego full with
     | Ok payload => Done payload
     | Err _ => lsb_payload form full
     end)
    (open_envelope form).

(** [extract_info], lines 128-156: the archive it lists.  An exception of the
    LSB attempt is raised again as "Unable to find embedded payload". *)
Definition extract_info_data (form : gmap string string) (full : list Z)
    : outcome (list Z) :=
  obind
    (match unpack_stego full with
     | Ok payload => Done payload
     | Err _ =>
       match lsb_payload form full with
       | Raised e => Raised (UnableToFindPayload e)
       | other => other
       end
     end)
    (open_envelope form).

(** [download_selected_raw], lines 225-230: the bytes it opens as an
    archive. *)
Definition download_selected_raw_data (form : gmap string string)
    (full : list Z) : outcome (list Z) :=
  let password := form_get form "password" "" in
  obind
    (call (if startswith full PNG_SIGNATURE then extract_lsb full password
           else unpack_stego full))
    (fun payload_with_header =>
       if startswith payload_with_header ENCR
       then call (decrypt_payload payload_with_header password)
       else Done payload_with_header).
End Routes.

(** The envelope [embed] frames: the archive tagged "PLND", or, when the
    form asks for encryption with a strong password, the encrypted
    envelope. *)
Definition route_envelope {CL : CryptoLib} (form : gmap string string)
    (payload_zip : list Z) (e : entropy) (payload : list Z) : Prop :=
  (form !! "encrypt" <> Some "on"%string /\ payload = PLND ++ payload_zip) \/
  (form !! "encrypt" = Some "on"%string /\
   is_strong_password (form_get form "password" "") = true /\
   payload = fst (encrypt_payload payload_zip (form_get form "password" "") e)).

(** ** Worked example: the routes on a 14 x 12 image

    The image format here is the raw one behind the 4 bytes of the PNG
    signature. *)

Definition signed_image_lib : ImageLib :=
  {| image_open_rgb := fun c =>
       if startswith c PNG_SIGNATURE then raw_open (drop 4 c) else None;
     png_save := fun w h data => PNG_SIGNATURE ++ raw_save w h data |}.

Definition route_image : rgb_image :=
  {| im_width := 14; im_height := 12;
     im_data := map (fun k => (Z.of_nat k * 91 + 7) mod 256) (seq 0 504) |}.

Definition route_carrier : list Z :=
  PNG_SIGNATURE ++ raw_save 14 12 (im_data route_image).

(** The form of an LSB embedding with encryption, and the form sent with the
    stego file to get the payload back. *)
Definition lsb_encrypt_form : gmap string string :=
  {[ "mode" := "lsb"; "encrypt" := "on"; "password" := "Tr0ub4dor&3x" ]}%string.

Definition password_form : gmap string string :=
  {[ "password" := "Tr0ub4dor&3x" ]}%string.

Definition eof_form : gmap string string := ∅.

(** The archive of the example: two bytes. *)
Definition route_zip : list Z := [80; 75].

Definition route_stego : list Z :=
  Eval vm_compute in
    match embed_stego (IL := signed_image_lib) (HL := pad_hash_lib)
            (RL := lcg_lib) (CL := plain_crypto_lib)
            lsb_encrypt_form route_carrier route_zip 7 with
    | Done stego => stego
    | _ => []
    end.

(** ** The archive of the secrets

    [os.path], [str.strip] and [zipfile] are libraries. *)

Class PathLib : Type := {
  (** [os.path.basename(p)] *)
  basename : string -> string;
  (** [os.path.splitext(p)] *)
  splitext : string -> string * string
}.

Class TextLib : Type := {
  (** [s.strip()] *)
  str_strip : string -> string
}.

Class ZipLib : Type := {
  (** The bytes of a [ZipFile(bio, "w", ZIP_DEFLATED)] after the calls
      [writestr(name, data)] of the list, in that order. *)
  zip_deflated : list (string * list Z) -> list Z
}.

(** A file of the request (a werkzeug [FileStorage]): [f.filename], and the
    bytes [f.read()] returns. *)
Record file_storage : Type := {
  fs_filename : option string;
  fs_content : list Z
}.

(** [str(i)], as in [f"{i}"]. *)
Definition str_of_nat (i : nat) : string :=
  NilEmpty.string_of_uint (Nat.to_uint i).

Section Archive.
Context {PL : PathLib} {TL : TextLib} {ZL : ZipLib}.

(** [f"{root}_{i}{ext}"] with [root, ext = os.path.splitext(name)] *)
Definition numbered (name : string) (i : nat) : string :=
  let '(root, ext) := splitext name in
  root +:+ "_" +:+ str_of_nat i +:+ ext.

(** The loop [while target in seen: target = f"{root}_{i}{ext}"; i += 1],
    from the state [(target, i)], for at most [fuel] iterations. *)
Fixpoint free_target (fuel : nat) (name : string) (seen : gset string)
    (target : string) (i : nat) : option string :=
  if bool_decide (target ∈ seen) then
    match fuel with
    | O => None
    | S fuel' => free_target fuel' name seen (numbered name i) (S i)
    end
  else Some target.

(** [not f.filename] *)
Definition no_filename (f : file_storage) : bool :=
  match fs_filename f with
  | None => true
  | Some filename => String.eqb filename ""
  end.

(** The loop over [secret_files] of [create_payload_zip_from_files]: the
    calls of [writestr] it makes, [seen] being the names already taken. *)
Fixpoint add_files (secret_files : list file_storage) (seen : gset string)
    : option (list (string * list Z)) :=
  match secret_files with
  | [] => Some []
  | f :: rest =>
    if no_filename f then add_files rest seen
    else
      let name := basename (default ""%string (fs_filename f)) in
      match free_target (S (size seen)) name seen name 1 with
      | None => None
      | Some target =>
        let content := fs_content f in
        match add_files rest ({[target]} ∪ seen) with
        | None => None
        | Some entries => Some ((target, content) :: entries)
        end
      end
  end.

(** [if secret_text and secret_text.strip(): zf.writestr("secret_text.txt", secret_text)] *)
Definition text_entry (secret_text : string) : list (string * list Z) :=
  if negb (String.eqb secret_text "")
     && negb (String.eqb (str_strip secret_text) "")
  then [("secret_text.txt"%string, str_encode secret_text)]
  else [].

(** The calls of [writestr] of [create_payload_zip_from_files], in order.
    [None] stands for a loop [while target in seen] that does not end. *)
Definition payload_entries_from_files (secret_text : string)
    (secret_files : list file_storage) : option (list (string * list Z)) :=
  match add_files secret_files ∅ with
  | None => None
  | Some entries => Some (text_entry secret_text ++ entries)
  end.

Definition create_payload_zip_from_files (secret_text : string)
    (secret_files : list file_storage) : option (list Z) :=
  match payload_entries_from_files secret_text secret_files with
  | None => None
  | Some entries => Some (zip_deflated entries)
  end.

(** The loop over [files_dict.items()] of [create_payload_zip_from_bytes];
    the dictionary is the list of its items in insertion order. *)
Fixpoint add_items (items : list (string * list Z)) (seen : gset string)
    : option (list (string * list Z)) :=
  match items with
  | [] => Some []
  | (name, data) :: rest =>
    if String.eqb name "" then add_items rest seen
    else
      let n := basename name in
      match free_target (S (size seen)) n seen n 1 with
      | None => None
      | Some target =>
        match add_items rest ({[target]} ∪ seen) with
        | None => None
        | Some entries => Some ((target, data) :: entries)
        end
      end
  end.

Definition create_payload_zip_from_bytes (secret_text : string)
    (files_dict : list (string * list Z)) : option (list Z) :=
  match add_items files_dict ∅ with
  | None => None
  | Some entries => Some (zip_deflated (text_entry secret_text ++ entries))
  end.
End Archive.

(** [estimate], lines 43-46: the payload size and the LSB capacity it
    reports. *)
Definition estimate_sizes {IL : ImageLib} (carrier_bytes payload_zip : list Z)
    : Z * Z :=
  let plnd := PLND ++ payload_zip in
  let payload_len := len plnd in
  let lsb_cap :=
    match carrier_bytes with
    | [] => 0
    | _ => lsb_capacity_bytes carrier_bytes
    end in
  (payload_len, lsb_cap).

(** A small model of [os.path], [str.strip] and [zipfile]: names without
    directories, an extension from the last dot on, the blank as the only
    white space, and an archive that is the list of its members' sizes and bytes. *)
Fixpoint split_last_dot (s : string) : option (string * string) :=
  match s with
  | EmptyString => None
  | String c s' =>
    match split_last_dot s' with
    | Some (root, ext) => Some (String c root, ext)
    | None => if Ascii.eqb c "." then Some (EmptyString, s) else None
    end
  end.

Definition small_path_lib : PathLib :=
  {| basename := fun p => p;
     splitext := fun p =>
       match split_last_dot p with
       | Some (String c root, ext) => (String c root, ext)
       | _ => (p, ""%string)
       end |}.

Fixpoint strip_blanks (s : string) : string :=
  match s with
  | String " " s' => strip_blanks s'
  | _ => s
  end.

Definition small_text_lib : TextLib :=
  {| str_strip := fun s =>
       String.rev (strip_blanks (String.rev (strip_blanks s))) |}.

Definition small_zip_lib : ZipLib :=
  {| zip_deflated := fun entries =>
       flat_map (fun '(name, data) => len data :: data) entries |}.

(** Three uploads, two of them with the same name. *)
Definition demo_files : list file_storage :=
  [ {| fs_filename := Some "a.txt"%string; fs_content := [1] |};
    {| fs_filename := Some ""%string; fs_content := [9] |};
    {| fs_filename := Some "a.txt"%string; fs_content := [2] |};
    {| fs_filename := Some "secret_text.txt"%string; fs_content := [3] |} ].

(** ** SHA-256 and the Mersenne Twister

    The two library functions the index order depends on, written out so that
    the order of a given password can be computed: [hashlib.sha256] after
    FIPS 180-4, and the generator of the module [random] after CPython's
    [_randommodule.c] ([init_genrand], [init_by_array], [genrand_uint32],
    [getrandbits]) and [Lib/random.py] ([_randbelow_with_getrandbits]). *)

(** Arithmetic on 32-bit words. *)
Definition u32 (x : Z) : Z := Z.land x 4294967295.

Definition rotr (n x : Z) : Z :=
  u32 (Z.lor (Z.shiftr x n) (Z.shiftl x (32 - n))).

Definition sha_ch (x y z : Z) : Z :=
  Z.lxor (Z.land x y) (Z.land (Z.lxor x 4294967295) z).
Definition sha_maj (x y z : Z) : Z :=
  Z.lxor (Z.lxor (Z.land x y) (Z.land x z)) (Z.land y z).
Definition sha_bsig0 (x : Z) : Z := Z.lxor (Z.lxor (rotr 2 x) (rotr 13 x)) (rotr 22 x).
Definition sha_bsig1 (x : Z) : Z := Z.lxor (Z.lxor (rotr 6 x) (rotr 11 x)) (rotr 25 x).
Definition sha_ssig0 (x : Z) : Z := Z.lxor (Z.lxor (rotr 7 x) (rotr 18 x)) (Z.shiftr x 3).
Definition sha_ssig1 (x : Z) : Z := Z.lxor (Z.lxor (rotr 17 x) (rotr 19 x)) (Z.shiftr x 10).

(** The round constants: the first 32 bits of the fractional parts of the
    cube roots of the first 64 primes. *)
Definition sha_K : list Z :=
  [
    1116352408; 1899447441; 3049323471; 3921009573; 961987163; 1508970993;
    2453635748; 2870763221; 3624381080; 310598401; 607225278; 1426881987;
    1925078388; 2162078206; 2614888103; 3248222580; 3835390401; 4022224774;
    264347078; 604807628; 770255983; 1249150122; 1555081692; 1996064986;
    2554220882; 2821834349; 2952996808; 3210313671; 3336571891; 3584528711;
    113926993; 338241895; 666307205; 773529912; 1294757372; 1396182291;
    1695183700; 1986661051; 2177026350; 2456956037; 2730485921; 2820302411;
    3259730800; 3345764771; 3516065817; 3600352804; 4094571909; 275423344;
    430227734; 506948616; 659060556; 883997877; 958139571; 1322822218;
    1537002063; 1747873779; 1955562222; 2024104815; 2227730452; 2361852424;
    2428436474; 2756734187; 3204031479; 3329325298 ].

(** The message, the byte [0x80], zeros up to 56 modulo 64, and the number of
    message bits as 8 bytes. *)
Definition sha_pad (msg : list Z) : list Z :=
  msg ++ [128] ++ replicate (Z.to_nat ((55 - len msg) mod 64)) 0
      ++ be_digits 8 (8 * len msg).

(** The 64-byte blocks of a padded message. *)
Fixpoint sha_blocks (n : nat) (b : list Z) : list (list Z) :=
  match n with
  | O => []
  | S n' => take 64 b :: sha_blocks n' (drop 64 b)
  end.

(** The 16 words of a block, each 4 bytes big-endian. *)
Definition sha_words (block : list Z) : list Z :=
  map (fun t => int_from_bytes (take 4 (drop (4 * t) block))) (seq 0 16).

(** The message schedule, latest word first: [w] holds [W[t-1], W[t-2], ...]. *)
Fixpoint sha_schedule (n : nat) (w : list Z) : list Z :=
  match n with
  | O => w
  | S n' =>
    let wt := u32 (sha_ssig1 (nth 1 w 0) + nth 6 w 0
                   + sha_ssig0 (nth 14 w 0) + nth 15 w 0) in
    sha_schedule n' (wt :: w)
  end.

(** The eight working variables. *)
Definition sha_state : Type := (Z * Z * Z * Z * Z * Z * Z * Z)%type.

Definition sha_H0 : sha_state :=
  (1779033703, 3144134277, 1013904242, 2773480762,
   1359893119, 2600822924, 528734635, 1541459225).

Definition sha_round (s : sha_state) (kw : Z * Z) : sha_state :=
  let '(a, b, c, d, e, f, g, h) := s in
  let '(k, w) := kw in
  let t1 := h + sha_bsig1 e + sha_ch e f g + k + w in
  let t2 := sha_bsig0 a + sha_maj a b c in
  (u32 (t1 + t2), a, b, c, u32 (d + t1), e, f, g).

Definition sha_compress (s : sha_state) (block : list Z) : sha_state :=
  let w := rev (sha_schedule 48 (rev (sha_words block))) in
  let '(a, b, c, d, e, f, g, h) := fold_left sha_round (zip sha_K w) s in
  let '(a0, b0, c0, d0, e0, f0, g0, h0) := s in
  (u32 (a0 + a), u32 (b0 + b), u32 (c0 + c), u32 (d0 + d),
   u32 (e0 + e), u32 (f0 + f), u32 (g0 + g), u32 (h0 + h)).

(** [hashlib.sha256(msg).digest()] *)
Definition sha256 (msg : list Z) : list Z :=
  let padded := sha_pad msg in
  let '(a, b, c, d, e, f, g, h) :=
    fold_left sha_compress (sha_blocks (length padded / 64) padded) sha_H0 in
  be_digits 4 a ++ be_digits 4 b ++ be_digits 4 c ++ be_digits 4 d ++
  be_digits 4 e ++ be_digits 4 f ++ be_digits 4 g ++ be_digits 4 h.

Definition sha256_lib : HashLib := {| sha256_digest := sha256 |}.

(** The Mersenne Twister MT19937: 624 words of state and the position of the
    next word to hand out. *)
Record mt_state : Type := {
  mt : list Z;
  mti : nat
}.

(** [init_genrand(s)]: [mt[0] = s] and
    [mt[i] = 1812433253 * (mt[i-1] ^ (mt[i-1] >> 30)) + i]. *)
Fixpoint init_genrand_from (prev : Z) (i n : nat) : list Z :=
  match n with
  | O => []
  | S n' =>
    let x := u32 (1812433253 * Z.lxor prev (Z.shiftr prev 30) + Z.of_nat i) in
    x :: init_genrand_from x (S i) n'
  end.

Definition init_genrand (s : Z) : list Z :=
  u32 s :: init_genrand_from (u32 s) 1 623.

(** The first loop of [init_by_array], [k] rounds from the positions [i] of
    the state and [j] of the key. *)
Fixpoint init_by_array_mix (k : nat) (m key : list Z) (i j : nat) : list Z * nat :=
  match k with
  | O => (m, i)
  | S k' =>
    let prev := m !!! (i - 1)%nat in
    let x := u32 (Z.lxor (m !!! i) (Z.lxor prev (Z.shiftr prev 30) * 1664525)
                  + key !!! j + Z.of_nat j) in
    let m := <[i := x]> m in
    let i := S i in
    let j := S j in
    let '(m, i) := if (624 <=? i)%nat then (<[0%nat := m !!! 623%nat]> m, 1%nat)
                   else (m, i) in
    let j := if (length key <=? j)%nat then 0%nat else j in
    init_by_array_mix k' m key i j
  end.

(** Its second loop. *)
Fixpoint init_by_array_finish (k : nat) (m : list Z) (i : nat) : list Z :=
  match k with
  | O => m
  | S k' =>
    let prev := m !!! (i - 1)%nat in
    let x := u32 (Z.lxor (m !!! i) (Z.lxor prev (Z.shiftr prev 30) * 1566083941)
                  - Z.of_nat i) in
    let m := <[i := x]> m in
    let i := S i in
    let '(m, i) := if (624 <=? i)%nat then (<[0%nat := m !!! 623%nat]> m, 1%nat)
                   else (m, i) in
    init_by_array_finish k' m i
  end.

Definition init_by_array (key : list Z) : mt_state :=
  let m := init_genrand 19650218 in
  let '(m, i) := init_by_array_mix (Nat.max 624 (length key)) m key 1 0 in
  let m := init_by_array_finish 623 m i in
  {| mt := <[0%nat := 0x80000000]> m; mti := 624 |}.

(** The 32-bit digits of a number, least significant first, at least one. *)
Fixpoint digits32 (fuel : nat) (n : Z) : list Z :=
  match fuel with
  | O => [u32 n]
  | S fuel' =>
    if n <? 4294967296 then [n] else u32 n :: digits32 fuel' (Z.shiftr n 32)
  end.

(** [random.Random(seed)] for an [int]: [init_by_array] on the 32-bit digits
    of [abs(seed)]. *)
Definition mt_seed (seed : Z) : mt_state :=
  let n := Z.abs seed in
  init_by_array (digits32 (Z.to_nat (Z.log2 n / 32)) n).

(** The loop of [genrand_uint32] that renews the 624 words. *)
Definition mt_twist (m : list Z) : list Z :=
  fold_left
    (fun m kk =>
       let y := Z.lor (Z.land (m !!! kk) 0x80000000)
                      (Z.land (m !!! ((kk + 1) mod 624)%nat) 0x7fffffff) in
       let mag := if Z.odd y then 0x9908b0df else 0 in
       <[kk := Z.lxor (Z.lxor (m !!! ((kk + 397) mod 624)%nat) (Z.shiftr y 1)) mag]> m)
    (seq 0 624) m.

Definition mt_temper (y : Z) : Z :=
  let y := Z.lxor y (Z.shiftr y 11) in
  let y := Z.lxor y (Z.land (Z.shiftl y 7) 0x9d2c5680) in
  let y := Z.lxor y (Z.land (Z.shiftl y 15) 0xefc60000) in
  Z.lxor y (Z.shiftr y 18).

Definition genrand_uint32 (g : mt_state) : Z * mt_state :=
  let '(m, i) := if (624 <=? mti g)%nat then (mt_twist (mt g), 0%nat)
                 else (mt g, mti g) in
  (mt_temper (m !!! i), {| mt := m; mti := S i |}).

(** [getrandbits(k)] for [k > 32]: the words are drawn least significant
    first, the last one cut to the bits that are left. *)
Fixpoint getrandbits_words (words : nat) (k : Z) (g : mt_state) : Z * mt_state :=
  match words with
  | O => (0, g)
  | S words' =>
    let '(r, g) := genrand_uint32 g in
    let r := if k <? 32 then Z.shiftr r (32 - k) else r in
    let '(hi, g) := getrandbits_words words' (k - 32) g in
    (r + 4294967296 * hi, g)
  end.

Definition getrandbits (k : Z) (g : mt_state) : Z * mt_state :=
  if k <=? 0 then (0, g)
  else if k <=? 32 then
    let '(r, g) := genrand_uint32 g in (Z.shiftr r (32 - k), g)
  else getrandbits_words (Z.to_nat ((k - 1) / 32 + 1)) k g.

(** [n.bit_length()] *)
Definition bit_length (n : Z) : Z := if n =? 0 then 0 else Z.log2 (Z.abs n) + 1.

(** [_randbelow_with_getrandbits(n)]:
    [r = getrandbits(k)] until [r < n], with [k = n.bit_length()].  Each round
    ends the loop with probability over one half; the model runs at most
    [rounds] of them and then hands out [n] itself, a number that [_randbelow]
    never returns. *)
Fixpoint mt_randbelow_rounds (rounds : nat) (g : mt_state) (n : Z) : Z * mt_state :=
  match rounds with
  | O => (n, g)
  | S rounds' =>
    let '(r, g) := getrandbits (bit_length n) g in
    if r <? n then (r, g) else mt_randbelow_rounds rounds' g n
  end.

Definition mt_randbelow (g : mt_state) (n : nat) : nat * mt_state :=
  let '(r, g) := mt_randbelow_rounds 128 g (Z.of_nat n) in (Z.to_nat r, g).

Definition mt_lib : RandomLib :=
  {| rng := mt_state; Random := mt_seed; randbelow := mt_randbelow |}.

(** ** The key derivation of the library

    [PBKDF2HMAC(SHA256(), ...)] is PBKDF2 (RFC 8018, section 5.2) with
    HMAC-SHA-256 (RFC 2104) as its pseudo-random function; the password is the
    key of the HMAC. *)
Section Pbkdf2.
Context {HL : HashLib}.

(** HMAC with SHA-256, whose blocks have 64 bytes: a key longer than a block
    is hashed first, and the key is then filled up with zeros to a block. *)
Definition hmac_sha256 (key msg : list Z) : list Z :=
  let key := if (64 <? length key)%nat then sha256_digest key else key in
  let key := key ++ replicate (64 - length key) 0 in
  sha256_digest (map (Z.lxor 92) key
                 ++ sha256_digest (map (Z.lxor 54) key ++ msg)).

(** [U_2 ^ ... ^ U_c] added to [t], with [U_j = HMAC(password, U_(j-1))]. *)
Fixpoint pbkdf2_rounds (c : nat) (password u t : list Z) : list Z :=
  match c with
  | O => t
  | S c' =>
    let u := hmac_sha256 password u in
    pbkdf2_rounds c' password u (zip_with Z.lxor t u)
  end.

(** The block [T_i = U_1 ^ U_2 ^ ... ^ U_c], with
    [U_1 = HMAC(password, salt || INT(i))]. *)
Definition pbkdf2_block (password salt : list Z) (c : nat) (i : nat) : list Z :=
  let u := hmac_sha256 password (salt ++ be_digits 4 (Z.of_nat i)) in
  pbkdf2_rounds (c - 1) password u u.

(** The first [dklen] bytes of [T_1 || T_2 || ...]. *)
Definition pbkdf2 (dklen : nat) (salt : list Z) (iterations : Z)
    (password : list Z) : list Z :=
  take dklen
    (concat (map (pbkdf2_block password salt (Z.to_nat iterations))
               (seq 1 ((dklen + 31) / 32)))).
End Pbkdf2.

(** The key derivation of a [CryptoLib] is PBKDF2 with HMAC over the
    SHA-256 of a [HashLib]. *)
Class Pbkdf2Hmac (CL : CryptoLib) (HL : HashLib) : Prop := {
  pbkdf2_hmac_sha256_spec dklen salt iterations password :
    pbkdf2_hmac_sha256 dklen salt iterations password
    = pbkdf2 dklen salt iterations password
}.

(** The string of the one character U+0000. *)
Definition NUL : string := String "000"%char EmptyString.

(** The cipher of [plain_crypto_lib] with the key derivation of the library
    over SHA-256. *)
Definition pbkdf2_crypto_lib : CryptoLib :=
  {| entropy := Z;
     token_bytes := token_bytes (CryptoLib := plain_crypto_lib);
     pbkdf2_hmac_sha256 := pbkdf2 (HL := sha256_lib);
     aesgcm_encrypt := aesgcm_encrypt (CryptoLib := plain_crypto_lib);
     aesgcm_decrypt := aesgcm_decrypt (CryptoLib := plain_crypto_lib) |}.

(** ** Worked example: a carrier that already holds a frame

    A black image of 22 x 18 pixels, and two frames with two-byte payloads. *)
Definition blank_image : rgb_image :=
  {| im_width := 22; im_height := 18; im_data := replicate 1188 0 |}.

(** [MARKER + (2).to_bytes(8, "big") + b"yo"] *)
Definition other_frame : list Z :=
  MARKER ++ [0; 0; 0; 0; 0; 0; 0; 2] ++ [121; 111].

(** The pixels after [embed_lsb(blank, demo_frame, "pz")] ... *)
Definition held_data : list Z :=
  Eval vm_compute in
    snd (embed_lsb_array (HL := sha256_lib) (RL := mt_lib)
           (im_data blank_image) demo_frame "pz").

(** ... and after [embed_lsb] of [other_frame] with "pw" on top of it. *)
Definition twice_data : list Z :=
  Eval vm_compute in
    snd (embed_lsb_array (HL := sha256_lib) (RL := mt_lib)
           held_data other_frame "pw").

(** * Properties *)

(** ** Integers and bytes *)

Lemma int_from_bytes_app (xs ys : list Z) (acc : Z) :
  fold_left (fun a b => a * 256 + b) (xs ++ ys) acc
  = fold_left (fun a b => a * 256 + b) ys
      (fold_left (fun a b => a * 256 + b) xs acc).
Proof. apply fold_left_app. Qed.

Lemma length_be_digits (n : nat) (v : Z) : length (be_digits n v) = n.
Proof.
  revert v. induction n as [|n IH]; intros v; simpl; [done|].
  rewrite length_app, IH. simpl. lia.
Qed.

Lemma int_from_bytes_be_digits (n : nat) (v : Z) :
  0 <= v -> int_from_bytes (be_digits n v) = v mod 256 ^ Z.of_nat n.
Proof.
  unfold int_from_bytes. revert v.
  induction n as [|n IH]; intros v Hv.
  - simpl. by rewrite Z.mod_1_r.
  - cbn [be_digits]. rewrite int_from_bytes_app. cbn [fold_left].
    rewrite IH by (apply Z.div_pos; lia).
    rewrite Nat2Z.inj_succ, Z.pow_succ_r by lia.
    assert (0 < 256 ^ Z.of_nat n) by (apply Z.pow_pos_nonneg; lia).
    rewrite Z.rem_mul_r by lia. lia.
Qed.

Lemma is_bytes_be_digits (n : nat) (v : Z) : is_bytes (be_digits n v).
Proof.
  revert v. induction n as [|n IH]; intros v; simpl.
  - constructor.
  - apply Forall_app; split; [apply IH|].
    constructor; [|constructor]. unfold is_byte. apply Z.mod_pos_bound. lia.
Qed.

Lemma int_to_bytes_ok (v : Z) (n : nat) :
  0 <= v < 256 ^ Z.of_nat n -> int_to_bytes v n = Ok (be_digits n v).
Proof.
  intros Hv. unfold int_to_bytes.
  destruct (Z.ltb_spec v 0); [lia|].
  destruct (Z.leb_spec (256 ^ Z.of_nat n) v); [lia|]. done.
Qed.

Lemma int_to_bytes_inv (v : Z) (n : nat) (bs : list Z) :
  int_to_bytes v n = Ok bs -> 0 <= v < 256 ^ Z.of_nat n /\ bs = be_digits n v.
Proof.
  unfold int_to_bytes.
  destruct (Z.ltb_spec v 0); [done|].
  destruct (Z.leb_spec (256 ^ Z.of_nat n) v); [done|].
  cbn [orb]. intros [= <-]. split; [lia|done].
Qed.

(** ** Searching from the right *)

Lemma startswith_spec (b p : list Z) :
  startswith b p = true <-> take (length p) b = p.
Proof.
  revert b. induction p as [|x p IH]; intros [|y b]; simpl; try done.
  rewrite andb_true_iff, Z.eqb_eq, IH. split.
  - by intros [-> ->].
  - by intros [= -> ->].
Qed.

Lemma startswith_occurs (b sub : list Z) (i : nat) :
  startswith (drop i b) sub = true <-> occurs_at b sub i.
Proof. apply startswith_spec. Qed.

Lemma occurs_at_bound (b sub : list Z) (i : nat) :
  occurs_at b sub i -> sub <> [] -> (i + length sub <= length b)%nat.
Proof.
  unfold occurs_at. intros Ho Hne.
  apply (f_equal length) in Ho. rewrite length_take, length_drop in Ho.
  assert (length sub <> 0%nat) by (by destruct sub). lia.
Qed.

Lemma rfind_from_spec (b sub : list Z) (i : nat) :
  (rfind_from b sub i = -1 /\ forall j, (j <= i)%nat -> ~ occurs_at b sub j) \/
  (exists k, (k <= i)%nat /\ rfind_from b sub i = Z.of_nat k /\ occurs_at b sub k /\
             forall j, (k < j <= i)%nat -> ~ occurs_at b sub j).
Proof.
  induction i as [|i IH]; simpl.
  - destruct (startswith (drop 0 b) sub) eqn:Hs.
    + right. exists 0%nat. rewrite startswith_occurs in Hs.
      repeat split; [lia|done|intros; lia].
    + left. split; [done|]. intros j Hj Ho. assert (j = 0%nat) as -> by lia.
      apply startswith_occurs in Ho. congruence.
  - destruct (startswith (drop (S i) b) sub) eqn:Hs.
    + right. exists (S i). rewrite startswith_occurs in Hs.
      repeat split; [lia|done|intros; lia].
    + assert (~ occurs_at b sub (S i)) as Hno.
      { intros Ho%startswith_occurs. congruence. }
      destruct IH as [[-> Hnone]|(k & Hk & -> & Ho & Hlast)].
      * left. split; [done|]. intros j Hj.
        destruct (decide (j = S i)) as [->|]; [done|]. apply Hnone. lia.
      * right. exists k. repeat split; [lia|done|].
        intros j Hj. destruct (decide (j = S i)) as [->|]; [done|].
        apply Hlast. lia.
Qed.

Lemma rfind_spec (b sub : list Z) :
  sub <> [] ->
  (rfind b sub = -1 /\ forall j, ~ occurs_at b sub j) \/
  (exists k, rfind b sub = Z.of_nat k /\ occurs_at b sub k /\
             forall j, (k < j)%nat -> ~ occurs_at b sub j).
Proof.
  intros Hne. unfold rfind.
  destruct (Nat.leb_spec (length sub) (length b)) as [Hle|Hlt].
  - destruct (rfind_from_spec b sub (length b - length sub))
      as [[-> Hnone]|(k & Hk & -> & Ho & Hlast)].
    + left. split; [done|]. intros j Ho.
      pose proof (occurs_at_bound _ _ _ Ho Hne). apply (Hnone j); [lia|done].
    + right. exists k. repeat split; [done|].
      intros j Hj Ho'. pose proof (occurs_at_bound _ _ _ Ho' Hne).
      apply (Hlast j); [lia|done].
  - left. split; [done|]. intros j Ho.
    pose proof (occurs_at_bound _ _ _ Ho Hne). lia.
Qed.

Lemma rfind_last (b sub : list Z) (i : nat) :
  sub <> [] -> occurs_at b sub i ->
  (forall j, (i < j)%nat -> ~ occurs_at b sub j) ->
  rfind b sub = Z.of_nat i.
Proof.
  intros Hne Ho Hlast.
  destruct (rfind_spec b sub Hne) as [[_ Hnone]|(k & -> & Hk & Hklast)].
  - by destruct (Hnone i).
  - f_equal. destruct (lt_eq_lt_dec i k) as [[Hlt| ->]|Hgt]; [|done|].
    + by destruct (Hlast k).
    + by destruct (Hklast i).
Qed.

Lemma rfind_none (b sub : list Z) :
  sub <> [] -> (forall j, ~ occurs_at b sub j) -> rfind b sub = -1.
Proof.
  intros Hne Hnone.
  destruct (rfind_spec b sub Hne) as [[-> _]|(k & _ & Hk & _)]; [done|].
  by destruct (Hnone k).
Qed.

(** ** EOF container codec *)

Example pack_hello_world :
  pack_stego [104; 101; 108; 108; 111] [119; 111; 114; 108; 100]
  = Ok [104; 101; 108; 108; 111; 83; 84; 69; 71; 48;
        0; 0; 0; 0; 0; 0; 0; 5; 119; 111; 114; 108; 100].
Proof. reflexivity. Qed.

Example unpack_hello_world :
  unpack_stego [104; 101; 108; 108; 111; 83; 84; 69; 71; 48;
                0; 0; 0; 0; 0; 0; 0; 5; 119; 111; 114; 108; 100]
  = Ok [119; 111; 114; 108; 100].
Proof. reflexivity. Qed.

Lemma MARKER_nonempty : MARKER <> [].
Proof. done. Qed.

Lemma fold_bytes_nonneg (bs : list Z) (acc : Z) :
  is_bytes bs -> 0 <= acc -> 0 <= fold_left (fun a b => a * 256 + b) bs acc.
Proof.
  intros Hbs. revert acc.
  induction Hbs as [|b bs Hb _ IH]; intros acc Hacc; simpl; [done|].
  apply IH. unfold is_byte in Hb. lia.
Qed.

Lemma int_from_bytes_nonneg (bs : list Z) : is_bytes bs -> 0 <= int_from_bytes bs.
Proof. intros Hbs. by apply fold_bytes_nonneg. Qed.

Lemma is_bytes_take (n : nat) (bs : list Z) : is_bytes bs -> is_bytes (take n bs).
Proof. apply Forall_take. Qed.

Lemma is_bytes_drop (n : nat) (bs : list Z) : is_bytes bs -> is_bytes (drop n bs).
Proof. apply Forall_drop. Qed.

Lemma unpack_stego_at (full : list Z) (i : nat) :
  rfind full MARKER = Z.of_nat i ->
  unpack_stego full =
    if len full <? Z.of_nat i + 13 then Err MarkerNotFoundOrTruncated
    else
      let L := int_from_bytes (take 8 (drop (i + 5) full)) in
      if len full <? Z.of_nat i + 13 + L then Err InvalidEmbeddedLength
      else Ok (take (Z.to_nat L) (drop (i + 13) full)).
Proof.
  intros Hr. unfold unpack_stego. rewrite Hr.
  change (len MARKER) with 5. change (Z.of_nat LENGTH_LEN) with 8.
  destruct (Z.eqb_spec (Z.of_nat i) (-1)); [lia|]. cbn [orb].
  replace (Z.of_nat i + 5 + 8) with (Z.of_nat i + 13) by lia.
  assert (slice full (Z.of_nat i + 5) (Z.of_nat i + 13)
          = take 8 (drop (i + 5) full)) as ->.
  { unfold slice. f_equal; [|f_equal]; lia. }
  cbv zeta. set (L := int_from_bytes _).
  assert (slice full (Z.of_nat i + 13) (Z.of_nat i + 13 + L)
          = take (Z.to_nat L) (drop (i + 13) full)) as ->.
  { unfold slice. f_equal; [|f_equal]; lia. }
  done.
Qed.

(** The marker has no proper self-overlap: inside [C ++ MARKER ++ rest], an
    occurrence that starts after offset [len(C)] lies wholly in [rest]. *)
Lemma occurs_after_marker (C rest : list Z) (j : nat) :
  (length C < j)%nat ->
  occurs_at (C ++ MARKER ++ rest) MARKER j <->
  (length C + 5 <= j)%nat /\ occurs_at rest MARKER (j - (length C + 5)).
Proof.
  intros Hj. unfold occurs_at.
  replace j with (length C + (j - length C))%nat at 1 by lia.
  rewrite drop_app_add.
  destruct (j - length C)%nat as [|[|[|[|[|k]]]]] eqn:Hk; [lia|..];
    try (split; [simpl; intros [=]|lia]).
  replace (j - (length C + 5))%nat with k by lia.
  change (drop (S (S (S (S (S k))))) (MARKER ++ rest)) with (drop k rest).
  split; [intros ?; split; [lia|done]|by intros [_ ?]].
Qed.

Lemma occurs_at_marker (C rest : list Z) :
  occurs_at (C ++ MARKER ++ rest) MARKER (length C).
Proof.
  unfold occurs_at. replace (length C) with (length C + 0)%nat by lia.
  rewrite drop_app_add. reflexivity.
Qed.

Lemma pack_stego_ok (C P : list Z) :
  len P < 2 ^ 64 ->
  pack_stego C P = Ok (C ++ MARKER ++ be_digits 8 (len P) ++ P).
Proof.
  intros HP. unfold pack_stego.
  rewrite int_to_bytes_ok; [done|]. unfold len in *. split; [lia|].
  exact HP.
Qed.

Lemma unpack_framed (C P : list Z) :
  len P < 2 ^ 64 ->
  rfind (C ++ MARKER ++ be_digits 8 (len P) ++ P) MARKER = len C ->
  unpack_stego (C ++ MARKER ++ be_digits 8 (len P) ++ P) = Ok P.
Proof.
  intros HP Hr. rewrite (unpack_stego_at _ (length C)) by done.
  set (ln := be_digits 8 (len P)).
  assert (length ln = 8%nat) as Hln by apply length_be_digits.
  assert (len (C ++ MARKER ++ ln ++ P) = len C + 13 + len P) as Hlen.
  { unfold len. rewrite !length_app, Hln. simpl. lia. }
  rewrite Hlen. fold (len C).
  destruct (Z.ltb_spec (len C + 13 + len P) (len C + 13)); [unfold len in *; lia|].
  assert (drop (length C + 5) (C ++ MARKER ++ ln ++ P) = ln ++ P) as ->.
  { rewrite drop_app_add. reflexivity. }
  assert (drop (length C + 13) (C ++ MARKER ++ ln ++ P) = P) as ->.
  { rewrite drop_app_add. change (drop 13 (MARKER ++ ln ++ P)) with (drop 8 (ln ++ P)).
    rewrite <- Hln. by rewrite drop_app_length. }
  assert (take 8 (ln ++ P) = ln) as ->.
  { rewrite <- Hln. apply take_app_length. }
  cbv zeta.
  unfold ln. rewrite int_from_bytes_be_digits by (unfold len; lia).
  rewrite Z.mod_small by (unfold len in *; split; [lia|exact HP]).
  destruct (Z.ltb_spec (len C + 13 + len P) (len C + 13 + len P)); [lia|].
  f_equal. unfold len. rewrite Nat2Z.id. apply firstn_all.
Qed.

(** On a concrete container: no occurrence of the marker at the offsets the
    hypothesis [Hj] leaves open. *)
Ltac scan_offsets j Ho :=
  first [ lia
        | destruct j as [|j]; [first [lia | discriminate Ho] | scan_offsets j Ho] ].

Ltac no_marker_at j Hj Ho :=
  let Hb := fresh "Hb" in
  pose proof (occurs_at_bound _ _ _ Ho MARKER_nonempty) as Hb;
  cbn [length MARKER Nat.add] in Hb;
  unfold occurs_at in Ho;
  scan_offsets j Ho.

(** C7. [unpack_stego] locates the rightmost occurrence of the marker.  It
    fails with "Marker not found or truncated" when the marker occurs nowhere
    or when fewer than 8 bytes follow it; otherwise, with [L] the big-endian
    value of the 8 bytes after the marker, it fails with "Invalid embedded
    length" exactly when [offset of the length field + 8 + L] exceeds the
    length of the container, and else returns exactly the [L] bytes that
    follow the length field. *)
Theorem unpack_stego_behaviour (full : list Z) :
  is_bytes full ->
  ((forall j, ~ occurs_at full MARKER j) ->
     rfind full MARKER = -1 /\
     unpack_stego full = Err MarkerNotFoundOrTruncated) /\
  (forall i : nat,
     occurs_at full MARKER i ->
     (forall j, (i < j)%nat -> ~ occurs_at full MARKER j) ->
     let ln_off := (i + 5)%nat in
     let L := int_from_bytes (take 8 (drop ln_off full)) in
     rfind full MARKER = Z.of_nat i /\
     (len full < Z.of_nat ln_off + 8 ->
        unpack_stego full = Err MarkerNotFoundOrTruncated) /\
     (Z.of_nat ln_off + 8 <= len full ->
        0 <= L /\
        (len full < Z.of_nat ln_off + 8 + L ->
           unpack_stego full = Err InvalidEmbeddedLength) /\
        (Z.of_nat ln_off + 8 + L <= len full ->
           unpack_stego full = Ok (take (Z.to_nat L) (drop (ln_off + 8) full)) /\
           len (take (Z.to_nat L) (drop (ln_off + 8) full)) = L))).
Proof.
  intros Hbytes. split.
  - intros Hnone. pose proof (rfind_none _ _ MARKER_nonempty Hnone) as Hr.
    split; [done|]. unfold unpack_stego. by rewrite Hr.
  - intros i Ho Hlast ln_off L.
    pose proof (rfind_last _ _ _ MARKER_nonempty Ho Hlast) as Hr.
    pose proof (unpack_stego_at _ _ Hr) as Hu. cbv zeta in Hu.
    replace (i + 13)%nat with (ln_off + 8)%nat in Hu by (unfold ln_off; lia).
    replace (Z.of_nat i + 13) with (Z.of_nat ln_off + 8) in Hu
      by (unfold ln_off; lia).
    fold ln_off L in Hu. rewrite Hu. split; [done|]. split.
    + intros Hshort. by destruct (Z.ltb_spec (len full) (Z.of_nat ln_off + 8)); [|lia].
    + intros Hlong.
      destruct (Z.ltb_spec (len full) (Z.of_nat ln_off + 8)); [lia|].
      assert (0 <= L) as HL.
      { apply int_from_bytes_nonneg. by apply is_bytes_take, is_bytes_drop. }
      split; [done|]. split.
      * intros Hend.
        by destruct (Z.ltb_spec (len full) (Z.of_nat ln_off + 8 + L)); [|lia].
      * intros Hend.
        destruct (Z.ltb_spec (len full) (Z.of_nat ln_off + 8 + L)); [lia|].
        split; [done|]. unfold len in *. rewrite length_take, length_drop. lia.
Qed.

Lemma unpack_stego_behaviour_witness :
  unpack_stego [104; 101; 108; 108; 111; 83; 84; 69; 71; 48;
                0; 0; 0; 0; 0; 0; 0; 5; 119; 111; 114; 108; 100]
  = Ok [119; 111; 114; 108; 100].
Proof.
  set (full := [104; 101; 108; 108; 111; 83; 84; 69; 71; 48;
                0; 0; 0; 0; 0; 0; 0; 5; 119; 111; 114; 108; 100]).
  assert (is_bytes full) as Hb.
  { unfold full. repeat constructor; unfold is_byte; lia. }
  destruct (unpack_stego_behaviour full Hb) as [_ Hfound].
  destruct (Hfound 5%nat) as (_ & _ & Hlong).
  - reflexivity.
  - intros j Hj Ho. unfold full in Ho. no_marker_at j Hj Ho.
  - destruct Hlong as (_ & _ & Hret); [by vm_compute|].
    destruct Hret as [Hret _]; [by vm_compute|].
    exact Hret.
Defined.

Lemma occurs_in_framed (C P : list Z) (j : nat) :
  occurs_at (be_digits 8 (len P) ++ P) MARKER j ->
  occurs_at (C ++ MARKER ++ be_digits 8 (len P) ++ P) MARKER (length C + 5 + j).
Proof.
  intros Ho. apply occurs_after_marker; [lia|]. split; [lia|].
  by replace (length C + 5 + j - (length C + 5))%nat with j by lia.
Qed.

Lemma rfind_framed (C P : list Z) :
  (forall j, (length C < j)%nat ->
             ~ occurs_at (C ++ MARKER ++ be_digits 8 (len P) ++ P) MARKER j) ->
  rfind (C ++ MARKER ++ be_digits 8 (len P) ++ P) MARKER = len C.
Proof.
  intros Hlast. apply rfind_last; [done|apply occurs_at_marker|done].
Qed.

(** C10, amended. If the last occurrence of the marker in
    [pack_stego(C, P)] is at offset [len(C)], then
    [unpack_stego(pack_stego(C, P)) == P]; in particular when the marker
    occurs nowhere in the bytes that follow it, the 8-byte length field
    followed by the payload, taken as one sequence of bytes, so that an
    occurrence that begins in the length field and ends in the payload
    counts.  The length of [P] fits the 8-byte field, as the length of every
    [bytes] object does; beyond that [to_bytes] raises [OverflowError] and
    nothing is packed. *)
Theorem pack_unpack_when_marker_last (C P : list Z) :
  len P < 2 ^ 64 ->
  exists full,
    pack_stego C P = Ok full /\
    occurs_at full MARKER (length C) /\
    ((forall j, (length C < j)%nat -> ~ occurs_at full MARKER j) ->
       unpack_stego full = Ok P) /\
    ((forall j, ~ occurs_at (be_digits 8 (len P) ++ P) MARKER j) ->
       unpack_stego full = Ok P).
Proof.
  intros HP. eexists. split; [by apply pack_stego_ok|].
  split; [apply occurs_at_marker|]. split.
  - intros Hlast. apply unpack_framed; [done|]. by apply rfind_framed.
  - intros Hnone. apply unpack_framed; [done|]. apply rfind_framed.
    intros j Hj [_ Ho]%occurs_after_marker; [|done]. by apply Hnone in Ho.
Qed.

Lemma pack_unpack_when_marker_last_witness :
  exists full,
    pack_stego [104; 101; 108; 108; 111] [119; 111; 114; 108; 100] = Ok full /\
    unpack_stego full = Ok [119; 111; 114; 108; 100].
Proof.
  destruct (pack_unpack_when_marker_last
              [104; 101; 108; 108; 111] [119; 111; 114; 108; 100])
    as (full & Hpack & _ & Hlast & _); [by vm_compute|].
  exists full. split; [done|]. apply Hlast.
  vm_compute in Hpack. injection Hpack as <-.
  intros j Hj Ho. cbn [length] in Hj. no_marker_at j Hj Ho.
Defined.

(** C10, as stated, fails: that the marker occurs neither in the length
    field nor in the payload is not enough.  A payload of 83 bytes that
    begins with "TEG0" completes a marker with the last byte of its own
    length field (83 is the letter S): the marker occurs in neither of the
    two, but across them, at offset 7 of the length field; [unpack_stego]
    takes it, reads the length 0 behind it and returns the empty payload. *)
Lemma marker_across_length_and_payload :
  let P := [84; 69; 71; 48] ++ replicate 79 0 in
  (forall j, ~ occurs_at (be_digits 8 (len P)) MARKER j) /\
  (forall j, ~ occurs_at P MARKER j) /\
  occurs_at (be_digits 8 (len P) ++ P) MARKER 7 /\
  exists full, pack_stego [] P = Ok full /\
               unpack_stego full = Ok [] /\
               unpack_stego full <> Ok P.
Proof.
  assert (forall b j, occurs_at b MARKER j -> 83 ∈ b) as Hfirst.
  { intros b j Ho. unfold occurs_at in Ho.
    apply (f_equal (fun l => l !! 0%nat)) in Ho.
    rewrite lookup_take_lt, lookup_drop in Ho by (simpl; lia).
    by eapply list_elem_of_lookup_2. }
  cbv zeta. split_and!.
  - intros j Ho. unfold occurs_at in Ho. cbn [length MARKER] in Ho.
    do 9 (destruct j as [|j]; [discriminate Ho|]). discriminate Ho.
  - intros j Ho%Hfirst. revert Ho.
    apply (bool_decide_eq_false_1 (83 ∈ [84; 69; 71; 48] ++ replicate 79 0)).
    by vm_compute.
  - reflexivity.
  - eexists. split_and!; [reflexivity|reflexivity|by vm_compute].
Qed.

(** C2, as stated, fails: a payload that contains the marker is not
    recovered, because [unpack_stego] takes the rightmost marker. *)
Lemma eof_roundtrip_counterexample :
  pack_stego [104; 101; 108; 108; 111] [83; 84; 69; 71; 48]
  = Ok [104; 101; 108; 108; 111; 83; 84; 69; 71; 48;
        0; 0; 0; 0; 0; 0; 0; 5; 83; 84; 69; 71; 48] /\
  unpack_stego [104; 101; 108; 108; 111; 83; 84; 69; 71; 48;
                0; 0; 0; 0; 0; 0; 0; 5; 83; 84; 69; 71; 48]
  = Err MarkerNotFoundOrTruncated.
Proof. split; reflexivity. Qed.

(** C2, amended. For all byte buffers [C] and [P] (the length of [P]
    fitting the 8-byte field), [unpack_stego(pack_stego(C, P)) == P] if and
    only if the marker does not occur in the bytes that follow the appended
    marker (the 8-byte length field followed by the payload). *)
Theorem pack_unpack_iff (C P : list Z) :
  len P < 2 ^ 64 ->
  exists full,
    pack_stego C P = Ok full /\
    (unpack_stego full = Ok P <->
     forall j, ~ occurs_at (be_digits 8 (len P) ++ P) MARKER j).
Proof.
  intros HP. eexists. split; [by apply pack_stego_ok|]. split.
  - intros Hu j Ho.
    assert (length P <> 0%nat) as HPne.
    { destruct P; [|done]. vm_compute in Ho. exfalso.
      change (take 5 (drop j [0; 0; 0; 0; 0; 0; 0; 0]) = MARKER) in Ho.
      do 9 (destruct j as [|j]; [discriminate Ho|]). discriminate Ho. }
    set (full := C ++ MARKER ++ be_digits 8 (len P) ++ P) in *.
    assert (length full = (length C + 13 + length P)%nat) as Hlen.
    { unfold full. rewrite !length_app, length_be_digits. simpl. lia. }
    destruct (rfind_spec full MARKER MARKER_nonempty)
      as [[_ Hnone]|(k & Hr & Hk & Hklast)].
    { by destruct (Hnone (length C + 5 + j)%nat); apply occurs_in_framed. }
    assert (length C + 5 + j <= k)%nat as Hlate.
    { destruct (le_lt_dec (length C + 5 + j) k) as [|Hlt]; [done|].
      destruct (Hklast _ Hlt). by apply occurs_in_framed. }
    rewrite (unpack_stego_at _ _ Hr) in Hu. cbv zeta in Hu.
    repeat match type of Hu with
           | (if ?c then _ else _) = _ => destruct c; [done|]
           end.
    injection Hu as Hu. apply (f_equal length) in Hu.
    rewrite length_take, length_drop in Hu. lia.
  - intros Hnone. apply unpack_framed; [done|]. apply rfind_framed.
    intros j Hj [_ Ho]%occurs_after_marker; [|done]. by apply Hnone in Ho.
Qed.

Lemma pack_unpack_iff_witness :
  exists full,
    pack_stego [104; 101; 108; 108; 111] [119; 111; 114; 108; 100] = Ok full /\
    (unpack_stego full = Ok [119; 111; 114; 108; 100] <->
     forall j, ~ occurs_at (be_digits 8 5 ++ [119; 111; 114; 108; 100]) MARKER j).
Proof.
  apply (pack_unpack_iff [104; 101; 108; 108; 111] [119; 111; 114; 108; 100]).
  by vm_compute.
Defined.

(** ** Bit strings *)

Lemma map_result_lookup {B} (f : nat -> result B) (l : list B) (s : nat) :
  (forall i x, l !! i = Some x -> f (s + i)%nat = Ok x) ->
  map_result f (seq s (length l)) = Ok l.
Proof.
  revert s. induction l as [|y l IH]; intros s Hf; simpl; [done|].
  rewrite <- (Nat.add_0_r s) at 1. rewrite (Hf 0%nat y) by done. simpl.
  rewrite IH; [done|]. intros i x Hi.
  replace (S s + i)%nat with (s + S i)%nat by lia. by apply Hf.
Qed.

Lemma int_of_char_bit (b : bool) :
  int_of_char (digit_char (Z.b2z b)) = Ok (Z.b2z b).
Proof. by destruct b. Qed.

Lemma is_bit_char_digit (b : bool) : is_bit_char (digit_char (Z.b2z b)).
Proof. destruct b; [by right|by left]. Qed.

Lemma length_format_08b (b : Z) : length (format_08b b) = 8%nat.
Proof. reflexivity. Qed.

Lemma format_08b_bits (b : Z) : Forall is_bit_char (format_08b b).
Proof. unfold format_08b. apply Forall_map, Forall_true. intros k. apply is_bit_char_digit. Qed.

Lemma int_base2_format_08b (b : Z) :
  is_byte b -> int_base2 (format_08b b) = Ok b.
Proof.
  intros Hb.
  assert (Forall (fun b => int_base2 (format_08b b) = Ok b) (seqZ 0 256)) as Hall.
  { apply Forall_forall. intros x Hx. 
    assert (forallb (fun b => match int_base2 (format_08b b) with
                              | Ok v => v =? b | Err _ => false end)
              (seqZ 0 256) = true) as Hchk by (by vm_compute).
    rewrite forallb_forall in Hchk. apply list_elem_of_In, Hchk in Hx.
    destruct (int_base2 (format_08b x)); [|done]. f_equal. lia. }
  rewrite Forall_forall in Hall. apply Hall, elem_of_seqZ. unfold is_byte in Hb. lia.
Qed.

Lemma length_to_bitstring (bs : list Z) :
  length (_to_bitstring bs) = (8 * length bs)%nat.
Proof.
  induction bs as [|b bs IH]; [done|].
  unfold _to_bitstring in *. cbn [map concat]. rewrite length_app, IH.
  rewrite length_format_08b. simpl. lia.
Qed.

Lemma to_bitstring_cons (b : Z) (bs : list Z) :
  _to_bitstring (b :: bs) = format_08b b ++ _to_bitstring bs.
Proof. reflexivity. Qed.

Lemma to_bitstring_bits (bs : list Z) : Forall is_bit_char (_to_bitstring bs).
Proof.
  induction bs as [|b bs IH]; [constructor|].
  rewrite to_bitstring_cons. apply Forall_app. split; [apply format_08b_bits|done].
Qed.

Lemma take_to_bitstring (k : nat) (bs : list Z) :
  take (8 * k) (_to_bitstring bs) = _to_bitstring (take k bs).
Proof.
  revert bs. induction k as [|k IH]; intros bs.
  - by rewrite !take_0.
  - destruct bs as [|b bs]; [done|].
    rewrite firstn_cons, !to_bitstring_cons.
    replace (8 * S k)%nat with (length (format_08b b) + 8 * k)%nat
      by (rewrite length_format_08b; lia).
    by rewrite take_app_add, IH.
Qed.

Lemma from_bitstring_chunks (bs : list Z) (s : nat) (pre : list ascii) :
  is_bytes bs -> length pre = (8 * s)%nat ->
  map_result (fun i => int_base2 (take 8 (drop i (pre ++ _to_bitstring bs))))
    (map (fun k => 8 * k)%nat (seq s (length bs))) = Ok bs.
Proof.
  intros Hbs. revert s pre.
  induction Hbs as [|b bs Hb _ IH]; intros s pre Hpre; [done|].
  cbn [length seq map map_result]. rewrite <- Hpre, drop_app_length.
  rewrite to_bitstring_cons.
  change 8%nat with (length (format_08b b)) at 1. rewrite take_app_length.
  rewrite int_base2_format_08b by done. cbn [rbind].
  replace (pre ++ format_08b b ++ _to_bitstring bs)
    with ((pre ++ format_08b b) ++ _to_bitstring bs) by by rewrite <- app_assoc.
  rewrite IH; [done|]. rewrite length_app, length_format_08b. lia.
Qed.

Lemma from_bitstring_to_bitstring (bs : list Z) :
  is_bytes bs -> _from_bitstring (_to_bitstring bs) = Ok bs.
Proof.
  intros Hbs. unfold _from_bitstring. rewrite length_to_bitstring.
  replace ((8 * length bs) `mod` 8)%nat with 0%nat
    by (symmetry; rewrite Nat.mul_comm; apply Nat.Div0.mod_mul).
  cbn [Nat.eqb negb].
  replace (8 * length bs / 8)%nat with (length bs)
    by (symmetry; rewrite Nat.mul_comm; apply Nat.div_mul; lia).
  by apply (from_bitstring_chunks bs 0 []).
Qed.

(** ** Writing and reading the least significant bit *)

Lemma byte_forall (P : Z -> bool) :
  forallb P (seqZ 0 256) = true -> forall v, is_byte v -> P v = true.
Proof.
  intros Hall v Hv. rewrite forallb_forall in Hall.
  apply Hall, list_elem_of_In, elem_of_seqZ. unfold is_byte in Hv. lia.
Qed.

Lemma write_lsb_byte (v : Z) (b : bool) :
  is_byte v -> is_byte (Z.lor (Z.land v 254) (Z.b2z b)).
Proof.
  intros Hv. unfold is_byte.
  pose proof (byte_forall
    (fun v => forallb (fun b => (0 <=? Z.lor (Z.land v 254) (Z.b2z b)) &&
                                (Z.lor (Z.land v 254) (Z.b2z b) <? 256))
                [false; true]) eq_refl v Hv) as Hchk.
  cbn [forallb] in Hchk. destruct b; lia.
Qed.

Lemma read_written_lsb (v : Z) (b : bool) :
  Z.land (Z.lor (Z.land v 254) (Z.b2z b)) 1 = Z.b2z b.
Proof.
  apply Z.bits_inj'. intros n Hn.
  rewrite Z.land_spec, Z.lor_spec, Z.land_spec.
  destruct (decide (n = 0)) as [->|Hn0].
  - change (Z.testbit 254 0) with false. change (Z.testbit 1 0) with true.
    rewrite andb_false_r, andb_true_r. done.
  - assert (Z.testbit 1 n = false) as ->.
    { change 1 with (2 ^ 0). apply Z.pow2_bits_false. lia. }
    rewrite andb_false_r. destruct b; simpl.
    + symmetry. change 1 with (2 ^ 0). apply Z.pow2_bits_false. lia.
    + symmetry. apply Z.bits_0.
Qed.

Lemma testbit_b2z (b : bool) (n : Z) :
  Z.testbit (Z.b2z b) n = b && (n =? 0).
Proof.
  destruct b; simpl.
  - destruct (Z.eqb_spec n 0) as [->|Hn]; [done|].
    destruct (Z.lt_ge_cases n 0); [by apply Z.testbit_neg_r|].
    change 1 with (2 ^ 0). apply Z.pow2_bits_false. lia.
  - apply Z.bits_0.
Qed.

Lemma byte_high_bits (v n : Z) : is_byte v -> 8 <= n -> Z.testbit v n = false.
Proof.
  intros [Hv0 Hv] Hn. destruct (decide (v = 0)) as [->|Hne]; [apply Z.bits_0|].
  apply Z.bits_above_log2; [done|].
  assert (Z.log2 v < 8); [|lia]. apply Z.log2_lt_pow2; lia.
Qed.

(** Writing the least significant bit leaves the other bits as they were. *)
Lemma write_lsb_testbit (v : Z) (b : bool) (n : Z) :
  is_byte v ->
  Z.testbit (Z.lor (Z.land v 254) (Z.b2z b)) n
  = if n =? 0 then b else Z.testbit v n.
Proof.
  intros Hv. rewrite Z.lor_spec, Z.land_spec, testbit_b2z.
  destruct (Z.eqb_spec n 0) as [->|Hn0].
  - change (Z.testbit 254 0) with false. by rewrite andb_false_r, andb_true_r.
  - rewrite andb_false_r, orb_false_r.
    destruct (Z.lt_ge_cases n 0); [by rewrite !Z.testbit_neg_r|].
    destruct (Z.lt_ge_cases n 8).
    + assert (Z.testbit 254 n = true) as ->; [|by rewrite andb_true_r].
      assert (n = 1 \/ n = 2 \/ n = 3 \/ n = 4 \/ n = 5 \/ n = 6 \/ n = 7)
        as Hcases by lia.
      by repeat destruct Hcases as [->|Hcases]; [..|subst n].
    + rewrite (byte_high_bits v n) by done. done.
Qed.

Lemma is_bit_char_inv (c : ascii) :
  is_bit_char c -> exists b : bool, c = digit_char (Z.b2z b).
Proof. intros [->| ->]; [by exists false|by exists true]. Qed.

Section WriteRead.
Variable indices : list nat.
Hypothesis indices_nodup : NoDup indices.

Lemma write_bits_spec (bits : list ascii) (i : nat) (flat : list Z) :
  Forall is_bit_char bits ->
  (i + length bits <= length indices)%nat ->
  (forall idx, idx ∈ indices -> (idx < length flat)%nat) ->
  is_bytes flat ->
  exists flat',
    write_bits indices i bits flat = (Ok tt, flat') /\
    length flat' = length flat /\
    is_bytes flat' /\
    (forall k idx c,
       indices !! (i + k)%nat = Some idx -> bits !! k = Some c ->
       exists v (b : bool),
         flat !! idx = Some v /\ c = digit_char (Z.b2z b) /\
         flat' !! idx = Some (Z.lor (Z.land v 254) (Z.b2z b))) /\
    (forall p,
       (forall k, (k < length bits)%nat -> indices !! (i + k)%nat <> Some p) ->
       flat' !! p = flat !! p).
Proof.
  intros Hbits. revert i flat.
  induction Hbits as [|bit bits Hbit _ IH]; intros i flat Hlen Hrange Hflat.
  { exists flat. split_and!; [done..|by intros k idx c _ [=]|done]. }
  cbn [length] in Hlen. cbn [write_bits].
  destruct (lookup_lt_is_Some_2 indices i) as [idx0 Hidx0]; [lia|].
  rewrite Hidx0.
  assert (idx0 < length flat)%nat as Hin.
  { apply Hrange. by eapply list_elem_of_lookup_2. }
  destruct (lookup_lt_is_Some_2 flat idx0 Hin) as [v0 Hv0]. rewrite Hv0.
  destruct (is_bit_char_inv bit Hbit) as [b0 ->]. rewrite int_of_char_bit.
  set (w := Z.lor (Z.land v0 254) (Z.b2z b0)).
  assert (is_byte v0) as Hbv0.
  { by eapply (Forall_lookup_1 _ flat). }
  destruct (IH (S i) (<[idx0 := w]> flat)) as (flat' & Hw & Hl & Hb & Hset & Hkeep).
  { lia. }
  { intros idx Hidx. rewrite length_insert. by apply Hrange. }
  { apply Forall_insert; [done|]. by apply write_lsb_byte. }
  exists flat'. rewrite length_insert in Hl. split_and!; [done..| |].
  - intros k idx c Hk Hc. destruct k as [|k].
    + rewrite Nat.add_0_r, Hidx0 in Hk. injection Hk as <-.
      injection Hc as <-. exists v0, b0. split_and!; [done..|].
      rewrite Hkeep; [by apply list_lookup_insert_eq|].
      intros k _ Hk.
      pose proof (NoDup_lookup _ _ _ _ indices_nodup Hidx0 Hk). lia.
    + replace (i + S k)%nat with (S i + k)%nat in Hk by lia.
      destruct (Hset k idx c Hk Hc) as (v & b & Hv & -> & Hv').
      exists v, b. split_and!; [|done..].
      rewrite list_lookup_insert_ne in Hv; [done|].
      intros <-. pose proof (NoDup_lookup _ _ _ _ indices_nodup Hidx0 Hk). lia.
  - intros p Hp. rewrite Hkeep.
    + apply list_lookup_insert_ne. intros <-.
      apply (Hp 0%nat); [simpl; lia|]. by rewrite Nat.add_0_r.
    + intros k Hk. replace (S i + k)%nat with (i + S k)%nat by lia.
      apply Hp. simpl. lia.
Qed.

Lemma read_bits_take (bits : list ascii) (data : list Z) (n : nat) :
  (forall k c, bits !! k = Some c ->
     exists idx v, indices !! k = Some idx /\ data !! idx = Some v /\
                   digit_char (Z.land v 1) = c) ->
  (n <= length bits)%nat ->
  read_bits data indices n = Ok (take n bits).
Proof.
  intros Hbits Hn. unfold read_bits.
  rewrite <- (length_take_le bits n Hn) at 1.
  apply map_result_lookup. intros i c Hc. simpl.
  apply lookup_take_Some in Hc as [Hc _].
  destruct (Hbits i c Hc) as (idx & v & -> & -> & ->). done.
Qed.
End WriteRead.

(** ** The index order *)

Section IndexOrder.
Context {IL : ImageLib} {HL : HashLib} {RL : RandomLib}.

Lemma swap_perm {A} (x : list A) (i j : nat) : swap x i j ≡ₚ x.
Proof.
  unfold swap. destruct (x !! j) as [xj|] eqn:Hj; [|done].
  destruct (x !! i) as [xi|] eqn:Hi; [|done].
  by apply Permutation_insert_swap.
Qed.

Lemma shuffle_from_perm {A} (g : rng) (x : list A) (i : nat) :
  shuffle_from g x i ≡ₚ x.
Proof.
  revert g x. induction i as [|i IH]; intros g x; [done|].
  cbn [shuffle_from]. destruct (randbelow g (S i + 1)) as [j g'].
  rewrite IH. apply swap_perm.
Qed.

Lemma shuffle_perm {A} (g : rng) (x : list A) : shuffle g x ≡ₚ x.
Proof. apply shuffle_from_perm. Qed.

Lemma seed_from_nonempty (password : string) :
  password <> ""%string ->
  _seed_from_password password
  = Some (int_from_bytes (take 8 (sha256_digest (str_encode password)))).
Proof.
  intros Hne. unfold _seed_from_password.
  destruct (String.eqb_spec password ""); [done|done].
Qed.

Lemma embed_lsb_indices_perm (size : nat) (password : string) :
  embed_lsb_indices size password ≡ₚ seq 0 size.
Proof.
  unfold embed_lsb_indices. destruct (_seed_from_password password); [|done].
  apply shuffle_perm.
Qed.

Lemma embed_lsb_indices_length (size : nat) (password : string) :
  length (embed_lsb_indices size password) = size.
Proof. by rewrite embed_lsb_indices_perm, length_seq. Qed.

Lemma embed_lsb_indices_nodup (size : nat) (password : string) :
  NoDup (embed_lsb_indices size password).
Proof. rewrite embed_lsb_indices_perm. apply NoDup_seq. Qed.

Lemma embed_lsb_indices_range (size : nat) (password : string) (idx : nat) :
  idx ∈ embed_lsb_indices size password <-> (idx < size)%nat.
Proof. rewrite embed_lsb_indices_perm, elem_of_seq. lia. Qed.
End IndexOrder.

(** The shuffle of the generator is the Fisher-Yates shuffle on its draws,
    and the Fisher-Yates shuffle is one-to-one from the sequences of draws
    onto the permutations. *)

Lemma swap_exchange {A} (x : list A) (i j : nat) : swap x i j = exchange x i j.
Proof.
  unfold swap, exchange.
  destruct (x !! j) as [xj|] eqn:Hj, (x !! i) as [xi|] eqn:Hi; try done.
  destruct (decide (i = j)) as [->|Hne].
  - assert (xi = xj) as -> by congruence. done.
  - by apply list_insert_insert_ne.
Qed.

Lemma shuffle_from_fisher_yates {RL : RandomLib} {A} (g : rng) (x : list A) (i : nat) :
  shuffle_from g x i = fisher_yates (draws g i) x i.
Proof.
  revert g x. induction i as [|i IH]; intros g x; [done|].
  cbn [shuffle_from draws]. destruct (randbelow g (S i + 1)) as [j g'].
  cbn [fisher_yates]. by rewrite IH, swap_exchange.
Qed.

Lemma exchange_perm {A} (x : list A) (i j : nat) : exchange x i j ≡ₚ x.
Proof. rewrite <- swap_exchange. apply swap_perm. Qed.

Lemma length_exchange {A} (x : list A) (i j : nat) :
  length (exchange x i j) = length x.
Proof. by rewrite exchange_perm. Qed.

Lemma exchange_lookup_i {A} (x : list A) (i j : nat) :
  (i < length x)%nat -> (j < length x)%nat -> exchange x i j !! i = x !! j.
Proof.
  intros Hi Hj. unfold exchange.
  destruct (lookup_lt_is_Some_2 x i Hi) as [a Ha].
  destruct (lookup_lt_is_Some_2 x j Hj) as [b Hb].
  rewrite Ha, Hb. rewrite list_lookup_insert_eq; [done|].
  by rewrite length_insert.
Qed.

Lemma exchange_lookup_other {A} (x : list A) (i j k : nat) :
  k <> i -> k <> j -> exchange x i j !! k = x !! k.
Proof.
  intros Hi Hj. unfold exchange.
  destruct (x !! i), (x !! j); try done.
  by rewrite !list_lookup_insert_ne.
Qed.

Lemma fisher_yates_perm {A} (ds : list nat) (x : list A) (i : nat) :
  fisher_yates ds x i ≡ₚ x.
Proof.
  revert ds x. induction i as [|i IH]; intros ds x; [by destruct ds|].
  destruct ds as [|j ds]; [done|]. cbn [fisher_yates].
  rewrite IH. apply exchange_perm.
Qed.

(** The steps [i, ..., 1] leave the positions above [i] alone. *)
Lemma fisher_yates_above {A} (ds : list nat) (x : list A) (i k : nat) :
  draws_below i ds -> (i < k)%nat -> fisher_yates ds x i !! k = x !! k.
Proof.
  revert ds x. induction i as [|i IH]; intros ds x Hds Hk; [by destruct ds|].
  destruct ds as [|j ds]; [done|]. destruct Hds as [Hj Hds].
  cbn [fisher_yates]. rewrite IH by (done || lia).
  apply exchange_lookup_other; lia.
Qed.

(** The first step puts the element drawn at position [i], for good. *)
Lemma fisher_yates_last {A} (j : nat) (ds : list nat) (x : list A) (i : nat) :
  draws_below (S i) (j :: ds) -> (S i < length x)%nat ->
  fisher_yates (j :: ds) x (S i) !! S i = x !! j.
Proof.
  intros [Hj Hds] Hi. cbn [fisher_yates].
  rewrite fisher_yates_above by (done || lia).
  apply exchange_lookup_i; lia.
Qed.

Lemma fisher_yates_inj {A} (ds ds' : list nat) (x : list A) (i : nat) :
  NoDup x -> (i <= length x - 1)%nat ->
  draws_below i ds -> draws_below i ds' ->
  fisher_yates ds x i = fisher_yates ds' x i -> ds = ds'.
Proof.
  revert ds ds' x. induction i as [|i IH]; intros ds ds' x Hnd Hi Hds Hds' Heq.
  { by destruct ds, ds'. }
  destruct ds as [|j ds]; [done|]. destruct ds' as [|j' ds']; [done|].
  assert (j = j') as <-.
  { pose proof (f_equal (fun l => l !! S i) Heq) as Hl. cbn beta in Hl.
    rewrite !fisher_yates_last in Hl by (done || lia).
    destruct Hds as [Hj _], Hds' as [Hj' _].
    destruct (lookup_lt_is_Some_2 x j) as [a Ha]; [lia|].
    rewrite Ha in Hl. by apply (NoDup_lookup x j j' a). }
  f_equal. destruct Hds as [_ Hds], Hds' as [_ Hds'].
  apply (IH ds ds' (exchange x (S i) j)); [|rewrite length_exchange; lia|done..].
  by rewrite exchange_perm.
Qed.

Lemma fisher_yates_surj {A} (p x : list A) (i : nat) :
  NoDup x -> p ≡ₚ x -> (i <= length x - 1)%nat ->
  (forall k, (i < k)%nat -> p !! k = x !! k) ->
  exists ds, draws_below i ds /\ fisher_yates ds x i = p.
Proof.
  revert x. induction i as [|i IH]; intros x Hnd Hperm Hi Habove.
  - exists []. split; [done|]. cbn [fisher_yates].
    assert (NoDup p) as Hndp by by rewrite Hperm.
    pose proof (Permutation_length Hperm) as Hlen.
    destruct x as [|a t], p as [|b t']; try done.
    assert (t' = t) as ->.
    { apply list_eq. intros k. apply (Habove (S k)). lia. }
    f_equal. assert (b ∈ a :: t) as Hb by (rewrite <- Hperm; left).
    apply elem_of_cons in Hb as [->|Hb]; [done|].
    by apply NoDup_cons in Hndp as [? _].
  - assert (NoDup p) as Hndp by by rewrite Hperm.
    pose proof (Permutation_length Hperm) as Hlen.
    destruct (lookup_lt_is_Some_2 p (S i)) as [v Hv]; [lia|].
    assert (v ∈ x) as Hin.
    { rewrite <- Hperm. by eapply list_elem_of_lookup_2. }
    apply list_elem_of_lookup in Hin as [j Hj].
    assert (j <= S i)%nat as Hjle.
    { destruct (le_lt_dec j (S i)) as [|Hgt]; [done|].
      rewrite <- (Habove j Hgt) in Hj.
      pose proof (NoDup_lookup p _ _ _ Hndp Hv Hj). lia. }
    destruct (IH (exchange x (S i) j)) as (ds & Hds & Hfy).
    + by rewrite exchange_perm.
    + by rewrite exchange_perm.
    + rewrite length_exchange. lia.
    + intros k Hk. destruct (decide (k = S i)) as [->|Hne].
      * rewrite exchange_lookup_i by lia. congruence.
      * rewrite exchange_lookup_other by lia. apply Habove. lia.
    + exists (j :: ds). split; [done|]. exact Hfy.
Qed.

(** Replace the powers of two by their values, for [lia]. *)
Ltac eval_pow2 :=
  repeat match goal with
         | |- context [2 ^ ?n] =>
           let v := eval vm_compute in (2 ^ n) in change (2 ^ n) with v
         end.

Lemma int_from_bytes_be64 (h : list Z) :
  (8 <= length h)%nat -> int_from_bytes (take 8 h) = be64 h.
Proof.
  intros Hh. do 8 (destruct h as [|? h]; [simpl in Hh; lia|]).
  unfold be64, int_from_bytes. cbn [firstn fold_left nth]. rewrite take_0.
  cbn [fold_left]. eval_pow2. lia.
Qed.

Lemma be64_range (h : list Z) :
  (8 <= length h)%nat -> is_bytes h -> 0 <= be64 h < 2 ^ 64.
Proof.
  intros Hh Hb. do 8 (destruct h as [|? h]; [simpl in Hh; lia|]).
  unfold be64. cbn [nth]. unfold is_bytes in Hb.
  do 8 (apply Forall_cons in Hb as [? Hb]).
  unfold is_byte in *. eval_pow2. lia.
Qed.

Section IndexOrderSpec.
Context {IL : ImageLib} {HL : HashLib} {RL : RandomLib}.
Context {HLok : HashLibOk HL}.

(** C4. The index order is a function of the number [N] of channel bytes
    and of the password, the same in [embed_lsb] and in [extract_lsb].
    Without a password it is [0, 1, ..., N-1].  With a password it is the
    whole range [0, N) shuffled by the generator seeded with the first 8
    bytes of SHA-256(password), read big-endian as a 64-bit integer, and it
    is a permutation of [0, N).  The shuffle is the Fisher-Yates shuffle on
    the numbers the generator hands out, [randbelow(N)], ..., [randbelow(2)];
    and it is uniform: every permutation of [0, N) is the result of exactly
    one sequence of draws that the steps allow, so that draws that are
    uniform and independent give every permutation with the same
    probability. *)
Theorem index_ordering (N : nat) (password : string) :
  embed_lsb_indices N password = extract_lsb_indices N password /\
  (password = ""%string -> embed_lsb_indices N password = seq 0 N) /\
  (password <> ""%string ->
     let seed := be64 (sha256_digest (str_encode password)) in
     0 <= seed < 2 ^ 64 /\
     embed_lsb_indices N password = shuffle (Random seed) (seq 0 N) /\
     embed_lsb_indices N password
     = fisher_yates (draws (Random seed) (N - 1)) (seq 0 N) (N - 1)) /\
  embed_lsb_indices N password ≡ₚ seq 0 N /\
  length (embed_lsb_indices N password) = N /\
  (forall g : rng,
     shuffle g (seq 0 N) = fisher_yates (draws g (N - 1)) (seq 0 N) (N - 1)) /\
  (forall p : list nat, p ≡ₚ seq 0 N ->
     exists ds,
       draws_below (N - 1) ds /\ fisher_yates ds (seq 0 N) (N - 1) = p /\
       forall ds', draws_below (N - 1) ds' ->
                   fisher_yates ds' (seq 0 N) (N - 1) = p -> ds' = ds).
Proof.
  assert (forall g : rng,
            shuffle g (seq 0 N)
            = fisher_yates (draws g (N - 1)) (seq 0 N) (N - 1)) as Hfy.
  { intros g. unfold shuffle. rewrite length_seq.
    apply shuffle_from_fisher_yates. }
  split_and!.
  - reflexivity.
  - by intros ->.
  - intros Hne seed.
    assert (8 <= length (sha256_digest (str_encode password)))%nat as Hlen
      by (rewrite sha256_length; lia).
    split; [apply be64_range; [done|apply sha256_bytes]|].
    assert (embed_lsb_indices N password = shuffle (Random seed) (seq 0 N)) as ->.
    { unfold embed_lsb_indices. rewrite seed_from_nonempty by done.
      by rewrite int_from_bytes_be64. }
    split; [done|apply Hfy].
  - apply embed_lsb_indices_perm.
  - apply embed_lsb_indices_length.
  - exact Hfy.
  - intros p Hp.
    destruct (fisher_yates_surj p (seq 0 N) (N - 1)) as (ds & Hds & Hfyp).
    + apply NoDup_seq.
    + done.
    + by rewrite length_seq.
    + intros k Hk. rewrite !lookup_ge_None_2; [done|..].
      * rewrite length_seq. lia.
      * rewrite Hp, length_seq. lia.
    + exists ds. split_and!; [done..|]. intros ds' Hds' Hfy'.
      apply (fisher_yates_inj ds' ds (seq 0 N) (N - 1));
        [apply NoDup_seq|by rewrite length_seq|done..|congruence].
Qed.
End IndexOrderSpec.

(** ** The LSB codec *)

Lemma to_bitstring_lookup (F : list Z) (i : nat) :
  (i < 8 * length F)%nat ->
  _to_bitstring F !! i = Some (digit_char (Z.b2z (frame_bit F i))).
Proof.
  revert i. induction F as [|b F IH]; intros i Hi; [simpl in Hi; lia|].
  rewrite to_bitstring_cons. destruct (decide (i < 8)%nat) as [Hlt|Hge].
  - rewrite lookup_app_l by (rewrite length_format_08b; lia).
    do 8 (destruct i as [|i]; [reflexivity|]). lia.
  - rewrite lookup_app_r by (rewrite length_format_08b; lia).
    rewrite length_format_08b, IH by (cbn [length] in Hi; lia).
    do 3 f_equal. unfold frame_bit.
    assert (i / 8 = S ((i - 8) / 8))%nat as ->.
    { replace i with ((i - 8) + 1 * 8)%nat at 1 by lia.
      rewrite Nat.div_add by lia. lia. }
    assert (i mod 8 = (i - 8) mod 8)%nat as ->.
    { replace i with ((i - 8) + 1 * 8)%nat at 1 by lia.
      by rewrite Nat.Div0.mod_add. }
    done.
Qed.

Lemma is_frame_bytes (F : list Z) : is_frame F -> is_bytes F.
Proof.
  intros (ln & E & -> & _ & Hln & HE & _). unfold is_bytes.
  rewrite !Forall_app. split_and!; [|done..].
  repeat constructor; unfold is_byte; lia.
Qed.

Lemma is_frame_length (F : list Z) : is_frame F -> (13 <= length F)%nat.
Proof.
  intros (ln & E & -> & Hln & _). rewrite !length_app, Hln. simpl. lia.
Qed.

Section Codec.
Context {IL : ImageLib} {HL : HashLib} {RL : RandomLib}.

Lemma embed_lsb_array_too_large (flat payload : list Z) (password : string) :
  (length flat < 8 * length payload)%nat ->
  embed_lsb_array flat payload password = (Err PayloadTooLarge, flat).
Proof.
  intros Hbig. unfold embed_lsb_array. rewrite length_to_bitstring.
  by destruct (Nat.ltb_spec (length flat) (8 * length payload)); [|lia].
Qed.

Lemma embed_lsb_array_ok (flat payload : list Z) (password : string) :
  is_bytes flat ->
  (8 * length payload <= length flat)%nat ->
  let indices := embed_lsb_indices (length flat) password in
  exists flat',
    embed_lsb_array flat payload password = (Ok tt, flat') /\
    length flat' = length flat /\
    is_bytes flat' /\
    (forall i idx,
       (i < 8 * length payload)%nat -> indices !! i = Some idx ->
       exists v,
         flat !! idx = Some v /\
         flat' !! idx
         = Some (Z.lor (Z.land v 254) (Z.b2z (frame_bit payload i)))) /\
    (forall p,
       (forall i, (i < 8 * length payload)%nat -> indices !! i <> Some p) ->
       flat' !! p = flat !! p).
Proof.
  intros Hflat Hfit indices. unfold embed_lsb_array.
  rewrite length_to_bitstring.
  destruct (Nat.ltb_spec (length flat) (8 * length payload)); [lia|].
  fold indices.
  destruct (write_bits_spec indices (embed_lsb_indices_nodup _ _)
              (_to_bitstring payload) 0 flat)
    as (flat' & Hw & Hl & Hb & Hset & Hkeep).
  { apply to_bitstring_bits. }
  { unfold indices. rewrite length_to_bitstring, embed_lsb_indices_length. lia. }
  { intros idx Hidx. by apply embed_lsb_indices_range in Hidx. }
  { done. }
  exists flat'. split_and!; [done..| |].
  - intros i idx Hi Hidx.
    destruct (Hset i idx _ Hidx (to_bitstring_lookup _ _ Hi))
      as (v & b & Hv & Hc & Hv').
    exists v. split; [done|]. rewrite Hv'. do 3 f_equal.
    by destruct b, (frame_bit payload i).
  - intros p Hp. apply Hkeep. intros k Hk. rewrite length_to_bitstring in Hk.
    by apply Hp.
Qed.
End Codec.

Section CodecSpec.
Context {IL : ImageLib} {HL : HashLib} {RL : RandomLib}.
Context {ILok : ImageLibOk IL}.

Lemma embed_lsb_ok (carrier payload : list Z) (password : string)
    (img : rgb_image) :
  image_open_rgb carrier = Some img ->
  (8 * length payload <= channel_bytes img)%nat ->
  let indices := embed_lsb_indices (channel_bytes img) password in
  exists data',
    embed_lsb carrier payload password
    = Ok (png_save (im_width img) (im_height img) data') /\
    image_open_rgb (png_save (im_width img) (im_height img) data')
    = Some {| im_width := im_width img; im_height := im_height img;
              im_data := data' |} /\
    length data' = channel_bytes img /\
    is_bytes data' /\
    (forall i idx,
       (i < 8 * length payload)%nat -> indices !! i = Some idx ->
       exists v,
         im_data img !! idx = Some v /\
         data' !! idx
         = Some (Z.lor (Z.land v 254) (Z.b2z (frame_bit payload i)))) /\
    (forall p,
       (forall i, (i < 8 * length payload)%nat -> indices !! i <> Some p) ->
       data' !! p = im_data img !! p).
Proof.
  intros Hopen Hfit indices.
  pose proof (image_open_shape _ _ Hopen) as Hshape.
  pose proof (image_open_uint8 _ _ Hopen) as Huint8.
  fold (channel_bytes img) in Hshape.
  destruct (embed_lsb_array_ok (im_data img) payload password Huint8)
    as (data' & Hrun & Hlen & Hbytes & Hset & Hkeep); [lia|].
  rewrite Hshape in Hset, Hkeep.
  exists data'. unfold embed_lsb. rewrite Hopen. cbv zeta. rewrite Hrun.
  split_and!; [done| |lia|done..].
  by apply (png_lossless carrier).
Qed.

Lemma extract_lsb_reads (stego F : list Z) (password : string)
    (img : rgb_image) :
  image_open_rgb stego = Some img ->
  is_frame F ->
  (8 * length F <= length (im_data img))%nat ->
  (forall i, (i < 8 * length F)%nat ->
     exists idx v,
       extract_lsb_indices (length (im_data img)) password !! i = Some idx /\
       im_data img !! idx = Some v /\
       Z.land v 1 = Z.b2z (frame_bit F i)) ->
  extract_lsb stego password = Ok F.
Proof.
  intros Hopen HF Hfit Hlsb.
  pose proof (is_frame_bytes F HF) as HFb.
  pose proof (is_frame_length F HF) as HFl.
  destruct HF as (ln & E & HFeq & Hln & Hlnb & HEb & Hlnv).
  unfold extract_lsb. rewrite Hopen. cbv zeta.
  set (data := im_data img) in *.
  set (indices := extract_lsb_indices (length data) password) in *.
  assert (length indices = length data) as Hil
    by apply embed_lsb_indices_length.
  assert (forall n, (n <= 8 * length F)%nat ->
            read_bits data indices n = Ok (take n (_to_bitstring F))) as Hread.
  { intros n Hn. apply read_bits_take; [|by rewrite length_to_bitstring].
    intros k c Hc.
    assert (k < 8 * length F)%nat as Hk.
    { rewrite <- length_to_bitstring. by eapply lookup_lt_Some. }
    destruct (Hlsb k Hk) as (idx & v & Hidx & Hv & Hbit).
    exists idx, v. split_and!; [done..|].
    rewrite Hbit. rewrite to_bitstring_lookup in Hc by done. congruence. }
  change (length MARKER + LENGTH_LEN)%nat with 13%nat.
  change (13 * 8)%nat with (8 * 13)%nat. rewrite Hil.
  destruct (Nat.ltb_spec (length data) (8 * 13)); [lia|].
  rewrite Hread by lia. cbn [rbind]. rewrite take_to_bitstring.
  rewrite from_bitstring_to_bitstring by by apply is_bytes_take.
  cbn [rbind].
  assert (take 13 F = MARKER ++ ln) as ->.
  { rewrite HFeq, app_assoc.
    replace 13%nat with (length (MARKER ++ ln))
      by (rewrite length_app, Hln; done).
    apply take_app_length. }
  assert (startswith (MARKER ++ ln) MARKER = true) as ->.
  { apply startswith_spec. apply take_app_length. }
  cbn [negb].
  assert (slice (MARKER ++ ln) (len MARKER) (len MARKER + Z.of_nat LENGTH_LEN)
          = ln) as ->.
  { unfold slice. change (Z.to_nat (len MARKER)) with (length MARKER).
    rewrite drop_app_length.
    change (Z.to_nat (len MARKER + Z.of_nat LENGTH_LEN) - length MARKER)%nat
      with LENGTH_LEN.
    rewrite <- Hln. apply firstn_all. }
  rewrite Hlnv.
  assert (Z.of_nat 13 + len E = len F) as ->.
  { unfold len. rewrite HFeq, !length_app, Hln.
    change (length MARKER) with 5%nat. change LENGTH_LEN with 8%nat. lia. }
  unfold len. rewrite Hil.
  destruct (Z.ltb_spec (Z.of_nat (length data)) (Z.of_nat (length F) * 8));
    [lia|].
  replace (Z.to_nat (Z.of_nat (length F) * 8)) with (8 * length F)%nat by lia.
  rewrite Hread by lia. cbn [rbind].
  rewrite <- length_to_bitstring, firstn_all.
  by rewrite from_bitstring_to_bitstring.
Qed.

(** Extraction with a password whose index order is the one used for
    embedding gives the frame back. *)
Lemma extract_embed_same_order (carrier F : list Z) (pwd pwd' : string)
    (img : rgb_image) :
  image_open_rgb carrier = Some img ->
  is_frame F ->
  (8 * length F <= channel_bytes img)%nat ->
  extract_lsb_indices (channel_bytes img) pwd'
  = embed_lsb_indices (channel_bytes img) pwd ->
  exists stego,
    embed_lsb carrier F pwd = Ok stego /\ extract_lsb stego pwd' = Ok F.
Proof.
  intros Hopen HF Hfit Horder.
  destruct (embed_lsb_ok carrier F pwd img Hopen Hfit)
    as (data' & Hembed & Hopen' & Hlen & Hbytes & Hset & _).
  eexists. split; [exact Hembed|].
  apply (extract_lsb_reads _ _ _ _ Hopen' HF); cbn [im_data]; [lia|].
  rewrite Hlen, Horder. intros i Hi.
  destruct (lookup_lt_is_Some_2 (embed_lsb_indices (channel_bytes img) pwd) i)
    as [idx Hidx]; [rewrite embed_lsb_indices_length; lia|].
  destruct (Hset i idx Hi Hidx) as (v & _ & Hv').
  eexists idx, _. split_and!; [done..|]. apply read_written_lsb.
Qed.

(** C1. For every carrier that decodes to [W x H] RGB pixels with
    [W*H*3 >= len(F)*8], every frame [F] (marker, 8-byte length, envelope)
    and every password, the empty one included,
    [extract_lsb(embed_lsb(I, F, pwd), pwd) == F]. *)
Theorem lsb_roundtrip (carrier F : list Z) (password : string)
    (img : rgb_image) :
  image_open_rgb carrier = Some img ->
  is_frame F ->
  (8 * length F <= im_width img * im_height img * 3)%nat ->
  exists stego,
    embed_lsb carrier F password = Ok stego /\
    extract_lsb stego password = Ok F.
Proof.
  intros Hopen HF Hfit. by apply (extract_embed_same_order _ _ _ _ img).
Qed.
End CodecSpec.

Section CapacitySpec.
Context {IL : ImageLib} {HL : HashLib} {RL : RandomLib}.

(** C8. For a buffer that decodes to an image of width [W] and height [H],
    [lsb_capacity_bytes] returns [(W*H*3) // 8]; for a buffer that does not
    decode it returns 0.  (It is a function of the buffer alone.) *)
Theorem lsb_capacity_exact (carrier : list Z) :
  (forall img, image_open_rgb carrier = Some img ->
     lsb_capacity_bytes carrier
     = (Z.of_nat (im_width img) * Z.of_nat (im_height img) * 3) / 8) /\
  (image_open_rgb carrier = None -> lsb_capacity_bytes carrier = 0).
Proof.
  unfold lsb_capacity_bytes. split.
  - by intros img ->.
  - by intros ->.
Qed.

Context {ILok : ImageLibOk IL}.

(** C6. With [N = W*H*3] the number of channel bytes of the decoded
    carrier, [embed_lsb] raises "Payload too large" if and only if
    [len(frame_bytes)*8 > N]; it then raises before any element of the
    pixel array is written, and gives no stego image.  Otherwise it returns
    a stego image; so does a frame of exactly [N/8] bytes, such as 3750
    bytes in a 100 x 100 image, while 3751 bytes are rejected. *)
Theorem embed_lsb_capacity (carrier payload : list Z) (password : string)
    (img : rgb_image) :
  image_open_rgb carrier = Some img ->
  let N := (im_width img * im_height img * 3)%nat in
  (embed_lsb carrier payload password = Err PayloadTooLarge
   <-> (N < length payload * 8)%nat) /\
  ((N < length payload * 8)%nat ->
     embed_lsb_array (im_data img) payload password
     = (Err PayloadTooLarge, im_data img)) /\
  ((length payload * 8 <= N)%nat ->
     exists stego, embed_lsb carrier payload password = Ok stego) /\
  (im_width img = 100%nat -> im_height img = 100%nat ->
     (length payload = 3750%nat ->
        exists stego, embed_lsb carrier payload password = Ok stego) /\
     (length payload = 3751%nat ->
        embed_lsb carrier payload password = Err PayloadTooLarge)).
Proof.
  intros Hopen N.
  pose proof (image_open_shape _ _ Hopen) as Hshape. fold N in Hshape.
  assert ((N < length payload * 8)%nat ->
          embed_lsb_array (im_data img) payload password
          = (Err PayloadTooLarge, im_data img)) as Hbig.
  { intros Hbig. apply embed_lsb_array_too_large. lia. }
  assert ((length payload * 8 <= N)%nat ->
          exists stego, embed_lsb carrier payload password = Ok stego) as Hfits.
  { intros Hfit.
    destruct (embed_lsb_ok carrier payload password img Hopen)
      as (data' & Hembed & _); [unfold channel_bytes; lia|]. by eexists. }
  assert ((N < length payload * 8)%nat ->
          embed_lsb carrier payload password = Err PayloadTooLarge) as Hrej.
  { intros Hlt. unfold embed_lsb. rewrite Hopen. cbv zeta. by rewrite Hbig. }
  split_and!; [|done..|].
  - split; [|done]. intros Herr.
    destruct (Nat.lt_ge_cases N (length payload * 8)) as [|Hfit]; [done|].
    destruct (Hfits Hfit) as [stego Hok]. congruence.
  - intros Hw Hh. unfold N in *. rewrite Hw, Hh in *. split.
    + intros Hp. apply Hfits. lia.
    + intros Hp. apply Hrej. lia.
Qed.

(** C9. After a successful [embed_lsb(I, F, pwd)], with [indices] the index
    order for the password: for every bit index [i < len(F)*8], the least
    significant bit of the decoded channel byte at [indices[i]] is bit [i]
    of [F], most significant bit of each byte first; every other bit of
    every channel byte of the stego image is the bit of the carrier. *)
Theorem embed_lsb_frame_effect (carrier F stego : list Z) (password : string)
    (img : rgb_image) :
  image_open_rgb carrier = Some img ->
  embed_lsb carrier F password = Ok stego ->
  let N := (im_width img * im_height img * 3)%nat in
  let indices := embed_lsb_indices N password in
  exists data',
    image_open_rgb stego
    = Some {| im_width := im_width img; im_height := im_height img;
              im_data := data' |} /\
    length data' = N /\
    (forall i, (i < length F * 8)%nat ->
       exists idx v',
         indices !! i = Some idx /\ data' !! idx = Some v' /\
         Z.testbit v' 0 = frame_bit F i) /\
    (forall p v v' n,
       im_data img !! p = Some v -> data' !! p = Some v' ->
       (n <> 0 \/ forall i, (i < length F * 8)%nat -> indices !! i <> Some p) ->
       Z.testbit v' n = Z.testbit v n).
Proof.
  intros Hopen Hembed N indices.
  pose proof (image_open_shape _ _ Hopen) as Hshape. fold N in Hshape.
  pose proof (image_open_uint8 _ _ Hopen) as Huint8.
  assert (length F * 8 <= N)%nat as Hfit.
  { destruct (Nat.lt_ge_cases N (length F * 8)) as [Hlt|]; [|done].
    unfold embed_lsb in Hembed. rewrite Hopen in Hembed. cbv zeta in Hembed.
    rewrite embed_lsb_array_too_large in Hembed by lia. done. }
  destruct (embed_lsb_ok carrier F password img Hopen)
    as (data' & Hembed' & Hopen' & Hlen & Hbytes & Hset & Hkeep);
    [unfold channel_bytes; lia|].
  fold N indices in Hset, Hkeep. 
  rewrite Hembed in Hembed'. injection Hembed' as ->.
  exists data'. split_and!; [done..| |].
  - intros i Hi.
    destruct (lookup_lt_is_Some_2 indices i) as [idx Hidx].
    { unfold indices. rewrite embed_lsb_indices_length. lia. }
    destruct (Hset i idx) as (v & Hv & Hv'); [lia|done|].
    eexists idx, _. split_and!; [done..|].
    rewrite write_lsb_testbit; [done|]. by eapply (Forall_lookup_1 _ (im_data img)).
  - intros p v v' n Hv Hv' Hother.
    assert (is_byte v) as Hbv by by eapply (Forall_lookup_1 _ (im_data img)).
    destruct (decide (p ∈ take (length F * 8) indices)) as [Hin|Hnot].
    + apply list_elem_of_lookup in Hin as [i Hin].
      apply lookup_take_Some in Hin as [Hidx Hi].
      destruct Hother as [Hn|Hnone]; [|by destruct (Hnone i Hi)].
      destruct (Hset i p) as (v0 & Hv0 & Hv0'); [lia|done|].
      assert (v0 = v) as -> by congruence.
      assert (v' = Z.lor (Z.land v 254) (Z.b2z (frame_bit F i))) as ->
        by congruence.
      rewrite write_lsb_testbit by done.
      by destruct (Z.eqb_spec n 0).
    + rewrite Hkeep in Hv'; [congruence|].
      intros i Hi Hidx. apply Hnot. apply list_elem_of_lookup. exists i.
      apply lookup_take_Some. split; [done|lia].
Qed.
End CapacitySpec.

(** ** The small model satisfies the contracts *)

Lemma raw_image_lib_ok : ImageLibOk raw_image_lib.
Proof.
  assert (forall data, forallb (fun b => (0 <=? b) && (b <? 256)) data = true
                       <-> is_bytes data) as Hbytes.
  { intros data. rewrite forallb_forall. unfold is_bytes.
    rewrite Forall_forall. unfold is_byte.
    split; intros H x Hx; [apply list_elem_of_In, H in Hx|apply list_elem_of_In, H in Hx]; lia. }
  split; cbn [image_open_rgb png_save raw_image_lib].
  - intros [|w [|h data]] im; cbn [raw_open]; try done.
    destruct (_ && _) eqn:Hchk; [|done]. intros [= <-]. cbn.
    rewrite !andb_true_iff, Nat.eqb_eq in Hchk. tauto.
  - intros [|w [|h data]] im; cbn [raw_open]; try done.
    destruct (_ && _) eqn:Hchk; [|done]. intros [= <-]. cbn.
    rewrite !andb_true_iff in Hchk. apply Hbytes. tauto.
  - intros [|w [|h data0]] im data; cbn [raw_open]; try done.
    destruct (_ && _) eqn:Hchk; [|done]. intros [= <-]. cbn.
    intros Hlen Hb. rewrite !andb_true_iff, Nat.eqb_eq in Hchk.
    rewrite !Z2Nat.id by lia.
    destruct (Z.leb_spec 0 w); [|lia]. destruct (Z.leb_spec 0 h); [|lia].
    destruct (Nat.eqb_spec (length data) (Z.to_nat w * Z.to_nat h * 3));
      [|lia].
    apply Hbytes in Hb. by rewrite Hb.
Qed.

Lemma pad_hash_lib_ok : HashLibOk pad_hash_lib.
Proof.
  split; cbn [sha256_digest pad_hash_lib]; intros b; unfold pad_digest.
  - rewrite length_take, length_app, length_replicate. lia.
  - apply is_bytes_take. apply Forall_app. split.
    + apply Forall_map, Forall_true. intros x. unfold is_byte. cbn.
      apply Z.mod_pos_bound. lia.
    + apply Forall_replicate. unfold is_byte. lia.
Qed.

Lemma sha256_lib_ok : HashLibOk sha256_lib.
Proof.
  split; intros b; cbn [sha256_digest sha256_lib]; unfold sha256;
    destruct (fold_left _ _ _) as [[[[[[[a0 b0] c0] d0] e0] f0] g0] h0].
  - by rewrite !length_app, !length_be_digits.
  - unfold is_bytes. rewrite !Forall_app. split_and!; apply is_bytes_be_digits.
Qed.

(** The models of SHA-256 and of the generator on known values: the digest of
    "abc" of FIPS 180-4, a message of more than one block, and the first
    words and a shuffle of [random.Random(5)]. *)
Example sha256_abc :
  sha256 [97; 98; 99]
  = [186; 120; 22; 191; 143; 1; 207; 234; 65; 65; 64; 222; 93; 174; 34; 35;
     176; 3; 97; 163; 150; 23; 122; 156; 180; 16; 255; 97; 242; 0; 21; 173].
Proof. vm_compute. reflexivity. Qed.

Example sha256_two_blocks :
  take 4 (sha256 (map Z.of_nat (seq 0 64))) = [253; 234; 185; 172].
Proof. vm_compute. reflexivity. Qed.

Example mt_seed_5 :
  let '(a, g) := genrand_uint32 (mt_seed 5) in
  let '(b, g) := genrand_uint32 g in
  let '(c, g) := genrand_uint32 g in
  [a; b; c] = [2675342405; 1097127993; 3185950873].
Proof. vm_compute. reflexivity. Qed.

Example mt_shuffle_5 :
  shuffle (RL := mt_lib) (Random 5) (seq 0 8) = [6; 3; 1; 0; 7; 2; 5; 4]%nat.
Proof. vm_compute. reflexivity. Qed.

Lemma plain_crypto_lib_ok : CryptoLibOk plain_crypto_lib.
Proof.
  split; cbn [token_bytes aesgcm_encrypt aesgcm_decrypt plain_crypto_lib].
  - intros n e. apply length_replicate.
  - intros key nonce data. rewrite length_app, length_replicate.
    replace (length data + 16 - 16)%nat with (length data) by lia.
    rewrite drop_app_length, take_app_length.
    by rewrite bool_decide_eq_true_2.
Qed.

(** ** Worked examples *)

Lemma demo_carrier_open :
  image_open_rgb (ImageLib := raw_image_lib) demo_carrier = Some demo_image.
Proof. reflexivity. Qed.

Lemma demo_frame_is_frame : is_frame demo_frame.
Proof.
  exists [0; 0; 0; 0; 0; 0; 0; 2], [104; 105].
  split_and!; [reflexivity..| | |reflexivity];
    repeat constructor; unfold is_byte; lia.
Qed.

Lemma lsb_roundtrip_witness :
  exists stego,
    embed_lsb (IL := raw_image_lib) (HL := pad_hash_lib) (RL := lcg_lib)
      demo_carrier demo_frame "pw" = Ok stego /\
    extract_lsb (IL := raw_image_lib) (HL := pad_hash_lib) (RL := lcg_lib)
      stego "pw" = Ok demo_frame.
Proof.
  apply (lsb_roundtrip (ILok := raw_image_lib_ok) demo_carrier demo_frame "pw"
           demo_image).
  - exact demo_carrier_open.
  - exact demo_frame_is_frame.
  - simpl. lia.
Defined.

Lemma index_ordering_witness :
  be64 (sha256 (str_encode "pw")) = 3515432220806530041 /\
  draws (RL := mt_lib) (Random 3515432220806530041) 9
  = [2; 2; 7; 1; 2; 0; 1; 2; 1]%nat /\
  embed_lsb_indices (HL := sha256_lib) (RL := mt_lib) 10 "pw"
  = [4; 3; 5; 6; 0; 8; 1; 7; 9; 2]%nat /\
  extract_lsb_indices (HL := sha256_lib) (RL := mt_lib) 10 "pw"
  = [4; 3; 5; 6; 0; 8; 1; 7; 9; 2]%nat /\
  embed_lsb_indices (HL := sha256_lib) (RL := mt_lib) 10 ""
  = [0; 1; 2; 3; 4; 5; 6; 7; 8; 9]%nat.
Proof.
  destruct (index_ordering (HLok := sha256_lib_ok) (RL := mt_lib) 10 "pw")
    as (Hsame & _ & Hpw & _).
  destruct (Hpw ltac:(done)) as (_ & _ & Hfy).
  destruct (index_ordering (HLok := sha256_lib_ok) (RL := mt_lib) 10 "")
    as (_ & Hnone & _).
  split_and!.
  - vm_compute; reflexivity.
  - vm_compute; reflexivity.
  - rewrite Hfy. vm_compute; reflexivity.
  - rewrite <- Hsame, Hfy. vm_compute; reflexivity.
  - apply Hnone. reflexivity.
Defined.

Lemma lsb_capacity_exact_witness :
  lsb_capacity_bytes (IL := raw_image_lib) demo_carrier = 15 /\
  lsb_capacity_bytes (IL := raw_image_lib) [1; 2; 3] = 0.
Proof.
  split.
  - destruct (lsb_capacity_exact (IL := raw_image_lib) demo_carrier) as [Himg _].
    exact (Himg demo_image demo_carrier_open).
  - destruct (lsb_capacity_exact (IL := raw_image_lib) [1; 2; 3]) as [_ Hnone].
    exact (Hnone eq_refl).
Defined.

Lemma embed_lsb_capacity_witness :
  embed_lsb (IL := raw_image_lib) (HL := pad_hash_lib) (RL := lcg_lib)
    demo_carrier (demo_frame ++ [33]) "pw" = Err PayloadTooLarge /\
  exists stego,
    embed_lsb (IL := raw_image_lib) (HL := pad_hash_lib) (RL := lcg_lib)
      demo_carrier demo_frame "pw" = Ok stego.
Proof.
  split.
  - destruct (embed_lsb_capacity (ILok := raw_image_lib_ok) (HL := pad_hash_lib)
                (RL := lcg_lib) demo_carrier (demo_frame ++ [33]) "pw"
                demo_image demo_carrier_open) as ([_ Hrej] & _).
    apply Hrej. simpl. lia.
  - destruct (embed_lsb_capacity (ILok := raw_image_lib_ok) (HL := pad_hash_lib)
                (RL := lcg_lib) demo_carrier demo_frame "pw"
                demo_image demo_carrier_open) as (_ & _ & Hfits & _).
    apply Hfits. simpl. lia.
Defined.

Lemma embed_lsb_frame_effect_witness :
  exists data',
    image_open_rgb (ImageLib := raw_image_lib) demo_stego
    = Some {| im_width := 8; im_height := 5; im_data := data' |} /\
    forall i, (i < 120)%nat ->
      exists idx v',
        embed_lsb_indices (HL := pad_hash_lib) (RL := lcg_lib) 120 "pw" !! i
        = Some idx /\
        data' !! idx = Some v' /\ Z.testbit v' 0 = frame_bit demo_frame i.
Proof.
  destruct (embed_lsb_frame_effect (ILok := raw_image_lib_ok)
              (HL := pad_hash_lib) (RL := lcg_lib)
              demo_carrier demo_frame demo_stego "pw" demo_image
              demo_carrier_open eq_refl) as (data' & Hopen & _ & Hbits & _).
  exists data'. split; [exact Hopen|exact Hbits].
Defined.

(** ** Passwords with the same seed *)

Lemma bounded_search (f : nat -> Z) (v : Z) (m : nat) :
  (exists i, (i <= m)%nat /\ f i = v) \/ (forall i, (i <= m)%nat -> f i <> v).
Proof.
  induction m as [|m [(i & Hi & Hf)|Hnone]].
  - destruct (decide (f 0%nat = v)) as [Hf|Hf].
    + left. by exists 0%nat.
    + right. intros i Hi. by replace i with 0%nat by lia.
  - left. exists i. split; [lia|done].
  - destruct (decide (f (S m) = v)) as [Hf|Hf].
    + left. by exists (S m).
    + right. intros i Hi. destruct (decide (i = S m)) as [->|]; [done|].
      apply Hnone. lia.
Qed.

(** [n + 1] values among [n] candidates: two of them are equal. *)
Lemma pigeonhole (n : nat) (f : nat -> Z) :
  (forall i, (i <= n)%nat -> 0 <= f i < Z.of_nat n) ->
  exists i j, (i < j <= n)%nat /\ f i = f j.
Proof.
  revert f. induction n as [|n IH]; intros f Hf.
  { specialize (Hf 0%nat). lia. }
  destruct (bounded_search f (f (S n)) n) as [(i & Hi & Heq)|Hnone].
  { exists i, (S n). split; [lia|done]. }
  set (g := fun i => if f i <? f (S n) then f i else f i - 1).
  destruct (IH g) as (i & j & Hij & Hg).
  - intros i Hi. unfold g.
    pose proof (Hf i ltac:(lia)). pose proof (Hf (S n) ltac:(lia)).
    pose proof (Hnone i Hi). destruct (Z.ltb_spec (f i) (f (S n))); lia.
  - exists i, j. split; [lia|]. unfold g in Hg.
    pose proof (Hnone i ltac:(lia)). pose proof (Hnone j ltac:(lia)).
    destruct (Z.ltb_spec (f i) (f (S n))), (Z.ltb_spec (f j) (f (S n))); lia.
Qed.

Lemma bit_password_nonempty (i : nat) : bit_password i <> ""%string.
Proof. unfold bit_password. cbn [seq map string_of_list_ascii]. done. Qed.

Lemma digit_char_b2z_inj (a b : bool) :
  digit_char (Z.b2z a) = digit_char (Z.b2z b) -> a = b.
Proof. by destruct a, b. Qed.

Lemma bit_password_inj (i j : nat) :
  Z.of_nat i < 2 ^ 65 -> Z.of_nat j < 2 ^ 65 ->
  bit_password i = bit_password j -> i = j.
Proof.
  intros Hi Hj Heq. unfold bit_password in Heq.
  apply (f_equal list_ascii_of_string) in Heq.
  rewrite !list_ascii_of_string_of_list_ascii in Heq.
  apply Nat2Z.inj, Z.bits_inj'. intros k Hk.
  destruct (Z.lt_ge_cases k 65) as [Hlt|Hge].
  - apply (f_equal (fun l => l !! Z.to_nat k)) in Heq.
    rewrite !list_lookup_fmap, lookup_seq_lt in Heq by lia. cbn in Heq.
    injection Heq as Heq. apply digit_char_b2z_inj in Heq.
    by rewrite Z2Nat.id in Heq by lia.
  - assert (forall m, 0 <= m < 2 ^ 65 -> Z.testbit m k = false) as Hhigh.
    { intros m [Hm0 Hm]. destruct (decide (m = 0)) as [->|]; [apply Z.bits_0|].
      apply Z.bits_above_log2; [done|].
      assert (Z.log2 m < 65); [|lia]. apply Z.log2_lt_pow2; lia. }
    rewrite !Hhigh by lia. done.
Qed.

Section SeedCollision.
Context {HL : HashLib} {HLok : HashLibOk HL}.

Lemma seed_range (password : string) :
  password <> ""%string ->
  exists seed, _seed_from_password password = Some seed /\ 0 <= seed < 2 ^ 64.
Proof.
  intros Hne. eexists. split; [by apply seed_from_nonempty|].
  assert (8 <= length (sha256_digest (str_encode password)))%nat as Hlen
    by (rewrite sha256_length; lia).
  rewrite int_from_bytes_be64 by done.
  apply be64_range; [done|apply sha256_bytes].
Qed.

(** The seed has 64 bits: among the [2^64 + 1] passwords
    [bit_password 0, ..., bit_password (2^64)], two have the same seed. *)
Lemma seed_collision :
  exists pwd pwd' : string,
    pwd <> ""%string /\ pwd' <> ""%string /\ pwd' <> pwd /\
    _seed_from_password pwd' = _seed_from_password pwd.
Proof.
  set (f := fun i => default 0 (_seed_from_password (bit_password i))).
  remember (Z.to_nat (2 ^ 64)) as n eqn:Hn.
  assert (Z.of_nat n = 2 ^ 64) as Hn' by (subst n; apply Z2Nat.id; lia).
  clear Hn.
  destruct (pigeonhole n f) as (i & j & Hij & Hf).
  { intros i _. unfold f.
    destruct (seed_range (bit_password i) (bit_password_nonempty i))
      as (seed & -> & Hseed). cbn. lia. }
  exists (bit_password i), (bit_password j).
  split_and!; [apply bit_password_nonempty..| |].
  - intros Heq. apply bit_password_inj in Heq; [lia|..].
    + assert (2 ^ 64 < 2 ^ 65) by (by apply Z.pow_lt_mono_r). lia.
    + assert (2 ^ 64 < 2 ^ 65) by (by apply Z.pow_lt_mono_r). lia.
  - unfold f in Hf.
    destruct (seed_range (bit_password i) (bit_password_nonempty i))
      as (si & Hi & _).
    destruct (seed_range (bit_password j) (bit_password_nonempty j))
      as (sj & Hj & _).
    rewrite Hi, Hj in Hf |- *. cbn in Hf. by rewrite Hf.
Qed.
End SeedCollision.

(** ** Reading a header that was not written *)

Lemma chunk_is_byte (c0 c1 c2 c3 c4 c5 c6 c7 : ascii) :
  is_bit_char c0 -> is_bit_char c1 -> is_bit_char c2 -> is_bit_char c3 ->
  is_bit_char c4 -> is_bit_char c5 -> is_bit_char c6 -> is_bit_char c7 ->
  exists v, is_byte v /\ format_08b v = [c0; c1; c2; c3; c4; c5; c6; c7].
Proof.
  intros H0 H1 H2 H3 H4 H5 H6 H7.
  exists (match int_base2 [c0; c1; c2; c3; c4; c5; c6; c7] with
          | Ok v => v
          | Err _ => 0
          end).
  destruct H0 as [-> | ->], H1 as [-> | ->], H2 as [-> | ->], H3 as [-> | ->],
           H4 as [-> | ->], H5 as [-> | ->], H6 as [-> | ->], H7 as [-> | ->];
    (split; [vm_compute; split; [discriminate|reflexivity]|reflexivity]).
Qed.

Lemma bits_are_bitstring (n : nat) (bits : list ascii) :
  length bits = (8 * n)%nat -> Forall is_bit_char bits ->
  exists bytes, is_bytes bytes /\ _to_bitstring bytes = bits.
Proof.
  revert bits. induction n as [|n IH]; intros bits Hlen Hbits.
  { exists []. split; [constructor|]. by destruct bits. }
  do 8 (destruct bits as [|? bits]; [simpl in Hlen; lia|]).
  do 8 (apply Forall_cons in Hbits as [? Hbits]).
  destruct (chunk_is_byte a a0 a1 a2 a3 a4 a5 a6) as (v & Hv & Hfmt); [done..|].
  destruct (IH bits) as (bytes & Hbytes & Hto); [simpl in Hlen; lia|done|].
  exists (v :: bytes). split; [by constructor|].
  by rewrite to_bitstring_cons, Hfmt, Hto.
Qed.

Lemma to_bitstring_inj (xs ys : list Z) :
  is_bytes xs -> is_bytes ys -> _to_bitstring xs = _to_bitstring ys -> xs = ys.
Proof.
  intros Hxs Hys Heq. apply (f_equal _from_bitstring) in Heq.
  rewrite !from_bitstring_to_bitstring in Heq by done. by injection Heq.
Qed.

Lemma land_1_testbit (v : Z) : Z.land v 1 = Z.b2z (Z.testbit v 0).
Proof.
  change 1 with (Z.ones 1). rewrite Z.land_ones by lia.
  by rewrite Z.bit0_mod.
Qed.

Lemma map_result_not_err {A B} (f : A -> result B) (xs : list A) (e : error) :
  (forall x, f x <> Err e) -> map_result f xs <> Err e.
Proof.
  intros Hf. induction xs as [|x xs IH]; simpl; [done|].
  pose proof (Hf x) as Hx. destruct (f x) as [y|e1]; simpl.
  - destruct (map_result f xs) as [ys|e2]; simpl; [done|].
    intros [= ->]. by apply IH.
  - intros [= ->]. by apply Hx.
Qed.

Lemma read_bits_not_marker_error (data : list Z) (indices : list nat) (n : nat) :
  read_bits data indices n <> Err MarkerNotFoundLSB.
Proof.
  apply map_result_not_err. intros i.
  destruct (indices !! i); [|done]. by destruct (data !! _).
Qed.

Lemma from_bitstring_not_marker_error (bits : list ascii) :
  _from_bitstring bits <> Err MarkerNotFoundLSB.
Proof.
  unfold _from_bitstring. destruct (negb _); [done|].
  apply map_result_not_err. intros i. unfold int_base2.
  destruct (take 8 (drop i bits)) as [|c s]; [done|].
  generalize 0 as acc. induction (c :: s) as [|d r IH]; intros acc; simpl; [done|].
  unfold int_of_char. destruct (_ && _); simpl; [|done].
  destruct (_ <? 2); [apply IH|done].
Qed.

Lemma read_bits_ok (data : list Z) (indices : list nat) (n : nat) :
  (n <= length indices)%nat ->
  (forall idx, idx ∈ indices -> (idx < length data)%nat) ->
  exists bits,
    read_bits data indices n = Ok bits /\ length bits = n /\
    Forall is_bit_char bits /\
    forall i c, bits !! i = Some c ->
      exists idx v, indices !! i = Some idx /\ data !! idx = Some v /\
                    c = digit_char (Z.b2z (Z.testbit v 0)).
Proof.
  intros Hn Hrange.
  set (bit := fun i => match indices !! i with
                       | Some idx => match data !! idx with
                                     | Some v => Z.testbit v 0
                                     | None => false
                                     end
                       | None => false
                       end).
  set (bits := map (fun i => digit_char (Z.b2z (bit i))) (seq 0 n)).
  assert (length bits = n) as Hlen by (unfold bits; by rewrite length_map, length_seq).
  assert (forall i c, bits !! i = Some c ->
            exists idx v, indices !! i = Some idx /\ data !! idx = Some v /\
                          c = digit_char (Z.b2z (Z.testbit v 0))) as Hbits.
  { intros i c Hc. unfold bits in Hc. rewrite list_lookup_fmap in Hc.
    destruct (seq 0 n !! i) as [k|] eqn:Hk; [|done].
    apply lookup_seq in Hk as [-> Hi]. cbn in Hc. injection Hc as <-.
    destruct (lookup_lt_is_Some_2 indices i) as [idx Hidx]; [lia|].
    destruct (lookup_lt_is_Some_2 data idx) as [v Hv].
    { apply Hrange. by eapply list_elem_of_lookup_2. }
    exists idx, v. split_and!; [done..|]. unfold bit. by rewrite Hidx, Hv. }
  exists bits. split_and!; [|done| |done].
  - unfold read_bits. rewrite <- Hlen. apply map_result_lookup.
    intros i c Hc. cbn.
    destruct (Hbits i c Hc) as (idx & v & -> & -> & ->).
    by rewrite land_1_testbit.
  - unfold bits. apply Forall_map, Forall_true. intros i. apply is_bit_char_digit.
Qed.

Section WrongPassword.
Context {IL : ImageLib} {HL : HashLib} {RL : RandomLib}.
Context {ILok : ImageLibOk IL}.

(** [extract_lsb] raises "Marker not found in LSB data" exactly when the bits
    it reads at the first 40 positions of its index order are not the bits of
    the marker. *)
Lemma extract_lsb_marker_check (stego : list Z) (password : string)
    (img : rgb_image) :
  image_open_rgb stego = Some img ->
  (104 <= length (im_data img))%nat ->
  extract_lsb stego password = Err MarkerNotFoundLSB <->
  ~ spells_marker (im_data img)
      (extract_lsb_indices (length (im_data img)) password).
Proof.
  intros Hopen Hsize.
  set (data := im_data img) in *.
  set (indices := extract_lsb_indices (length data) password).
  assert (length indices = length data) as Hil
    by apply embed_lsb_indices_length.
  destruct (read_bits_ok data indices 104) as (bits & Hread & Hlen & Hbc & Hlook).
  { lia. }
  { intros idx Hidx. by apply embed_lsb_indices_range in Hidx. }
  destruct (bits_are_bitstring 13 bits Hlen Hbc) as (header & Hhb & Hto).
  assert (length header = 13%nat) as Hhl.
  { apply (f_equal length) in Hto. rewrite length_to_bitstring in Hto. lia. }
  assert (startswith header MARKER = true <-> spells_marker data indices) as Hsw.
  { rewrite startswith_spec. change (length MARKER) with 5%nat. split.
    - intros Hm i Hi.
      assert (bits !! i = Some (digit_char (Z.b2z (frame_bit MARKER i)))) as Hc.
      { rewrite <- (to_bitstring_lookup MARKER i) by (simpl; lia).
        rewrite <- Hm, <- take_to_bitstring, Hto.
        symmetry. apply lookup_take_lt. lia. }
      destruct (Hlook i _ Hc) as (idx & v & Hidx & Hv & Heq).
      exists idx, v. split_and!; [done..|]. by apply digit_char_b2z_inj in Heq.
    - intros Hspell. apply to_bitstring_inj; [by apply is_bytes_take| |].
      { repeat constructor; unfold is_byte; lia. }
      rewrite <- take_to_bitstring, Hto. apply list_eq. intros i.
      destruct (decide (i < 40)%nat) as [Hi|Hi].
      + rewrite lookup_take_lt by lia.
        rewrite (to_bitstring_lookup MARKER i) by (simpl; lia).
        destruct (lookup_lt_is_Some_2 bits i) as [c Hc]; [lia|].
        rewrite Hc. f_equal.
        destruct (Hlook i c Hc) as (idx & v & Hidx & Hv & ->).
        destruct (Hspell i Hi) as (idx' & v' & Hidx' & Hv' & <-).
        congruence.
      + rewrite !lookup_ge_None_2; [done|..].
        * rewrite length_to_bitstring. simpl. lia.
        * rewrite length_take. lia. }
  unfold extract_lsb. rewrite Hopen. cbv zeta. fold data indices.
  change (length MARKER + LENGTH_LEN)%nat with 13%nat.
  change (13 * 8)%nat with 104%nat. rewrite Hil.
  destruct (Nat.ltb_spec (length data) 104); [lia|].
  rewrite Hread. cbn [rbind]. rewrite <- Hto at 1.
  rewrite from_bitstring_to_bitstring by done. cbn [rbind].
  destruct (startswith header MARKER) eqn:Hstart; cbn [negb].
  - split; [|by intros []; apply Hsw].
    intros Herr. exfalso.
    destruct (len indices <? _) in Herr; [done|].
    match type of Herr with
    | context [read_bits ?d ?ix ?n] =>
      pose proof (read_bits_not_marker_error d ix n) as Hrd;
      destruct (read_bits d ix n) as [bs|e]; cbn [rbind] in Herr
    end; [|by injection Herr as ->].
    pose proof (from_bitstring_not_marker_error bs) as Hfb.
    destruct (_from_bitstring bs); cbn [rbind] in Herr; [done|].
    by injection Herr as ->.
  - split; [|done]. intros _ Hspell. apply Hsw in Hspell. congruence.
Qed.
End WrongPassword.

Section WrongPasswordCollision.
Context {IL : ImageLib} {HL : HashLib} {RL : RandomLib}.
Context {ILok : ImageLibOk IL} {HLok : HashLibOk HL}.

(** Whatever the hash, the generator and the image library, for every carrier
    and every frame that fits there are two distinct non-empty passwords such
    that the frame embedded with the one is extracted with the other. *)
Lemma wrong_password_may_extract (carrier F : list Z) (img : rgb_image) :
  image_open_rgb carrier = Some img ->
  is_frame F ->
  (8 * length F <= im_width img * im_height img * 3)%nat ->
  exists (pwd pwd' : string) (stego : list Z),
    pwd <> ""%string /\ pwd' <> ""%string /\ pwd' <> pwd /\
    embed_lsb carrier F pwd = Ok stego /\
    extract_lsb stego pwd' = Ok F.
Proof.
  intros Hopen HF Hfit.
  destruct seed_collision as (pwd & pwd' & Hne & Hne' & Hdiff & Hseed).
  destruct (extract_embed_same_order carrier F pwd pwd' img Hopen HF Hfit)
    as (stego & Hembed & Hextract).
  { unfold extract_lsb_indices, embed_lsb_indices. by rewrite Hseed. }
  by exists pwd, pwd', stego.
Qed.
End WrongPasswordCollision.

(** ** Encryption envelope *)

Section CipherSpec.
Context {CL : CryptoLib} {CLok : CryptoLibOk CL}.

(** The layout of the envelope: [decrypt_payload] finds the salt, the nonce
    and the ciphertext where [encrypt_payload] put them, so that with the same
    password the cipher is run with the same key and nonce. *)
Lemma decrypt_encrypt_roundtrip (payload : list Z) (password : string)
    (e : entropy) :
  decrypt_payload (fst (encrypt_payload payload password e)) password
  = Ok payload.
Proof.
  unfold encrypt_payload.
  pose proof (token_bytes_length SALT_LEN e) as Hsalt.
  destruct (token_bytes SALT_LEN e) as [salt e1]. cbn [fst] in Hsalt.
  pose proof (token_bytes_length NONCE_LEN e1) as Hnonce.
  destruct (token_bytes NONCE_LEN e1) as [nonce e2]. cbn [fst] in Hnonce.
  cbn [fst]. unfold decrypt_payload.
  assert (startswith (ENCR ++ salt ++ nonce ++
                      aesgcm_encrypt (derive_key password salt) nonce payload)
            ENCR = true) as ->.
  { apply startswith_spec. apply take_app_length. }
  cbn [negb]. cbv zeta.
  change 4%nat with (length ENCR) at 1 2 3.
  rewrite drop_app_length. rewrite <- Hsalt at 1. rewrite take_app_length.
  replace (length ENCR + SALT_LEN)%nat with (length (ENCR ++ salt))
    by (by rewrite length_app, Hsalt).
  rewrite !app_assoc, <- (app_assoc _ nonce), drop_app_length.
  rewrite <- Hnonce at 1. rewrite take_app_length.
  replace (length (ENCR ++ salt) + NONCE_LEN)%nat
    with (length ((ENCR ++ salt) ++ nonce))
    by (by rewrite (length_app _ nonce), Hnonce).
  rewrite app_assoc, drop_app_length.
  by rewrite aesgcm_correct.
Qed.
End CipherSpec.

Example decrypt_encrypt_example :
  decrypt_payload (CL := plain_crypto_lib)
    (fst (encrypt_payload (CL := plain_crypto_lib) [104; 105] "pw" 7)) "pw"
  = Ok [104; 105].
Proof. exact (decrypt_encrypt_roundtrip (CLok := plain_crypto_lib_ok) _ _ _). Qed.

(** * Further properties of the code *)

(** ** What [extract_lsb] returns *)

Section ExtractShape.
Context {IL : ImageLib} {HL : HashLib} {RL : RandomLib}.

Lemma read_bits_prefix (data : list Z) (indices : list nat) (n m : nat)
    (bits1 bits2 : list ascii) :
  (n <= m)%nat ->
  read_bits data indices n = Ok bits1 ->
  read_bits data indices m = Ok bits2 ->
  (m <= length indices)%nat ->
  (forall idx, idx ∈ indices -> (idx < length data)%nat) ->
  take n bits2 = bits1.
Proof.
  intros Hnm H1 H2 Hm Hrange.
  destruct (read_bits_ok data indices n) as (b1 & Hr1 & Hl1 & _ & Hlook1);
    [lia|done|].
  destruct (read_bits_ok data indices m) as (b2 & Hr2 & Hl2 & _ & Hlook2);
    [lia|done|].
  assert (b1 = bits1) as -> by congruence.
  assert (b2 = bits2) as -> by congruence.
  apply list_eq. intros i. destruct (decide (i < n)%nat) as [Hi|Hi].
  - rewrite lookup_take_lt by done.
    destruct (lookup_lt_is_Some_2 bits1 i) as [c1 Hc1]; [lia|].
    destruct (lookup_lt_is_Some_2 bits2 i) as [c2 Hc2]; [lia|].
    rewrite Hc1, Hc2. f_equal.
    destruct (Hlook1 i c1 Hc1) as (idx & v & Hidx & Hv & ->).
    destruct (Hlook2 i c2 Hc2) as (idx' & v' & Hidx' & Hv' & ->).
    congruence.
  - rewrite !lookup_ge_None_2; [done|lia|rewrite length_take; lia].
Qed.

Lemma extract_lsb_inv (stego b : list Z) (password : string) (img : rgb_image) :
  image_open_rgb stego = Some img ->
  extract_lsb stego password = Ok b ->
  let data := im_data img in
  let indices := extract_lsb_indices (length data) password in
  exists header,
    is_bytes header /\ length header = 13%nat /\
    startswith header MARKER = true /\
    is_bytes b /\ take 13 b = header /\
    Z.of_nat (length b) = 13 + int_from_bytes (take 8 (drop 5 header)) /\
    (8 * length b <= length data)%nat /\
    read_bits data indices (8 * length b) = Ok (_to_bitstring b).
Proof.
  intros Hopen Hex data indices. unfold extract_lsb in Hex.
  rewrite Hopen in Hex. cbv zeta in Hex. fold data indices in Hex.
  assert (length indices = length data) as Hil
    by apply embed_lsb_indices_length.
  assert (forall idx, idx ∈ indices -> (idx < length data)%nat) as Hrange.
  { intros idx Hidx. by apply embed_lsb_indices_range in Hidx. }
  change (length MARKER + LENGTH_LEN)%nat with 13%nat in Hex.
  change (13 * 8)%nat with 104%nat in Hex. rewrite Hil in Hex.
  destruct (Nat.ltb_spec (length data) 104); [done|].
  destruct (read_bits_ok data indices 104)
    as (bits1 & Hread1 & Hlen1 & Hbc1 & _); [lia|done|].
  rewrite Hread1 in Hex. cbn [rbind] in Hex.
  destruct (bits_are_bitstring 13 bits1 Hlen1 Hbc1) as (header & Hhb & Hto1).
  assert (length header = 13%nat) as Hhl.
  { apply (f_equal length) in Hto1. rewrite length_to_bitstring in Hto1. lia. }
  rewrite <- Hto1 in Hex at 1.
  rewrite from_bitstring_to_bitstring in Hex by done. cbn [rbind] in Hex.
  destruct (startswith header MARKER) eqn:Hstart; cbn [negb] in Hex; [|done].
  assert (slice header (len MARKER) (len MARKER + Z.of_nat LENGTH_LEN)
          = take 8 (drop 5 header)) as Hslice by reflexivity.
  rewrite Hslice in Hex. set (ln := int_from_bytes (take 8 (drop 5 header))) in *.
  assert (0 <= ln) as Hln.
  { apply int_from_bytes_nonneg. by apply is_bytes_take, is_bytes_drop. }
  unfold len in Hex. rewrite Hil in Hex.
  destruct (Z.ltb_spec (Z.of_nat (length data)) ((Z.of_nat 13 + ln) * 8));
    [done|].
  replace (Z.to_nat ((Z.of_nat 13 + ln) * 8)) with (8 * (13 + Z.to_nat ln))%nat
    in Hex by lia.
  destruct (read_bits_ok data indices (8 * (13 + Z.to_nat ln)))
    as (bits2 & Hread2 & Hlen2 & Hbc2 & _); [lia|done|].
  rewrite Hread2 in Hex. cbn [rbind] in Hex.
  destruct (bits_are_bitstring _ bits2 Hlen2 Hbc2) as (all & Hab & Hto2).
  rewrite <- Hto2 in Hex at 1.
  rewrite from_bitstring_to_bitstring in Hex by done. cbn [rbind] in Hex.
  injection Hex as <-.
  assert (length all = (13 + Z.to_nat ln)%nat) as Hal.
  { apply (f_equal length) in Hto2. rewrite length_to_bitstring in Hto2. lia. }
  exists header. split_and!; [done..| | | |].
  - apply to_bitstring_inj; [by apply is_bytes_take|done|].
    rewrite <- take_to_bitstring, Hto1, Hto2.
    apply (read_bits_prefix data indices 104 (8 * (13 + Z.to_nat ln)));
      [lia|done|done|lia|done].
  - lia.
  - lia.
  - by rewrite Hal, Hto2.
Qed.

Lemma extract_lsb_starts_with_marker (stego b : list Z) (password : string) :
  extract_lsb stego password = Ok b -> startswith b MARKER = true.
Proof.
  intros Hex. destruct (image_open_rgb stego) as [img|] eqn:Hopen.
  - destruct (extract_lsb_inv stego b password img Hopen Hex)
      as (header & _ & _ & Hstart & _ & Htake & _).
    apply startswith_spec. apply startswith_spec in Hstart.
    change (length MARKER) with 5%nat in *.
    rewrite <- Hstart, <- Htake, take_take. done.
  - unfold extract_lsb in Hex. by rewrite Hopen in Hex.
Qed.
End ExtractShape.

Section ExtractResult.
Context {IL : ImageLib} {HL : HashLib} {RL : RandomLib}.

(** Whatever [extract_lsb] returns begins with the marker, has the length its
    own length field declares (13 bytes of header included), fits the image,
    and is bit for bit what the least significant bits of the pixels spell in
    the index order of the password. *)
Theorem extract_lsb_result (stego b : list Z) (password : string)
    (img : rgb_image) :
  image_open_rgb stego = Some img ->
  extract_lsb stego password = Ok b ->
  let data := im_data img in
  let indices := extract_lsb_indices (length data) password in
  startswith b MARKER = true /\
  is_bytes b /\
  len b = 13 + int_from_bytes (slice b 5 13) /\
  (8 * length b <= length data)%nat /\
  forall i, (i < 8 * length b)%nat ->
    exists idx v,
      indices !! i = Some idx /\ data !! idx = Some v /\
      Z.testbit v 0 = frame_bit b i.
Proof.
  intros Hopen Hex data indices.
  destruct (extract_lsb_inv stego b password img Hopen Hex)
    as (header & Hhb & Hhl & Hstart & Hb & Htake & Hlen & Hfit & Hread).
  fold data indices in Hfit, Hread.
  split_and!; [by eapply extract_lsb_starts_with_marker|done| |done|].
  - unfold len. rewrite Hlen. do 2 f_equal. rewrite <- Htake. unfold slice.
    change (Z.to_nat 13 - Z.to_nat 5)%nat with 8%nat.
    change (Z.to_nat 5) with 5%nat.
    rewrite !take_drop_commute, take_take. reflexivity.
  - intros i Hi.
    destruct (read_bits_ok data indices (8 * length b))
      as (bits & Hread' & _ & _ & Hlook).
    { assert (length indices = length data) as ->
        by apply embed_lsb_indices_length. done. }
    { intros idx Hidx. by apply embed_lsb_indices_range in Hidx. }
    assert (bits = _to_bitstring b) as -> by congruence.
    destruct (Hlook i _ (to_bitstring_lookup b i Hi)) as (idx & v & ? & ? & Hc).
    exists idx, v. split_and!; [done..|]. symmetry. by apply digit_char_b2z_inj.
Qed.
End ExtractResult.

Lemma extract_lsb_result_witness :
  startswith demo_frame MARKER = true /\
  len demo_frame = 13 + int_from_bytes (slice demo_frame 5 13).
Proof.
  destruct (extract_lsb_result (IL := raw_image_lib) (HL := pad_hash_lib)
              (RL := lcg_lib) demo_stego demo_frame "pw"
              {| im_width := 8; im_height := 5; im_data := drop 2 demo_stego |}
              eq_refl eq_refl) as (Hstart & _ & Hlen & _).
  split; [exact Hstart|exact Hlen].
Defined.

(** ** Extraction with another password *)

Lemma position_of_Some (q : nat) (l : list nat) (i : nat) :
  position_of q l = Some i -> l !! i = Some q.
Proof.
  revert i. induction l as [|x l IH]; intros i; [done|]. cbn [position_of].
  destruct (Nat.eqb_spec x q) as [->|Hne].
  - by intros [= <-].
  - destruct (position_of q l) as [k|]; [|done]. intros [= <-]. by apply IH.
Qed.

Lemma position_of_None (q : nat) (l : list nat) :
  position_of q l = None -> q ∉ l.
Proof.
  induction l as [|x l IH]; [by intros _ ?%elem_of_nil|]. cbn [position_of].
  destruct (Nat.eqb_spec x q) as [->|Hne]; [done|].
  destruct (position_of q l) as [k|]; [done|]. intros _.
  apply not_elem_of_cons. split; [done|by apply IH].
Qed.

Section OtherPassword.
Context {IL : ImageLib} {HL : HashLib} {RL : RandomLib}.

(** With a decodable image of at least 104 channel bytes, [extract_lsb] has
    three outcomes. *)
Lemma extract_lsb_outcomes (stego : list Z) (password : string)
    (img : rgb_image) :
  image_open_rgb stego = Some img ->
  (104 <= length (im_data img))%nat ->
  extract_lsb stego password = Err MarkerNotFoundLSB \/
  extract_lsb stego password = Err DeclaredLengthExceeds \/
  exists b, extract_lsb stego password = Ok b /\ startswith b MARKER = true.
Proof.
  intros Hopen Hsize.
  destruct (extract_lsb stego password) as [b|e] eqn:Hex.
  { right; right. exists b. split; [done|].
    by eapply extract_lsb_starts_with_marker. }
  unfold extract_lsb in Hex. rewrite Hopen in Hex. cbv zeta in Hex.
  set (data := im_data img) in *.
  set (indices := extract_lsb_indices (length data) password) in *.
  assert (length indices = length data) as Hil
    by apply embed_lsb_indices_length.
  assert (forall idx, idx ∈ indices -> (idx < length data)%nat) as Hrange.
  { intros idx Hidx. by apply embed_lsb_indices_range in Hidx. }
  change (length MARKER + LENGTH_LEN)%nat with 13%nat in Hex.
  change (13 * 8)%nat with 104%nat in Hex. rewrite Hil in Hex.
  destruct (Nat.ltb_spec (length data) 104); [lia|].
  destruct (read_bits_ok data indices 104)
    as (bits1 & Hread1 & Hlen1 & Hbc1 & _); [lia|done|].
  rewrite Hread1 in Hex. cbn [rbind] in Hex.
  destruct (bits_are_bitstring 13 bits1 Hlen1 Hbc1) as (header & Hhb & Hto1).
  rewrite <- Hto1 in Hex at 1.
  rewrite from_bitstring_to_bitstring in Hex by done. cbn [rbind] in Hex.
  destruct (startswith header MARKER) eqn:Hstart; cbn [negb] in Hex;
    [|left; congruence].
  assert (slice header (len MARKER) (len MARKER + Z.of_nat LENGTH_LEN)
          = take 8 (drop 5 header)) as Hslice by reflexivity.
  rewrite Hslice in Hex. set (ln := int_from_bytes (take 8 (drop 5 header))) in *.
  assert (0 <= ln) as Hln.
  { apply int_from_bytes_nonneg. by apply is_bytes_take, is_bytes_drop. }
  unfold len in Hex. rewrite Hil in Hex.
  destruct (Z.ltb_spec (Z.of_nat (length data)) ((Z.of_nat 13 + ln) * 8));
    [right; left; congruence|].
  replace (Z.to_nat ((Z.of_nat 13 + ln) * 8)) with (8 * (13 + Z.to_nat ln))%nat
    in Hex by lia.
  destruct (read_bits_ok data indices (8 * (13 + Z.to_nat ln)))
    as (bits2 & Hread2 & Hlen2 & Hbc2 & _); [lia|done|].
  rewrite Hread2 in Hex. cbn [rbind] in Hex.
  destruct (bits_are_bitstring _ bits2 Hlen2 Hbc2) as (all & Hab & Hto2).
  rewrite <- Hto2 in Hex at 1.
  rewrite from_bitstring_to_bitstring in Hex by done. done.
Qed.
End OtherPassword.

Section OtherPasswordSpec.
Context {IL : ImageLib} {HL : HashLib} {RL : RandomLib}.
Context {ILok : ImageLibOk IL}.

(** The least significant bits of the stego image, from the carrier, the
    frame and the index order of the password. *)
Lemma embed_lsb_lsbs (carrier F : list Z) (pwd : string) (img : rgb_image) :
  image_open_rgb carrier = Some img ->
  (8 * length F <= channel_bytes img)%nat ->
  exists data',
    embed_lsb carrier F pwd
    = Ok (png_save (im_width img) (im_height img) data') /\
    image_open_rgb (png_save (im_width img) (im_height img) data')
    = Some {| im_width := im_width img; im_height := im_height img;
              im_data := data' |} /\
    length data' = channel_bytes img /\
    forall q, (q < channel_bytes img)%nat ->
      exists v',
        data' !! q = Some v' /\
        Z.testbit v' 0
        = lsb_after_embed (im_data img)
            (embed_lsb_indices (channel_bytes img) pwd) F q.
Proof.
  intros Hopen Hfit.
  pose proof (image_open_shape _ _ Hopen) as Hshape.
  pose proof (image_open_uint8 _ _ Hopen) as Huint8.
  fold (channel_bytes img) in Hshape.
  destruct (embed_lsb_ok carrier F pwd img Hopen Hfit)
    as (data' & Hembed & Hopen' & Hlen & Hbytes & Hset & Hkeep).
  exists data'. split_and!; [done..|]. intros q Hq.
  destruct (lookup_lt_is_Some_2 (im_data img) q) as [v Hv]; [lia|].
  assert (is_byte v) as Hbv by by eapply (Forall_lookup_1 _ (im_data img)).
  unfold lsb_after_embed.
  destruct (position_of q _) as [i|] eqn:Hpos.
  - apply position_of_Some, lookup_take_Some in Hpos as [Hidx Hi].
    destruct (Hset i q Hi Hidx) as (v0 & Hv0 & Hv').
    eexists. split; [exact Hv'|].
    assert (v0 = v) as -> by congruence.
    by rewrite write_lsb_testbit.
  - apply position_of_None in Hpos. exists v. split.
    + rewrite Hkeep; [done|]. intros i Hi Hidx. apply Hpos.
      apply list_elem_of_lookup. exists i. by apply lookup_take_Some.
    + by rewrite nth_lookup, Hv.
Qed.

(** C5, amended. For a stego image produced by [embed_lsb(I, F, pwd)], what
    [extract_lsb] does with a password [pwd'] follows from the carrier, the
    frame and the index orders of the two passwords: the least significant
    bit at a position is bit [i] of [F] where the order of [pwd] has the
    position at an [i < 8 * len(F)], and the bit of the carrier elsewhere;
    [extract_lsb] raises "Marker not found in LSB data" if and only if at one
    of the first 40 positions of the order of [pwd'] this bit is not the bit
    of the marker.  Otherwise it raises "Declared payload length exceeds
    image capacity" or returns bytes that begin with the marker; and when
    [pwd'] has the index order of [pwd] it returns [F]. *)
Theorem wrong_password_extract (carrier F : list Z) (pwd : string)
    (img : rgb_image) :
  image_open_rgb carrier = Some img ->
  is_frame F ->
  (8 * length F <= im_width img * im_height img * 3)%nat ->
  let N := (im_width img * im_height img * 3)%nat in
  let written := lsb_after_embed (im_data img) (embed_lsb_indices N pwd) F in
  exists stego data',
    embed_lsb carrier F pwd = Ok stego /\
    image_open_rgb stego
    = Some {| im_width := im_width img; im_height := im_height img;
              im_data := data' |} /\
    length data' = N /\
    (forall q, (q < N)%nat ->
       exists v', data' !! q = Some v' /\ Z.testbit v' 0 = written q) /\
    forall pwd' : string,
      let order' := extract_lsb_indices N pwd' in
      (extract_lsb stego pwd' = Err MarkerNotFoundLSB <->
       exists k q, (k < 40)%nat /\ order' !! k = Some q /\
                   written q <> frame_bit MARKER k) /\
      (extract_lsb stego pwd' = Err MarkerNotFoundLSB \/
       extract_lsb stego pwd' = Err DeclaredLengthExceeds \/
       exists b, extract_lsb stego pwd' = Ok b /\ startswith b MARKER = true) /\
      (order' = embed_lsb_indices N pwd -> extract_lsb stego pwd' = Ok F).
Proof.
  intros Hopen HF Hfit N written.
  destruct (embed_lsb_lsbs carrier F pwd img Hopen Hfit)
    as (data' & Hembed & Hopen' & Hlen & Hlsb).
  unfold channel_bytes in Hlen, Hlsb. fold N in Hlen, Hlsb. fold written in Hlsb.
  pose proof (is_frame_length F HF) as HFl.
  eexists _, data'. split_and!; [exact Hembed|exact Hopen'|exact Hlen|exact Hlsb|].
  intros pwd' order'. split_and!.
  - rewrite (extract_lsb_marker_check _ pwd' _ Hopen')
      by (cbn [im_data]; unfold N in Hlen; lia).
    cbn [im_data]. rewrite Hlen. fold order'.
    assert (length order' = N) as Hol by apply embed_lsb_indices_length.
    split.
    + intros Hnot.
      destruct (decide (Forall (fun k => written (order' !!! k)
                                         = frame_bit MARKER k) (seq 0 40)))
        as [Hall|Hsome].
      * destruct Hnot. intros k Hk.
        assert (order' !! k = Some (order' !!! k)) as Hq
          by (apply list_lookup_lookup_total_lt; unfold N in Hol; lia).
        destruct (Hlsb (order' !!! k)) as (v' & Hv' & Hbit).
        { apply (embed_lsb_indices_range N pwd').
          by eapply list_elem_of_lookup_2. }
        exists (order' !!! k), v'. split_and!; [done..|].
        rewrite Hbit. apply (proj1 (Forall_forall _ _) Hall).
        apply elem_of_seq. lia.
      * apply not_Forall_Exists in Hsome; [|apply _].
        apply Exists_exists in Hsome as (k & Hk%elem_of_seq & Hne).
        exists k, (order' !!! k). split_and!; [lia| |done].
        apply list_lookup_lookup_total_lt. unfold N in Hol. lia.
    + intros (k & q & Hk & Hq & Hne) Hspell.
      destruct (Hspell k Hk) as (idx & v & Hidx & Hv & Hbit).
      assert (idx = q) as -> by congruence.
      destruct (Hlsb q) as (v' & Hv' & Hbit').
      { apply (embed_lsb_indices_range N pwd'). by eapply list_elem_of_lookup_2. }
      apply Hne. congruence.
  - apply (extract_lsb_outcomes _ pwd' _ Hopen'). cbn [im_data].
    unfold N in Hlen. lia.
  - intros Horder.
    destruct (extract_embed_same_order carrier F pwd pwd' img Hopen HF Hfit Horder)
      as (stego & Hembed' & Hextract).
    rewrite Hembed in Hembed'. by injection Hembed' as <-.
Qed.
End OtherPasswordSpec.

Lemma is_bytes_forallb (data : list Z) :
  forallb (fun b => (0 <=? b) && (b <? 256)) data = true -> is_bytes data.
Proof.
  rewrite forallb_forall. intros H. apply Forall_forall. intros x Hx.
  apply list_elem_of_In, H in Hx. unfold is_byte. lia.
Qed.

Lemma extract_order_embed_order {HL : HashLib} {RL : RandomLib} (N : nat)
    (password : string) :
  extract_lsb_indices N password = embed_lsb_indices N password.
Proof. reflexivity. Qed.

Lemma wrong_password_extract_witness :
  exists stego,
    embed_lsb (IL := raw_image_lib) (HL := sha256_lib) (RL := mt_lib)
      demo_carrier demo_frame "pw" = Ok stego /\
    extract_lsb (IL := raw_image_lib) (HL := sha256_lib) (RL := mt_lib)
      stego "pz" = Err MarkerNotFoundLSB /\
    extract_lsb (IL := raw_image_lib) (HL := sha256_lib) (RL := mt_lib)
      stego "pw" = Ok demo_frame.
Proof.
  destruct (wrong_password_extract (ILok := raw_image_lib_ok)
              (HL := sha256_lib) (RL := mt_lib)
              demo_carrier demo_frame "pw" demo_image
              demo_carrier_open demo_frame_is_frame)
    as (stego & data' & Hembed & _ & _ & _ & Hpwd).
  { simpl. lia. }
  exists stego. split_and!; [exact Hembed| |].
  - apply (proj1 (Hpwd "pz"%string)). exists 0%nat, 16%nat.
    split_and!; [lia|vm_compute; reflexivity|vm_compute; discriminate].
  - apply (proj2 (proj2 (Hpwd "pw"%string))). apply extract_order_embed_order.
Defined.

(** A carrier that already holds a frame.  In the black image [demo_frame]
    is embedded with the password "pz", and in the result [other_frame] with
    the password "pw".  [extract_lsb] with "pw" returns [other_frame]; with
    "pz" it finds the marker and the length of the first frame where they
    were, and returns 15 bytes that begin with the marker, with a payload
    ("Xa") that was never embedded. *)
Lemma held_frame_extracted {IL : ImageLib} {ILok : ImageLibOk IL}
    (blank : list Z) :
  image_open_rgb blank = Some blank_image ->
  exists carrier stego,
    embed_lsb (HL := sha256_lib) (RL := mt_lib) blank demo_frame "pz"
    = Ok carrier /\
    embed_lsb (HL := sha256_lib) (RL := mt_lib) carrier other_frame "pw"
    = Ok stego /\
    extract_lsb (HL := sha256_lib) (RL := mt_lib) stego "pw"
    = Ok other_frame /\
    extract_lsb (HL := sha256_lib) (RL := mt_lib) stego "pz"
    = Ok (MARKER ++ [0; 0; 0; 0; 0; 0; 0; 2] ++ [88; 97]).
Proof.
  intros Hblank.
  assert (embed_lsb_array (HL := sha256_lib) (RL := mt_lib)
            (im_data blank_image) demo_frame "pz" = (Ok tt, held_data)) as Hrun1
    by (vm_compute; reflexivity).
  assert (embed_lsb_array (HL := sha256_lib) (RL := mt_lib)
            held_data other_frame "pw" = (Ok tt, twice_data)) as Hrun2
    by (vm_compute; reflexivity).
  assert (image_open_rgb (png_save 22 18 held_data)
          = Some {| im_width := 22; im_height := 18; im_data := held_data |})
    as Hheld.
  { apply (png_lossless blank blank_image held_data Hblank).
    - vm_compute; reflexivity.
    - apply is_bytes_forallb. vm_compute; reflexivity. }
  assert (image_open_rgb (png_save 22 18 twice_data)
          = Some {| im_width := 22; im_height := 18; im_data := twice_data |})
    as Htwice.
  { apply (png_lossless _ _ twice_data Hheld).
    - vm_compute; reflexivity.
    - apply is_bytes_forallb. vm_compute; reflexivity. }
  exists (png_save 22 18 held_data), (png_save 22 18 twice_data).
  split_and!.
  - unfold embed_lsb. rewrite Hblank. cbv zeta. by rewrite Hrun1.
  - unfold embed_lsb. rewrite Hheld. cbv zeta. cbn [im_data]. by rewrite Hrun2.
  - unfold extract_lsb. rewrite Htwice. vm_compute; reflexivity.
  - unfold extract_lsb. rewrite Htwice. vm_compute; reflexivity.
Qed.

(** On the uncompressed raster format, where the black image is the two
    sizes followed by 1188 zeros. *)
Example held_frame_extracted_raw :
  exists carrier stego,
    embed_lsb (IL := raw_image_lib) (HL := sha256_lib) (RL := mt_lib)
      (raw_save 22 18 (replicate 1188 0)) demo_frame "pz" = Ok carrier /\
    embed_lsb (IL := raw_image_lib) (HL := sha256_lib) (RL := mt_lib)
      carrier other_frame "pw" = Ok stego /\
    extract_lsb (IL := raw_image_lib) (HL := sha256_lib) (RL := mt_lib)
      stego "pw" = Ok other_frame /\
    extract_lsb (IL := raw_image_lib) (HL := sha256_lib) (RL := mt_lib)
      stego "pz" = Ok (MARKER ++ [0; 0; 0; 0; 0; 0; 0; 2] ++ [88; 97]).
Proof. by apply (held_frame_extracted (ILok := raw_image_lib_ok)). Qed.

(** C5, as stated, fails: for every image library whose PNG is lossless, on
    the carrier that already holds a frame, [extract_lsb] with a password
    that differs from the one of [embed_lsb] does not raise, and returns
    bytes that begin with the marker. *)
Lemma wrong_password_counterexample :
  "pz"%string <> "pw"%string /\
  forall (IL : ImageLib), ImageLibOk IL ->
  forall blank : list Z, image_open_rgb blank = Some blank_image ->
    exists carrier stego,
      embed_lsb (HL := sha256_lib) (RL := mt_lib) blank demo_frame "pz"
      = Ok carrier /\
      embed_lsb (HL := sha256_lib) (RL := mt_lib) carrier other_frame "pw"
      = Ok stego /\
      extract_lsb (HL := sha256_lib) (RL := mt_lib) stego "pw"
      = Ok other_frame /\
      extract_lsb (HL := sha256_lib) (RL := mt_lib) stego "pz"
      = Ok (MARKER ++ [0; 0; 0; 0; 0; 0; 0; 2] ++ [88; 97]).
Proof.
  split; [done|]. intros IL ILok blank. apply held_frame_extracted.
Qed.

(** ** What [unpack_stego] returns *)

Lemma int_from_bytes_snoc (bs : list Z) (x : Z) :
  int_from_bytes (bs ++ [x]) = int_from_bytes bs * 256 + x.
Proof. unfold int_from_bytes. by rewrite fold_left_app. Qed.

Lemma be_digits_of_bytes (bs : list Z) :
  is_bytes bs -> be_digits (length bs) (int_from_bytes bs) = bs.
Proof.
  induction bs as [|x bs IH] using rev_ind; intros Hbs; [done|].
  apply Forall_app in Hbs as [Hbs Hx]. apply Forall_cons in Hx as [Hx _].
  rewrite length_app, Nat.add_comm. cbn [length Nat.add be_digits].
  rewrite int_from_bytes_snoc. unfold is_byte in Hx.
  replace ((int_from_bytes bs * 256 + x) / 256) with (int_from_bytes bs)
    by (symmetry; rewrite Z.div_add_l by lia;
        rewrite Z.div_small by lia; lia).
  rewrite IH by done. f_equal. f_equal.
  rewrite Z.add_comm, Z.mod_add by lia. apply Z.mod_small. lia.
Qed.

Lemma int_from_bytes_bound (bs : list Z) :
  is_bytes bs -> 0 <= int_from_bytes bs < 256 ^ Z.of_nat (length bs).
Proof.
  intros Hbs. split; [by apply int_from_bytes_nonneg|].
  rewrite <- (be_digits_of_bytes bs Hbs) at 1.
  rewrite int_from_bytes_be_digits by by apply int_from_bytes_nonneg.
  apply Z.mod_pos_bound. apply Z.pow_pos_nonneg; lia.
Qed.

(** Whatever [unpack_stego] returns is framed in the container: the container
    is [pack_stego(pre, p)] followed by some bytes, and the marker does not
    occur after offset [len(pre)]. *)
Theorem unpack_stego_sound (full p : list Z) :
  is_bytes full ->
  unpack_stego full = Ok p ->
  exists pre suf packed,
    pack_stego pre p = Ok packed /\
    full = packed ++ suf /\
    rfind full MARKER = len pre /\
    forall j, (length pre < j)%nat -> ~ occurs_at full MARKER j.
Proof.
  intros Hbytes Hun.
  destruct (rfind_spec full MARKER MARKER_nonempty)
    as [[Hr _]|(k & Hr & Hk & Hlast)].
  { unfold unpack_stego in Hun. by rewrite Hr in Hun. }
  rewrite (unpack_stego_at _ _ Hr) in Hun. cbv zeta in Hun.
  destruct (Z.ltb_spec (len full) (Z.of_nat k + 13)) as [|Hlong]; [done|].
  set (lnb := take 8 (drop (k + 5) full)) in *.
  assert (is_bytes lnb) as Hlnb by by apply is_bytes_take, is_bytes_drop.
  assert (length lnb = 8%nat) as Hlnl.
  { unfold lnb, len in *. rewrite length_take, length_drop. lia. }
  pose proof (int_from_bytes_bound lnb Hlnb) as HL. rewrite Hlnl in HL.
  set (L := int_from_bytes lnb) in *.
  destruct (Z.ltb_spec (len full) (Z.of_nat k + 13 + L)) as [|Hend]; [done|].
  injection Hun as <-. unfold len in *.
  set (p := take (Z.to_nat L) (drop (k + 13) full)).
  assert (length p = Z.to_nat L) as Hpl.
  { unfold p. rewrite length_take, length_drop. lia. }
  assert (be_digits 8 (Z.of_nat (length p)) = lnb) as Hdig.
  { rewrite Hpl, Z2Nat.id by lia. rewrite <- Hlnl. by apply be_digits_of_bytes. }
  exists (take k full), (drop (k + 13 + Z.to_nat L) full),
    (take k full ++ MARKER ++ lnb ++ p).
  assert (length (take k full) = k) as Hprel by (rewrite length_take; lia).
  split_and!.
  - unfold pack_stego, len. change LENGTH_LEN with 8%nat.
    rewrite int_to_bytes_ok.
    + cbn [rbind]. by rewrite Hdig.
    + rewrite Hpl, Z2Nat.id by lia. exact HL.
  - rewrite <- (take_drop k full) at 1. rewrite <- !app_assoc. f_equal.
    rewrite <- (take_drop 5 (drop k full)) at 1.
    unfold occurs_at in Hk. change (length MARKER) with 5%nat in Hk.
    rewrite Hk, drop_drop. f_equal.
    rewrite <- (take_drop 8 (drop (k + 5) full)) at 1. fold lnb. f_equal.
    rewrite drop_drop. replace (k + 5 + 8)%nat with (k + 13)%nat by lia.
    rewrite <- (take_drop (Z.to_nat L) (drop (k + 13) full)) at 1. fold p.
    by rewrite drop_drop.
  - by rewrite Hr, Hprel.
  - rewrite Hprel. exact Hlast.
Qed.

Lemma unpack_stego_sound_witness :
  exists pre suf packed,
    pack_stego pre [119; 111; 114; 108; 100] = Ok packed /\
    [104; 101; 108; 108; 111; 83; 84; 69; 71; 48;
     0; 0; 0; 0; 0; 0; 0; 5; 119; 111; 114; 108; 100; 33; 33] = packed ++ suf.
Proof.
  destruct (unpack_stego_sound
              [104; 101; 108; 108; 111; 83; 84; 69; 71; 48;
               0; 0; 0; 0; 0; 0; 0; 5; 119; 111; 114; 108; 100; 33; 33]
              [119; 111; 114; 108; 100])
    as (pre & suf & packed & Hpack & Hfull & _).
  - repeat constructor; unfold is_byte; lia.
  - reflexivity.
  - by exists pre, suf, packed.
Defined.

(** Bytes after the frame are ignored: if the marker does not occur in what
    follows the appended marker (length field, payload, trailing bytes), the
    container followed by any trailing bytes still unpacks to the payload. *)
Theorem unpack_stego_trailing (C P T : list Z) :
  len P < 2 ^ 64 ->
  (forall j, ~ occurs_at (be_digits 8 (len P) ++ P ++ T) MARKER j) ->
  exists full,
    pack_stego C P = Ok full /\ unpack_stego (full ++ T) = Ok P.
Proof.
  intros HP Hnone. eexists. split; [by apply pack_stego_ok|].
  set (ln := be_digits 8 (len P)) in *.
  assert (length ln = 8%nat) as Hln by apply length_be_digits.
  replace ((C ++ MARKER ++ ln ++ P) ++ T) with (C ++ MARKER ++ ln ++ P ++ T)
    by by rewrite <- !app_assoc.
  assert (rfind (C ++ MARKER ++ ln ++ P ++ T) MARKER = len C) as Hr.
  { apply rfind_last; [done|apply occurs_at_marker|].
    intros j Hj [_ Ho]%occurs_after_marker; [|done]. by apply Hnone in Ho. }
  rewrite (unpack_stego_at _ (length C)) by done.
  assert (len (C ++ MARKER ++ ln ++ P ++ T) = len C + 13 + len P + len T) as ->.
  { unfold len. rewrite !length_app, Hln. simpl. lia. }
  fold (len C).
  destruct (Z.ltb_spec (len C + 13 + len P + len T) (len C + 13));
    [unfold len in *; lia|].
  assert (drop (length C + 5) (C ++ MARKER ++ ln ++ P ++ T) = ln ++ P ++ T) as ->.
  { rewrite drop_app_add. reflexivity. }
  assert (drop (length C + 13) (C ++ MARKER ++ ln ++ P ++ T) = P ++ T) as ->.
  { rewrite drop_app_add.
    change (drop 13 (MARKER ++ ln ++ P ++ T)) with (drop 8 (ln ++ P ++ T)).
    rewrite <- Hln. by rewrite drop_app_length. }
  assert (take 8 (ln ++ P ++ T) = ln) as ->.
  { rewrite <- Hln. apply take_app_length. }
  cbv zeta. unfold ln. rewrite int_from_bytes_be_digits by (unfold len; lia).
  rewrite Z.mod_small by (unfold len in *; split; [lia|exact HP]).
  destruct (Z.ltb_spec (len C + 13 + len P + len T) (len C + 13 + len P));
    [unfold len in *; lia|].
  f_equal. unfold len. rewrite Nat2Z.id. apply take_app_length.
Qed.

Lemma unpack_stego_trailing_witness :
  exists full,
    pack_stego [104; 101; 108; 108; 111] [119; 111; 114; 108; 100] = Ok full /\
    unpack_stego (full ++ [33; 33]) = Ok [119; 111; 114; 108; 100].
Proof.
  apply (unpack_stego_trailing [104; 101; 108; 108; 111]
           [119; 111; 114; 108; 100] [33; 33]); [by vm_compute|].
  intros j Ho.
  change (be_digits 8 (len [119; 111; 114; 108; 100])
          ++ [119; 111; 114; 108; 100] ++ [33; 33])
    with [0; 0; 0; 0; 0; 0; 0; 5; 119; 111; 114; 108; 100; 33; 33] in Ho.
  no_marker_at j I Ho.
Defined.

(** ** Bit strings, both ways *)

(** [_to_bitstring] writes 8 binary digits per byte, and [_from_bitstring]
    reads them back. *)
Theorem to_bitstring_roundtrip (b : list Z) :
  is_bytes b ->
  length (_to_bitstring b) = (8 * length b)%nat /\
  Forall is_bit_char (_to_bitstring b) /\
  _from_bitstring (_to_bitstring b) = Ok b.
Proof.
  intros Hb. split_and!.
  - apply length_to_bitstring.
  - apply to_bitstring_bits.
  - by apply from_bitstring_to_bitstring.
Qed.

Lemma to_bitstring_roundtrip_witness :
  _from_bitstring (_to_bitstring [83; 0; 255]) = Ok [83; 0; 255].
Proof.
  apply (to_bitstring_roundtrip [83; 0; 255]).
  repeat constructor; unfold is_byte; lia.
Defined.

(** On a string of binary digits [_from_bitstring] raises "Bitstring length
    not multiple of 8" when the length is no multiple of 8, and otherwise
    returns bytes whose bit string is the input. *)
Theorem from_bitstring_bits (bits : list ascii) :
  Forall is_bit_char bits ->
  ((length bits mod 8)%nat <> 0%nat ->
     _from_bitstring bits = Err BitstringNotMultipleOf8) /\
  ((length bits mod 8)%nat = 0%nat ->
     exists b,
       _from_bitstring bits = Ok b /\ is_bytes b /\
       (8 * length b)%nat = length bits /\ _to_bitstring b = bits).
Proof.
  intros Hbits. split.
  - intros Hmod. unfold _from_bitstring.
    by destruct (Nat.eqb_spec (length bits mod 8) 0).
  - intros Hmod.
    destruct (bits_are_bitstring (length bits / 8) bits) as (b & Hb & Hto).
    { pose proof (Nat.div_mod_eq (length bits) 8). lia. }
    { done. }
    exists b. split_and!; [|done| |done].
    + rewrite <- Hto. by apply from_bitstring_to_bitstring.
    + by rewrite <- Hto, length_to_bitstring.
Qed.

Lemma from_bitstring_bits_witness :
  _from_bitstring ["0"; "1"; "0"]%char = Err BitstringNotMultipleOf8 /\
  exists b, _from_bitstring ["0"; "1"; "0"; "1"; "0"; "0"; "1"; "1"]%char = Ok b /\
            _to_bitstring b = ["0"; "1"; "0"; "1"; "0"; "0"; "1"; "1"]%char.
Proof.
  split.
  - apply (from_bitstring_bits ["0"; "1"; "0"]%char).
    + repeat constructor; (by left) || (by right).
    + by vm_compute.
  - destruct (from_bitstring_bits
                ["0"; "1"; "0"; "1"; "0"; "0"; "1"; "1"]%char) as [_ Hok].
    + repeat constructor; (by left) || (by right).
    + destruct (Hok eq_refl) as (b & Hb & _ & _ & Hto). by exists b.
Defined.

(** ** The encrypted envelope *)

Section Envelope.
Context {CL : CryptoLib} {CLok : CryptoLibOk CL}.

(** The envelope of [encrypt_payload] is the tag "ENCR", 16 bytes of salt, 12
    bytes of nonce and the ciphertext under the key derived from the password
    and that salt; [decrypt_payload] with the same password gives the payload
    back, the cipher decrypting what it encrypted. *)
Theorem encrypt_payload_envelope (payload : list Z) (password : string)
    (e : entropy) :
  let envelope := fst (encrypt_payload payload password e) in
  exists salt nonce,
    length salt = 16%nat /\ length nonce = 12%nat /\
    envelope
    = ENCR ++ salt ++ nonce
      ++ aesgcm_encrypt (derive_key password salt) nonce payload /\
    startswith envelope ENCR = true /\
    startswith envelope PLND = false /\
    decrypt_payload envelope password = Ok payload.
Proof.
  intros envelope.
  pose proof (decrypt_encrypt_roundtrip payload password e) as Hrt.
  fold envelope in Hrt. unfold envelope, encrypt_payload in *.
  pose proof (token_bytes_length SALT_LEN e) as Hsalt.
  destruct (token_bytes SALT_LEN e) as [salt e1]. cbn [fst] in Hsalt.
  pose proof (token_bytes_length NONCE_LEN e1) as Hnonce.
  destruct (token_bytes NONCE_LEN e1) as [nonce e2]. cbn [fst] in Hnonce.
  cbn [fst] in *. exists salt, nonce. split_and!; [done..| | |done].
  - apply startswith_spec. apply take_app_length.
  - reflexivity.
Qed.
End Envelope.

Lemma encrypt_payload_envelope_witness :
  decrypt_payload (CL := plain_crypto_lib)
    (fst (encrypt_payload (CL := plain_crypto_lib) [104; 105] "pw" 7)) "pw"
  = Ok [104; 105].
Proof.
  destruct (encrypt_payload_envelope (CLok := plain_crypto_lib_ok)
              [104; 105] "pw" 7) as (salt & nonce & _ & _ & _ & _ & _ & Hdec).
  exact Hdec.
Defined.

(** ** Password strength *)

Lemma list_ascii_of_string_app (s1 s2 : string) :
  list_ascii_of_string (s1 +:+ s2)
  = list_ascii_of_string s1 ++ list_ascii_of_string s2.
Proof. induction s1 as [|c s1 IH]; simpl; [done|]. by rewrite IH. Qed.

Lemma str_len_app (s1 s2 : string) :
  str_len (s1 +:+ s2) = (str_len s1 + str_len s2)%nat.
Proof.
  unfold str_len. by rewrite list_ascii_of_string_app, List.filter_app, length_app.
Qed.

Lemma re_search_class_app (cls : ascii -> bool) (s1 s2 : string) :
  re_search_class cls (s1 +:+ s2)
  = re_search_class cls s1 || re_search_class cls s2.
Proof.
  unfold re_search_class. by rewrite list_ascii_of_string_app, existsb_app.
Qed.

Lemma str_len_le (s : string) : (str_len s <= String.length s)%nat.
Proof.
  unfold str_len. induction s as [|c s IH]; simpl; [done|].
  destruct (negb (is_continuation c)); simpl; lia.
Qed.

(** A strong password has at least 10 characters (so it is not empty and has
    at least 10 bytes), and it stays strong when characters are added in
    front of it or behind it. *)
Theorem is_strong_password_extend (pwd before after : string) :
  is_strong_password pwd = true ->
  (10 <= str_len pwd <= String.length pwd)%nat /\
  pwd <> ""%string /\
  is_strong_password (before +:+ pwd +:+ after) = true.
Proof.
  unfold is_strong_password. rewrite !andb_true_iff, Nat.leb_le.
  intros ((((Hlen & Hu) & Hl) & Hd) & Hs).
  split; [split; [done|apply str_len_le]|]. split.
  - intros ->. change (str_len "") with 0%nat in Hlen. lia.
  - rewrite !str_len_app, !re_search_class_app, Hu, Hl, Hd, Hs.
    cbn [orb]. rewrite !orb_true_r. split_and!; [apply Nat.leb_le; lia|done..].
Qed.

Lemma is_strong_password_extend_witness :
  is_strong_password ("x" +:+ "Tr0ub4dor&3x" +:+ "yz") = true.
Proof.
  apply (is_strong_password_extend "Tr0ub4dor&3x" "x" "yz"). reflexivity.
Defined.

(** ** Decryption with another password *)

Section KeyPadding.
Context {HL : HashLib}.

(** A key shorter than a block and the same key followed by a zero byte are
    filled up to the same block. *)
Lemma hmac_sha256_key_nul (key msg : list Z) :
  (length key < 64)%nat ->
  hmac_sha256 (key ++ [0]) msg = hmac_sha256 key msg.
Proof.
  intros Hlen. unfold hmac_sha256. rewrite length_app. cbn [length].
  destruct (Nat.ltb_spec 64 (length key + 1)); [lia|].
  destruct (Nat.ltb_spec 64 (length key)); [lia|].
  cbv zeta. rewrite length_app. cbn [length].
  replace (64 - length key)%nat with (S (64 - (length key + 1))) by lia.
  cbn [replicate]. by rewrite <- app_assoc.
Qed.

Lemma pbkdf2_rounds_key_nul (c : nat) (key u t : list Z) :
  (length key < 64)%nat ->
  pbkdf2_rounds c (key ++ [0]) u t = pbkdf2_rounds c key u t.
Proof.
  intros Hlen. revert u t. induction c as [|c IH]; intros u t; [done|].
  cbn [pbkdf2_rounds]. by rewrite hmac_sha256_key_nul, IH.
Qed.

Lemma pbkdf2_key_nul (dklen : nat) (salt : list Z) (iterations : Z)
    (key : list Z) :
  (length key < 64)%nat ->
  pbkdf2 dklen salt iterations (key ++ [0]) = pbkdf2 dklen salt iterations key.
Proof.
  intros Hlen. unfold pbkdf2. do 2 f_equal. apply map_ext. intros i.
  unfold pbkdf2_block. by rewrite hmac_sha256_key_nul, pbkdf2_rounds_key_nul.
Qed.
End KeyPadding.

Lemma string_app_nul_ne (s : string) : (s ++ NUL)%string <> s.
Proof.
  intros Heq. apply (f_equal (fun x => length (list_ascii_of_string x))) in Heq.
  rewrite list_ascii_of_string_app, length_app in Heq. cbn in Heq. lia.
Qed.

Lemma str_encode_app (s1 s2 : string) :
  str_encode (s1 ++ s2) = str_encode s1 ++ str_encode s2.
Proof. unfold str_encode. by rewrite list_ascii_of_string_app, map_app. Qed.

Section OtherKey.
Context {CL : CryptoLib} {CLok : CryptoLibOk CL}.

(** [decrypt_payload] on an envelope with a salt of 16 bytes and a nonce of 12
    bytes: the cipher is run on these fields, with the key derived from the
    password and this salt, and its verdict is the result. *)
Lemma decrypt_payload_fields (salt nonce ct : list Z) (password : string) :
  length salt = SALT_LEN -> length nonce = NONCE_LEN ->
  decrypt_payload (ENCR ++ salt ++ nonce ++ ct) password
  = match aesgcm_decrypt (derive_key password salt) nonce ct with
    | Some payload => Ok payload
    | None => Err InvalidTag
    end.
Proof.
  intros Hsalt Hnonce. unfold decrypt_payload.
  assert (startswith (ENCR ++ salt ++ nonce ++ ct) ENCR = true) as ->.
  { apply startswith_spec. apply take_app_length. }
  cbn [negb]. cbv zeta.
  change 4%nat with (length ENCR) at 1 2 3.
  rewrite drop_app_length. rewrite <- Hsalt at 1. rewrite take_app_length.
  replace (length ENCR + SALT_LEN)%nat with (length (ENCR ++ salt))
    by (by rewrite length_app, Hsalt).
  rewrite !app_assoc, <- (app_assoc _ nonce), drop_app_length.
  rewrite <- Hnonce at 1. rewrite take_app_length.
  replace (length (ENCR ++ salt) + NONCE_LEN)%nat
    with (length ((ENCR ++ salt) ++ nonce))
    by (by rewrite (length_app _ nonce), Hnonce).
  by rewrite app_assoc, drop_app_length.
Qed.

(** The envelope of [encrypt_payload], by its fields. *)
Lemma encrypt_payload_fields (payload : list Z) (password : string)
    (e : entropy) :
  let salt := fst (token_bytes SALT_LEN e) in
  let nonce := fst (token_bytes NONCE_LEN (snd (token_bytes SALT_LEN e))) in
  fst (encrypt_payload payload password e)
  = ENCR ++ salt ++ nonce
      ++ aesgcm_encrypt (derive_key password salt) nonce payload.
Proof.
  unfold encrypt_payload. destruct (token_bytes SALT_LEN e) as [salt e1].
  cbn [fst snd]. by destruct (token_bytes NONCE_LEN e1) as [nonce e2].
Qed.

(** A password that derives the key of the envelope decrypts it. *)
Lemma decrypt_payload_same_key (payload : list Z) (password pwd' : string)
    (e : entropy) :
  derive_key pwd' (fst (token_bytes SALT_LEN e))
  = derive_key password (fst (token_bytes SALT_LEN e)) ->
  decrypt_payload (fst (encrypt_payload payload password e)) pwd' = Ok payload.
Proof.
  intros Hkey. rewrite encrypt_payload_fields. cbv zeta.
  rewrite decrypt_payload_fields by apply token_bytes_length.
  by rewrite Hkey, aesgcm_correct.
Qed.
End OtherKey.

Section OtherKeySpec.
Context {CL : CryptoLib} {HL : HashLib}.
Context {CLok : CryptoLibOk CL} {KDF : Pbkdf2Hmac CL HL}.

Lemma derive_key_nul (password : string) (salt : list Z) :
  (length (str_encode password) < 64)%nat ->
  derive_key (password ++ NUL) salt = derive_key password salt.
Proof.
  intros Hlen. unfold derive_key.
  rewrite !pbkdf2_hmac_sha256_spec, str_encode_app.
  by apply pbkdf2_key_nul.
Qed.

(** C3, amended. [decrypt_payload(encrypt_payload(P, pwd), pwd) == P].  On
    an envelope with a salt of 16 and a nonce of 12 bytes, as
    [encrypt_payload] makes it and as it stays when bits of it are flipped,
    [decrypt_payload] with any password returns what AES-GCM returns for the
    nonce and the ciphertext of the envelope under the key derived from this
    password and the salt of the envelope, and raises [InvalidTag] exactly
    when AES-GCM does: the rejection of another password, or of a modified
    envelope, is the one of the library.  Not every other password is
    rejected: a password that derives the same key decrypts [P], and
    [pwd + "\x00"] derives the key of [pwd] whenever [pwd.encode()] has fewer
    than 64 bytes, because HMAC fills its key up with zero bytes. *)
Theorem decrypt_payload_passwords (payload : list Z) (password : string)
    (e : entropy) :
  let enc := fst (encrypt_payload payload password e) in
  let salt := fst (token_bytes SALT_LEN e) in
  decrypt_payload enc password = Ok payload /\
  (forall (salt' nonce' ct' : list Z) (pwd' : string),
     length salt' = SALT_LEN -> length nonce' = NONCE_LEN ->
     decrypt_payload (ENCR ++ salt' ++ nonce' ++ ct') pwd'
     = match aesgcm_decrypt (derive_key pwd' salt') nonce' ct' with
       | Some p => Ok p
       | None => Err InvalidTag
       end) /\
  (exists nonce ct,
     enc = ENCR ++ salt ++ nonce ++ ct /\
     length salt = SALT_LEN /\ length nonce = NONCE_LEN) /\
  (forall pwd' : string,
     derive_key pwd' salt = derive_key password salt ->
     decrypt_payload enc pwd' = Ok payload) /\
  ((length (str_encode password) < 64)%nat ->
   (password ++ NUL)%string <> password /\
   decrypt_payload enc (password ++ NUL) = Ok payload).
Proof.
  intros enc salt. split_and!.
  - by apply decrypt_payload_same_key.
  - intros salt' nonce' ct' pwd'. apply decrypt_payload_fields.
  - eexists _, _. split_and!; [apply encrypt_payload_fields|..];
      apply token_bytes_length.
  - intros pwd'. apply decrypt_payload_same_key.
  - intros Hlen. split.
    + apply string_app_nul_ne.
    + apply decrypt_payload_same_key. by apply derive_key_nul.
Qed.
End OtherKeySpec.

Lemma pbkdf2_crypto_lib_ok : CryptoLibOk pbkdf2_crypto_lib.
Proof.
  split.
  - apply (token_bytes_length (CryptoLibOk := plain_crypto_lib_ok)).
  - apply (aesgcm_correct (CryptoLibOk := plain_crypto_lib_ok)).
Qed.

Lemma pbkdf2_crypto_lib_kdf : Pbkdf2Hmac pbkdf2_crypto_lib sha256_lib.
Proof. by split. Qed.

Lemma decrypt_payload_passwords_witness :
  decrypt_payload (CL := pbkdf2_crypto_lib)
    (fst (encrypt_payload (CL := pbkdf2_crypto_lib) [104; 105] "pw" 7)) "pw"
  = Ok [104; 105] /\
  decrypt_payload (CL := pbkdf2_crypto_lib)
    (fst (encrypt_payload (CL := pbkdf2_crypto_lib) [104; 105] "pw" 7))
    ("pw" ++ NUL)
  = Ok [104; 105].
Proof.
  destruct (decrypt_payload_passwords (CLok := pbkdf2_crypto_lib_ok)
              (KDF := pbkdf2_crypto_lib_kdf) [104; 105] "pw" 7)
    as (Hsame & _ & _ & _ & Hnul).
  split; [exact Hsame|]. apply Hnul. vm_compute. lia.
Defined.

(** C3, as stated, fails: the envelope made with the password "pw" is
    decrypted with the different password "pw\x00", whatever the payload, the
    salt and the nonce, for every cipher that decrypts what it encrypted and
    every hash function under the HMAC of the key derivation. *)
Lemma other_password_decrypts :
  ("pw" ++ NUL)%string <> "pw"%string /\
  forall (CL : CryptoLib) (HL : HashLib),
    CryptoLibOk CL -> Pbkdf2Hmac CL HL ->
    forall (payload : list Z) (e : entropy),
      decrypt_payload (fst (encrypt_payload payload "pw" e)) ("pw" ++ NUL)
      = Ok payload.
Proof.
  split; [apply string_app_nul_ne|]. intros CL HL CLok KDF payload e.
  apply decrypt_payload_same_key. apply derive_key_nul. vm_compute. lia.
Qed.

(** ** The routes *)

Lemma is_strong_password_nonempty (pwd : string) :
  is_strong_password pwd = true -> String.eqb pwd "" = false.
Proof.
  intros Hs. destruct (String.eqb_spec pwd "") as [->|]; [|done].
  by vm_compute in Hs.
Qed.

Section RouteFacts.
Context {IL : ImageLib} {HL : HashLib} {RL : RandomLib} {CL : CryptoLib}.

Lemma embed_stego_envelope (form : gmap string string)
    (carrier payload_zip payload : list Z) (e : entropy) :
  route_envelope form payload_zip e payload ->
  embed_stego form carrier payload_zip e
  = if String.eqb (form_get form "mode" "eof") "lsb" then
      obind (call (int_to_bytes (len payload) LENGTH_LEN)) (fun ln =>
        let payload_for_lsb := MARKER ++ ln ++ payload in
        let cap := lsb_capacity_bytes carrier in
        if cap <? len payload_for_lsb
        then Reply400 (CapacityTooSmall (len payload_for_lsb) cap)
        else call (embed_lsb carrier payload_for_lsb
                     (form_get form "password" "")))
    else call (pack_stego carrier payload).
Proof.
  unfold embed_stego. intros [[Hplain ->]|(Henc & Hstrong & ->)].
  - by rewrite bool_decide_eq_false_2.
  - rewrite bool_decide_eq_true_2 by done.
    by rewrite (is_strong_password_nonempty _ Hstrong), Hstrong.
Qed.

Lemma lsb_payload_never_missing_marker (form : gmap string string)
    (full : list Z) :
  lsb_payload form full
  = match extract_lsb full (form_get form "password" "") with
    | Ok b => Done (drop 13 b)
    | Err e => Raised (CoreError e)
    end.
Proof.
  unfold lsb_payload. cbv zeta.
  destruct (extract_lsb full _) as [b|err] eqn:Hex; cbn [call obind]; [|done].
  rewrite (extract_lsb_starts_with_marker _ _ _ Hex). cbn [negb].
  f_equal. destruct (image_open_rgb full) as [img|] eqn:Hopen.
  - destruct (extract_lsb_inv full b _ img Hopen Hex)
      as (header & Hhb & _ & _ & _ & Htake & Hlen & _).
    change (slice b (len MARKER) (len MARKER + Z.of_nat LENGTH_LEN))
      with (take 8 (drop 5 b)).
    assert (take 8 (drop 5 b) = take 8 (drop 5 header)) as ->.
    { rewrite <- Htake, !take_drop_commute, take_take. reflexivity. }
    assert (0 <= int_from_bytes (take 8 (drop 5 header))).
    { apply int_from_bytes_nonneg. by apply is_bytes_take, is_bytes_drop. }
    unfold slice. change (len MARKER + Z.of_nat LENGTH_LEN) with 13.
    change (Z.to_nat 13) with 13%nat.
    apply take_ge. rewrite length_drop. lia.
  - unfold extract_lsb in Hex. by rewrite Hopen in Hex.
Qed.
End RouteFacts.

Lemma encrypt_payload_tag {CL : CryptoLib} (payload : list Z)
    (password : string) (e : entropy) :
  startswith (fst (encrypt_payload payload password e)) ENCR = true.
Proof.
  unfold encrypt_payload.
  destruct (token_bytes SALT_LEN e) as [salt e1].
  destruct (token_bytes NONCE_LEN e1) as [nonce e2]. cbn [fst].
  apply startswith_spec. apply take_app_length.
Qed.

Lemma framed_is_frame (payload : list Z) :
  is_bytes payload -> len payload < 2 ^ 64 ->
  is_frame (MARKER ++ be_digits 8 (len payload) ++ payload).
Proof.
  intros Hb Hlen. exists (be_digits 8 (len payload)), payload.
  split_and!; [done|apply length_be_digits|apply is_bytes_be_digits|done|].
  rewrite int_from_bytes_be_digits by (unfold len; lia).
  apply Z.mod_small. unfold len in *. split; [lia|exact Hlen].
Qed.

Section RouteSpec.
Context {IL : ImageLib} {HL : HashLib} {RL : RandomLib} {CL : CryptoLib}.
Context {ILok : ImageLibOk IL}.

Lemma open_envelope_route {CLok : CryptoLibOk CL}
    (form_e form_d : gmap string string) (payload_zip payload : list Z)
    (e : entropy) :
  route_envelope form_e payload_zip e payload ->
  form_get form_d "password" "" = form_get form_e "password" "" ->
  open_envelope form_d payload = Done payload_zip.
Proof.
  intros [[_ ->]|(_ & Hstrong & ->)] Hpwd; unfold open_envelope.
  - assert (startswith (PLND ++ payload_zip) ENCR = false) as -> by reflexivity.
    assert (startswith (PLND ++ payload_zip) PLND = true) as ->.
    { apply startswith_spec. apply take_app_length. }
    reflexivity.
  - rewrite encrypt_payload_tag, Hpwd.
    rewrite (is_strong_password_nonempty _ Hstrong).
    by rewrite decrypt_encrypt_roundtrip.
Qed.

Lemma lsb_stage (carrier payload : list Z) (pwd : string) :
  len payload < 2 ^ 64 ->
  let F := MARKER ++ be_digits 8 (len payload) ++ payload in
  obind (call (int_to_bytes (len payload) LENGTH_LEN)) (fun ln =>
    let payload_for_lsb := MARKER ++ ln ++ payload in
    let cap := lsb_capacity_bytes carrier in
    if cap <? len payload_for_lsb
    then Reply400 (CapacityTooSmall (len payload_for_lsb) cap)
    else call (embed_lsb carrier payload_for_lsb pwd))
  = match image_open_rgb carrier with
    | None => Reply400 (CapacityTooSmall (len F) 0)
    | Some img =>
      if (channel_bytes img <? 8 * length F)%nat
      then Reply400 (CapacityTooSmall (len F) (Z.of_nat (channel_bytes img) / 8))
      else call (embed_lsb carrier F pwd)
    end.
Proof.
  intros Hlen F. change LENGTH_LEN with 8%nat.
  rewrite int_to_bytes_ok by (unfold len in *; split; [lia|exact Hlen]).
  cbn [call obind]. cbv zeta. fold F.
  assert (13 <= len F) as HF.
  { unfold F, len. rewrite !length_app, length_be_digits. simpl. lia. }
  unfold lsb_capacity_bytes. destruct (image_open_rgb carrier) as [img|].
  - replace (Z.of_nat (im_width img) * Z.of_nat (im_height img) * 3)
      with (Z.of_nat (channel_bytes img)) by (unfold channel_bytes; lia).
    pose proof (Z.div_mod (Z.of_nat (channel_bytes img)) 8 ltac:(lia)) as Hdm.
    pose proof (Z.mod_pos_bound (Z.of_nat (channel_bytes img)) 8 ltac:(lia)).
    destruct (Z.ltb_spec (Z.of_nat (channel_bytes img) / 8) (len F)),
             (Nat.ltb_spec (channel_bytes img) (8 * length F));
      unfold len in *; first [done | lia].
  - by destruct (Z.ltb_spec 0 (len F)); [|lia].
Qed.

(** In LSB mode [embed] answers "Image capacity too small" exactly when the
    frame (marker, length, envelope) has more bits than the carrier has
    channel bytes, a carrier that is no image counting as capacity 0;
    otherwise [embed_lsb] is called and returns the stego image.  The route
    never reaches the exceptions of [embed_lsb]. *)
Theorem embed_stego_lsb_capacity (form : gmap string string)
    (carrier payload_zip payload : list Z) (e : entropy) :
  form_get form "mode" "eof" = "lsb"%string ->
  route_envelope form payload_zip e payload ->
  len payload < 2 ^ 64 ->
  let F := MARKER ++ be_digits 8 (len payload) ++ payload in
  (image_open_rgb carrier = None ->
     embed_stego form carrier payload_zip e
     = Reply400 (CapacityTooSmall (len F) 0)) /\
  (forall img, image_open_rgb carrier = Some img ->
     let N := (im_width img * im_height img * 3)%nat in
     ((N < 8 * length F)%nat ->
        embed_stego form carrier payload_zip e
        = Reply400 (CapacityTooSmall (len F) (Z.of_nat N / 8))) /\
     ((8 * length F <= N)%nat ->
        exists stego,
          embed_stego form carrier payload_zip e = Done stego /\
          embed_lsb carrier F (form_get form "password" "") = Ok stego)).
Proof.
  intros Hmode Henv Hlen F.
  rewrite (embed_stego_envelope _ _ _ _ _ Henv), Hmode. cbn [String.eqb].
  change (String.eqb "lsb" "lsb") with true. cbv iota.
  rewrite (lsb_stage carrier payload _ Hlen). fold F. split.
  - by intros ->.
  - intros img Hopen. cbv zeta. rewrite Hopen. unfold channel_bytes.
    set (N := (im_width img * im_height img * 3)%nat). split.
    + intros Hbig.
      by destruct (Nat.ltb_spec N (8 * length F)); [|lia].
    + intros Hfit.
      destruct (Nat.ltb_spec N (8 * length F)); [lia|].
      destruct (embed_lsb_ok carrier F (form_get form "password" "") img Hopen)
        as (data' & Hembed & _); [done|].
      rewrite Hembed. by eexists.
Qed.
End RouteSpec.

Section RouteRoundTrip.
Context {IL : ImageLib} {HL : HashLib} {RL : RandomLib} {CL : CryptoLib}.
Context {ILok : ImageLibOk IL} {CLok : CryptoLibOk CL}.

Lemma embed_stego_lsb_extract (form_e : gmap string string)
    (carrier payload_zip payload : list Z) (e : entropy) (img : rgb_image) :
  form_get form_e "mode" "eof" = "lsb"%string ->
  route_envelope form_e payload_zip e payload ->
  is_bytes payload -> len payload < 2 ^ 64 ->
  image_open_rgb carrier = Some img ->
  (8 * (13 + length payload) <= im_width img * im_height img * 3)%nat ->
  exists stego,
    embed_stego form_e carrier payload_zip e = Done stego /\
    extract_lsb stego (form_get form_e "password" "")
    = Ok (MARKER ++ be_digits 8 (len payload) ++ payload).
Proof.
  intros Hmode Henv Hbytes Hlen Hopen Hfit.
  set (F := MARKER ++ be_digits 8 (len payload) ++ payload).
  assert (length F = (13 + length payload)%nat) as HFl.
  { unfold F. rewrite !length_app, length_be_digits. simpl. lia. }
  destruct (extract_embed_same_order carrier F (form_get form_e "password" "")
              (form_get form_e "password" "") img Hopen)
    as (stego & Hembed & Hextract).
  { by apply framed_is_frame. }
  { unfold channel_bytes. lia. }
  { reflexivity. }
  exists stego. split; [|done].
  rewrite (embed_stego_envelope _ _ _ _ _ Henv), Hmode.
  change (String.eqb "lsb" "lsb") with true. cbv iota.
  rewrite (lsb_stage carrier payload _ Hlen), Hopen. fold F.
  destruct (Nat.ltb_spec (channel_bytes img) (8 * length F));
    [unfold channel_bytes in *; lia|].
  by rewrite Hembed.
Qed.

(** LSB mode, end to end: what [embed] hides in an image that has room for
    it, [download_payload] and [extract_info] give back when they are sent
    the stego image with the same password, provided the EOF attempt they
    make first fails on the image bytes.  The archive may be plain or
    encrypted. *)
Theorem lsb_route_roundtrip (form_e form_d : gmap string string)
    (carrier payload_zip payload : list Z) (e : entropy) (img : rgb_image) :
  form_get form_e "mode" "eof" = "lsb"%string ->
  route_envelope form_e payload_zip e payload ->
  is_bytes payload -> len payload < 2 ^ 64 ->
  image_open_rgb carrier = Some img ->
  (8 * (13 + length payload) <= im_width img * im_height img * 3)%nat ->
  form_get form_d "password" "" = form_get form_e "password" "" ->
  exists stego,
    embed_stego form_e carrier payload_zip e = Done stego /\
    forall err, unpack_stego stego = Err err ->
      download_payload_data form_d stego = Done payload_zip /\
      extract_info_data form_d stego = Done payload_zip.
Proof.
  intros Hmode Henv Hbytes Hlen Hopen Hfit Hpwd.
  destruct (embed_stego_lsb_extract form_e carrier payload_zip payload e img)
    as (stego & Hembed & Hextract); [done..|].
  exists stego. split; [done|]. intros err Hun.
  assert (lsb_payload form_d stego = Done payload) as Hlsb.
  { rewrite lsb_payload_never_missing_marker, Hpwd, Hextract. reflexivity. }
  unfold download_payload_data, extract_info_data.
  rewrite Hun, Hlsb. cbn [obind].
  by rewrite (open_envelope_route form_e form_d payload_zip payload e).
Qed.

(** EOF mode, end to end: what [embed] appends to a carrier,
    [download_payload] and [extract_info] give back, provided the marker does
    not occur in the length field followed by the envelope.  The archive may
    be plain or encrypted. *)
Theorem eof_route_roundtrip (form_e form_d : gmap string string)
    (carrier payload_zip payload : list Z) (e : entropy) :
  form_get form_e "mode" "eof" <> "lsb"%string ->
  route_envelope form_e payload_zip e payload ->
  len payload < 2 ^ 64 ->
  (forall j, ~ occurs_at (be_digits 8 (len payload) ++ payload) MARKER j) ->
  form_get form_d "password" "" = form_get form_e "password" "" ->
  embed_stego form_e carrier payload_zip e
  = Done (carrier ++ MARKER ++ be_digits 8 (len payload) ++ payload) /\
  download_payload_data form_d
    (carrier ++ MARKER ++ be_digits 8 (len payload) ++ payload)
  = Done payload_zip /\
  extract_info_data form_d
    (carrier ++ MARKER ++ be_digits 8 (len payload) ++ payload)
  = Done payload_zip.
Proof.
  intros Hmode Henv Hlen Hnone Hpwd.
  assert (unpack_stego (carrier ++ MARKER ++ be_digits 8 (len payload) ++ payload)
          = Ok payload) as Hun.
  { apply unpack_framed; [done|]. apply rfind_framed.
    intros j Hj [_ Ho]%occurs_after_marker; [|done]. by apply Hnone in Ho. }
  split_and!.
  - rewrite (embed_stego_envelope _ _ _ _ _ Henv).
    destruct (String.eqb_spec (form_get form_e "mode" "eof") "lsb"); [done|].
    by rewrite pack_stego_ok.
  - unfold download_payload_data. rewrite Hun. cbn [obind].
    by apply (open_envelope_route form_e form_d payload_zip payload e).
  - unfold extract_info_data. rewrite Hun. cbn [obind].
    by apply (open_envelope_route form_e form_d payload_zip payload e).
Qed.

(** [download_selected_raw] does not take the header off what [extract_lsb]
    returns: sent the stego image of an LSB embedding (recognised by the PNG
    signature), it opens as an archive the whole frame, marker and length
    included, and an encrypted envelope without decrypting it. *)
Theorem download_selected_raw_lsb (form_e form_d : gmap string string)
    (carrier payload_zip payload : list Z) (e : entropy) (img : rgb_image) :
  form_get form_e "mode" "eof" = "lsb"%string ->
  route_envelope form_e payload_zip e payload ->
  is_bytes payload -> len payload < 2 ^ 64 ->
  image_open_rgb carrier = Some img ->
  (8 * (13 + length payload) <= im_width img * im_height img * 3)%nat ->
  form_get form_d "password" "" = form_get form_e "password" "" ->
  exists stego,
    embed_stego form_e carrier payload_zip e = Done stego /\
    (startswith stego PNG_SIGNATURE = true ->
     download_selected_raw_data form_d stego
     = Done (MARKER ++ be_digits 8 (len payload) ++ payload)).
Proof.
  intros Hmode Henv Hbytes Hlen Hopen Hfit Hpwd.
  destruct (embed_stego_lsb_extract form_e carrier payload_zip payload e img)
    as (stego & Hembed & Hextract); [done..|].
  exists stego. split; [done|]. intros Hpng.
  unfold download_selected_raw_data. cbv zeta.
  rewrite Hpng, Hpwd, Hextract. reflexivity.
Qed.
End RouteRoundTrip.

Section RouteNever.
Context {IL : ImageLib} {HL : HashLib} {RL : RandomLib} {CL : CryptoLib}.

Lemma open_envelope_not_missing_marker (form : gmap string string)
    (payload : list Z) (err : app_error) :
  open_envelope form payload = Raised err -> exists e, err = CoreError e.
Proof.
  unfold open_envelope. destruct (startswith payload ENCR).
  - destruct (String.eqb _ _); [done|].
    destruct (decrypt_payload _ _); cbn [call]; [done|]. intros [= <-]. by eexists.
  - by destruct (startswith payload PLND).
Qed.

(** The check "LSB payload missing marker" of [download_payload] and
    [extract_info] never fires: what [extract_lsb] returns begins with the
    marker.  When the EOF attempt fails and [extract_lsb] returns, the payload
    is what follows its first 13 bytes. *)
Theorem lsb_marker_check_unreachable (form : gmap string string)
    (full : list Z) :
  download_payload_data form full <> Raised LsbPayloadMissingMarker /\
  extract_info_data form full
  <> Raised (UnableToFindPayload LsbPayloadMissingMarker) /\
  forall err b,
    unpack_stego full = Err err ->
    extract_lsb full (form_get form "password" "") = Ok b ->
    download_payload_data form full = open_envelope form (drop 13 b) /\
    extract_info_data form full = open_envelope form (drop 13 b).
Proof.
  unfold download_payload_data, extract_info_data.
  rewrite lsb_payload_never_missing_marker. split_and!.
  - destruct (unpack_stego full) as [p|err]; cbn [obind].
    + intros [e ?]%open_envelope_not_missing_marker. done.
    + destruct (extract_lsb full _); cbn [obind]; [|done].
      intros [e ?]%open_envelope_not_missing_marker. done.
  - destruct (unpack_stego full) as [p|err]; cbn [obind].
    + intros [e ?]%open_envelope_not_missing_marker. done.
    + destruct (extract_lsb full _); cbn [obind]; [|done].
      intros [e ?]%open_envelope_not_missing_marker. done.
  - intros err b -> ->. done.
Qed.
End RouteNever.

(** ** The routes on the worked example *)

Lemma signed_image_lib_ok : ImageLibOk signed_image_lib.
Proof.
  split; cbn [image_open_rgb png_save signed_image_lib].
  - intros c im. destruct (startswith c PNG_SIGNATURE); [|done].
    apply (image_open_shape (ImageLibOk := raw_image_lib_ok)).
  - intros c im. destruct (startswith c PNG_SIGNATURE); [|done].
    apply (image_open_uint8 (ImageLibOk := raw_image_lib_ok)).
  - intros c im data. destruct (startswith c PNG_SIGNATURE); [|done].
    intros Hopen Hlen Hb.
    assert (startswith (PNG_SIGNATURE ++ raw_save (im_width im) (im_height im) data)
              PNG_SIGNATURE = true) as ->.
    { apply startswith_spec. apply take_app_length. }
    change (drop 4 (PNG_SIGNATURE ++ ?x)) with x.
    by apply (png_lossless (ImageLibOk := raw_image_lib_ok) (drop 4 c)).
Qed.

Lemma route_carrier_open :
  image_open_rgb (ImageLib := signed_image_lib) route_carrier = Some route_image.
Proof. reflexivity. Qed.

Lemma route_envelope_example :
  route_envelope (CL := plain_crypto_lib) lsb_encrypt_form route_zip 7
    (fst (encrypt_payload (CL := plain_crypto_lib) route_zip "Tr0ub4dor&3x" 7)).
Proof. right. split_and!; reflexivity. Qed.

Lemma route_stego_embed :
  embed_stego (IL := signed_image_lib) (HL := pad_hash_lib) (RL := lcg_lib)
    (CL := plain_crypto_lib) lsb_encrypt_form route_carrier route_zip 7
  = Done route_stego.
Proof. vm_compute. reflexivity. Qed.

Lemma route_stego_unpack :
  unpack_stego route_stego = Err MarkerNotFoundOrTruncated.
Proof. vm_compute. reflexivity. Qed.

Lemma route_envelope_bytes :
  is_bytes (fst (encrypt_payload (CL := plain_crypto_lib) route_zip
                   "Tr0ub4dor&3x" 7)).
Proof. apply is_bytes_forallb. vm_compute. reflexivity. Qed.

Lemma embed_stego_lsb_capacity_witness :
  exists stego,
    embed_stego (IL := signed_image_lib) (HL := pad_hash_lib) (RL := lcg_lib)
      (CL := plain_crypto_lib) lsb_encrypt_form route_carrier route_zip 7
    = Done stego.
Proof.
  destruct (embed_stego_lsb_capacity (ILok := signed_image_lib_ok)
              (HL := pad_hash_lib) (RL := lcg_lib) (CL := plain_crypto_lib)
              lsb_encrypt_form route_carrier route_zip _ 7
              eq_refl route_envelope_example) as [_ Himg].
  - by vm_compute.
  - destruct (Himg route_image route_carrier_open) as [_ Hfit].
    destruct Hfit as (stego & Hembed & _).
    + apply Nat.leb_le. vm_compute. reflexivity.
    + by exists stego.
Defined.

Lemma lsb_route_roundtrip_witness :
  download_payload_data (IL := signed_image_lib) (HL := pad_hash_lib)
    (RL := lcg_lib) (CL := plain_crypto_lib) password_form route_stego
  = Done route_zip.
Proof.
  destruct (lsb_route_roundtrip (ILok := signed_image_lib_ok)
              (CLok := plain_crypto_lib_ok) (HL := pad_hash_lib) (RL := lcg_lib)
              lsb_encrypt_form password_form route_carrier route_zip _ 7
              route_image eq_refl route_envelope_example route_envelope_bytes)
    as (stego & Hembed & Hback).
  - by vm_compute.
  - exact route_carrier_open.
  - apply Nat.leb_le. vm_compute. reflexivity.
  - reflexivity.
  - rewrite route_stego_embed in Hembed. injection Hembed as <-.
    exact (proj1 (Hback _ route_stego_unpack)).
Defined.

Lemma download_selected_raw_lsb_witness :
  exists frame,
    download_selected_raw_data (IL := signed_image_lib) (HL := pad_hash_lib)
      (RL := lcg_lib) (CL := plain_crypto_lib) password_form route_stego
    = Done frame /\
    startswith frame MARKER = true.
Proof.
  destruct (download_selected_raw_lsb (ILok := signed_image_lib_ok)
              (CL := plain_crypto_lib) (HL := pad_hash_lib) (RL := lcg_lib)
              lsb_encrypt_form password_form route_carrier route_zip _ 7
              route_image eq_refl route_envelope_example route_envelope_bytes)
    as (stego & Hembed & Hraw).
  - by vm_compute.
  - exact route_carrier_open.
  - apply Nat.leb_le. vm_compute. reflexivity.
  - reflexivity.
  - rewrite route_stego_embed in Hembed. injection Hembed as <-.
    eexists. split; [exact (Hraw eq_refl)|reflexivity].
Defined.

Lemma eof_route_roundtrip_witness :
  download_payload_data (IL := signed_image_lib) (HL := pad_hash_lib)
    (RL := lcg_lib) (CL := plain_crypto_lib) eof_form
    ([1; 2; 3] ++ MARKER ++ be_digits 8 (len (PLND ++ route_zip))
     ++ PLND ++ route_zip)
  = Done route_zip.
Proof.
  destruct (eof_route_roundtrip (IL := signed_image_lib)
              (CLok := plain_crypto_lib_ok) (HL := pad_hash_lib) (RL := lcg_lib)
              eof_form eof_form [1; 2; 3] route_zip (PLND ++ route_zip) 7)
    as (_ & Hdl & _).
  - by vm_compute.
  - left. split; [by vm_compute|done].
  - by vm_compute.
  - intros j Ho.
    change (be_digits 8 (len (PLND ++ route_zip)) ++ PLND ++ route_zip)
      with [0; 0; 0; 0; 0; 0; 0; 6; 80; 76; 78; 68; 80; 75] in Ho.
    no_marker_at j I Ho.
  - reflexivity.
  - exact Hdl.
Defined.

Lemma lsb_marker_check_unreachable_witness :
  download_payload_data (IL := signed_image_lib) (HL := pad_hash_lib)
    (RL := lcg_lib) (CL := plain_crypto_lib) password_form route_stego
  = open_envelope (CL := plain_crypto_lib) password_form
      (fst (encrypt_payload (CL := plain_crypto_lib) route_zip "Tr0ub4dor&3x" 7)).
Proof.
  destruct (lsb_marker_check_unreachable (IL := signed_image_lib)
              (HL := pad_hash_lib) (RL := lcg_lib) (CL := plain_crypto_lib)
              password_form route_stego) as (_ & _ & Hpath).
  destruct (Hpath MarkerNotFoundOrTruncated
              (MARKER ++ be_digits 8 50
               ++ fst (encrypt_payload (CL := plain_crypto_lib) route_zip
                         "Tr0ub4dor&3x" 7))
              route_stego_unpack) as [Hdl _].
  - vm_compute. reflexivity.
  - exact Hdl.
Defined.

(** ** The archive of the secrets *)

Lemma string_app_inv_tail (s1 s2 e : string) :
  s1 +:+ e = s2 +:+ e -> s1 = s2.
Proof.
  intros Heq. apply (f_equal list_ascii_of_string) in Heq.
  rewrite !list_ascii_of_string_app in Heq. apply app_inv_tail in Heq.
  rewrite <- (string_of_list_ascii_of_string s1).
  rewrite <- (string_of_list_ascii_of_string s2). by rewrite Heq.
Qed.

Lemma str_of_nat_inj (i j : nat) : str_of_nat i = str_of_nat j -> i = j.
Proof.
  unfold str_of_nat. intros Heq.
  apply (f_equal NilEmpty.uint_of_string) in Heq.
  rewrite !NilEmpty.usu in Heq. injection Heq as Heq.
  by apply Unsigned.to_uint_inj.
Qed.

Section ArchiveFacts.
Context {PL : PathLib} {TL : TextLib} {ZL : ZipLib}.

Lemma numbered_inj (name : string) (i j : nat) :
  numbered name i = numbered name j -> i = j.
Proof.
  unfold numbered. destruct (splitext name) as [root ext]. intros Heq.
  apply String.app_inj, String.app_inj in Heq.
  by apply string_app_inv_tail, str_of_nat_inj in Heq.
Qed.

(** From a numbered target on, the loop ends within as many iterations as
    there are taken names left among the targets to come. *)
Lemma free_target_loop (name : string) (seen : gset string) (fuel : nat) :
  forall (left : gset string) (j : nat),
    (forall k, (j <= k)%nat -> numbered name k ∈ seen -> numbered name k ∈ left) ->
    (size left <= fuel)%nat ->
    exists t k,
      free_target fuel name seen (numbered name j) (S j) = Some t /\
      t = numbered name k /\ t ∉ seen.
Proof.
  induction fuel as [|fuel IH]; intros left j Hleft Hsize; cbn [free_target].
  - destruct (decide (numbered name j ∈ seen)) as [Hin|Hout].
    + apply Hleft in Hin; [|lia].
      assert (size left <> 0%nat); [|lia].
      apply size_non_empty_iff. set_solver.
    + rewrite bool_decide_eq_false_2 by done. by exists (numbered name j), j.
  - destruct (decide (numbered name j ∈ seen)) as [Hin|Hout].
    + rewrite bool_decide_eq_true_2 by done.
      apply (IH (left ∖ {[numbered name j]})).
      * intros k Hk Hkin. apply elem_of_difference. split.
        -- apply Hleft; [lia|done].
        -- intros ->%elem_of_singleton%numbered_inj. lia.
      * apply Hleft in Hin; [|lia].
        rewrite size_difference by set_solver. rewrite size_singleton.
        assert (size left <> 0%nat); [|lia].
        apply size_non_empty_iff. set_solver.
    + rewrite bool_decide_eq_false_2 by done. by exists (numbered name j), j.
Qed.

(** The loop [while target in seen] ends: it gives a name that is not taken,
    the name of the file itself when that is free. *)
Lemma free_target_total (name : string) (seen : gset string) :
  exists t,
    free_target (S (size seen)) name seen name 1 = Some t /\
    (t ∉ seen) /\
    (name ∉ seen -> t = name) /\
    (t = name \/ exists i, t = numbered name i).
Proof.
  cbn [free_target]. destruct (decide (name ∈ seen)) as [Hin|Hout].
  - rewrite bool_decide_eq_true_2 by done.
    destruct (free_target_loop name seen (size seen) seen 1)
      as (t & k & Ht & Hk & Hfree); [done|done|].
    exists t. split_and!; [done|done|done|]. right. by exists k.
  - rewrite bool_decide_eq_false_2 by done. exists name. by split_and!; [..|left].
Qed.

Lemma add_files_spec (secret_files : list file_storage) (seen : gset string) :
  exists entries,
    add_files secret_files seen = Some entries /\
    NoDup (map fst entries) /\
    (forall n, n ∈ map fst entries -> n ∉ seen) /\
    map snd entries
    = map fs_content (List.filter (fun f => negb (no_filename f)) secret_files).
Proof.
  revert seen. induction secret_files as [|f rest IH]; intros seen.
  { exists []. split_and!; [done|constructor|by intros n ?%elem_of_nil|done]. }
  cbn [add_files List.filter]. destruct (no_filename f); cbn [negb].
  { apply IH. }
  set (name := basename (default ""%string (fs_filename f))).
  destruct (free_target_total name seen) as (t & -> & Hfree & _).
  destruct (IH ({[t]} ∪ seen)) as (entries & -> & Hnd & Hnew & Hcontent).
  exists ((t, fs_content f) :: entries). cbn [map fst snd]. split_and!.
  - done.
  - constructor; [|done]. intros Hin%Hnew. set_solver.
  - intros n [->|Hin%Hnew]%elem_of_cons; [done|set_solver].
  - by rewrite Hcontent.
Qed.

Lemma add_files_takes_name (secret_files : list file_storage)
    (seen : gset string) (entries : list (string * list Z))
    (f : file_storage) :
  add_files secret_files seen = Some entries ->
  f ∈ secret_files -> no_filename f = false ->
  let name := basename (default ""%string (fs_filename f)) in
  name ∈ seen \/ name ∈ map fst entries.
Proof.
  revert seen entries.
  induction secret_files as [|g rest IH]; intros seen entries Hadd Hf Hnamed name.
  { by apply elem_of_nil in Hf. }
  cbn [add_files] in Hadd. apply elem_of_cons in Hf as [<-|Hf].
  - rewrite Hnamed in Hadd. fold name in Hadd.
    destruct (free_target_total name seen) as (t & Ht & _ & Hkeep & _).
    rewrite Ht in Hadd.
    destruct (add_files rest ({[t]} ∪ seen)) as [es|]; [|done].
    injection Hadd as <-. destruct (decide (name ∈ seen)) as [|Hout]; [by left|].
    right. rewrite (Hkeep Hout). cbn. left.
  - destruct (no_filename g).
    + by apply (IH seen).
    + destruct (free_target _ _ _ _ _) as [t|]; [|done].
      destruct (add_files rest ({[t]} ∪ seen)) as [es|] eqn:Hrest; [|done].
      injection Hadd as <-.
      destruct (IH _ _ Hrest Hf Hnamed) as [Hin|Hin].
      * apply elem_of_union in Hin as [Heq%elem_of_singleton|Hin]; [|by left].
        right. cbn [map fst]. apply elem_of_cons. by left.
      * right. cbn [map fst]. by right.
Qed.
End ArchiveFacts.

Section ArchiveSpec.
Context {PL : PathLib} {TL : TextLib} {ZL : ZipLib}.



(** The name "secret_text.txt" is not kept for the text: when the text is
    stored and an uploaded file has that base name, the archive has two
    members of that name. *)
Theorem secret_text_name_taken_twice (secret_text : string)
    (secret_files : list file_storage) (f : file_storage) :
  text_entry secret_text <> [] ->
  f ∈ secret_files -> no_filename f = false ->
  basename (default ""%string (fs_filename f)) = "secret_text.txt"%string ->
  exists entries,
    payload_entries_from_files secret_text secret_files = Some entries /\
    ~ NoDup (map fst entries).
Proof.
  intros Htext Hf Hnamed Hbase.
  destruct (add_files_spec secret_files ∅) as (entries & Hadd & _).
  exists (text_entry secret_text ++ entries).
  unfold payload_entries_from_files. rewrite Hadd. split; [done|].
  destruct (add_files_takes_name _ _ _ f Hadd Hf Hnamed) as [Hin|Hin];
    [set_solver|].
  rewrite Hbase in Hin. unfold text_entry in *.
  destruct (_ && _); [|done]. cbn [app map fst].
  intros [Hnotin _]%NoDup_cons. done.
Qed.

Lemma add_items_add_files (items : list (string * list Z)) (seen : gset string) :
  add_items items seen
  = add_files (map (fun '(name, data) =>
                      {| fs_filename := Some name; fs_content := data |}) items)
      seen.
Proof.
  revert seen. induction items as [|[name data] rest IH]; intros seen; [done|].
  cbn [add_items add_files map no_filename fs_filename fs_content default].
  destruct (String.eqb name ""); [apply IH|].
  destruct (free_target _ _ _ _ _) as [t|]; [|done]. by rewrite IH.
Qed.

(** [create_payload_zip_from_bytes] on a dictionary builds the archive that
    [create_payload_zip_from_files] builds from files with these names and
    contents. *)
Theorem create_payload_zip_from_bytes_files (secret_text : string)
    (files_dict : list (string * list Z)) :
  create_payload_zip_from_bytes secret_text files_dict
  = create_payload_zip_from_files secret_text
      (map (fun '(name, data) =>
              {| fs_filename := Some name; fs_content := data |}) files_dict).
Proof.
  unfold create_payload_zip_from_bytes, create_payload_zip_from_files,
    payload_entries_from_files.
  rewrite add_items_add_files. by destruct (add_files _ _).
Qed.
End ArchiveSpec.



Lemma secret_text_name_taken_twice_witness :
  exists entries,
    payload_entries_from_files (PL := small_path_lib) (TL := small_text_lib)
      "hi" demo_files = Some entries /\
    ~ NoDup (map fst entries).
Proof.
  apply (secret_text_name_taken_twice (PL := small_path_lib)
           (TL := small_text_lib) "hi" demo_files
           {| fs_filename := Some "secret_text.txt"%string; fs_content := [3] |}).
  - by vm_compute.
  - unfold demo_files. do 3 right. left.
  - reflexivity.
  - reflexivity.
Defined.

(** ** The estimate and the embedding *)

Section Estimate.
Context {IL : ImageLib} {HL : HashLib} {RL : RandomLib} {CL : CryptoLib}.
Context {ILok : ImageLibOk IL}.

(** The sizes [estimate] reports decide whether [embed] succeeds in LSB mode
    without encryption, but not by themselves: the frame has 13 bytes more
    than the reported payload, and [embed] returns a stego image if and only
    if payload size plus 13 is at most the reported LSB capacity. *)
Theorem estimate_sizes_vs_embed (form : gmap string string)
    (carrier payload_zip : list Z) (e : entropy) :
  form_get form "mode" "eof" = "lsb"%string ->
  form !! "encrypt" <> Some "on"%string ->
  carrier <> [] ->
  len payload_zip + 4 < 2 ^ 64 ->
  (exists stego, embed_stego form carrier payload_zip e = Done stego) <->
  (estimate_sizes carrier payload_zip).1 + 13
  <= (estimate_sizes carrier payload_zip).2.
Proof.
  intros Hmode Hplain Hcarrier Hlen.
  assert (len (PLND ++ payload_zip) = len payload_zip + 4) as Hpl.
  { unfold len. rewrite length_app. simpl. lia. }
  rewrite (embed_stego_envelope form carrier payload_zip (PLND ++ payload_zip) e)
    by (by left).
  rewrite Hmode. change (String.eqb "lsb" "lsb") with true. cbv iota.
  rewrite (lsb_stage carrier (PLND ++ payload_zip)) by lia.
  set (F := MARKER ++ be_digits 8 (len (PLND ++ payload_zip))
            ++ PLND ++ payload_zip).
  assert (Z.of_nat (length F) = len (PLND ++ payload_zip) + 13) as HF.
  { unfold F, len. rewrite !length_app, length_be_digits. simpl. lia. }
  unfold estimate_sizes. cbn [fst snd].
  assert (match carrier with [] => 0 | _ :: _ => lsb_capacity_bytes carrier end
          = lsb_capacity_bytes carrier) as -> by by destruct carrier.
  unfold lsb_capacity_bytes.
  destruct (image_open_rgb carrier) as [img|] eqn:Hopen.
  - replace (Z.of_nat (im_width img) * Z.of_nat (im_height img) * 3)
      with (Z.of_nat (channel_bytes img)) by (unfold channel_bytes; lia).
    pose proof (Z.div_mod (Z.of_nat (channel_bytes img)) 8 ltac:(lia)) as Hdm.
    pose proof (Z.mod_pos_bound (Z.of_nat (channel_bytes img)) 8 ltac:(lia)).
    destruct (Nat.ltb_spec (channel_bytes img) (8 * length F)) as [Hbig|Hfit].
    + split; [by intros [stego ?]|]. intros Hle. exfalso. lia.
    + split; [intros _; lia|]. intros _.
      destruct (embed_lsb_ok carrier F (form_get form "password" "") img Hopen)
        as (data' & Hembed & _); [done|].
      rewrite Hembed. by eexists.
  - split; [by intros [stego ?]|]. unfold len in *. lia.
Qed.
End Estimate.

Lemma estimate_sizes_vs_embed_witness :
  exists stego,
    embed_stego (IL := signed_image_lib) (HL := pad_hash_lib) (RL := lcg_lib)
      (CL := plain_crypto_lib) {[ "mode" := "lsb" ]}%string
      route_carrier route_zip 7 = Done stego.
Proof.
  apply (estimate_sizes_vs_embed (ILok := signed_image_lib_ok)
           (HL := pad_hash_lib) (RL := lcg_lib) (CL := plain_crypto_lib)
           {[ "mode" := "lsb" ]}%string route_carrier route_zip 7).
  - reflexivity.
  - by vm_compute.
  - done.
  - by vm_compute.
  - by vm_compute.
Defined.
